(** * Loop extraction (data_parse/make_loops.py): a shallow embedding

    The development follows the Python module function by function.
    Python integers are [Z]; list positions produced by [range] are [nat];
    dictionaries whose iteration order is irrelevant are [gmap]s, the
    insertion-ordered [endpoint_dict] is an association list; exceptions
    are an error monad.  Token strings are taken to be ASCII, as DadaGP
    tokens are.

    Python floats (tick durations, beat counts, densities) are modelled as
    exact rationals [Q].  The tick durations of guitarpro's durations are
    integers, and the densities are quotients of two token counts.  With
    an integer threshold, as the defaults are, the code compares such a
    quotient with an integer, and rounding does not change the comparison
    for any stream that fits in memory.  With a threshold that is not an
    integer the code rounds the threshold and its product with the measure
    count, which the model keeps exact: the two can then decide
    differently when the two sides of the comparison are equal or next to
    each other. *)

From Stdlib Require Import ZArith QArith List String Ascii Lia Bool.
From stdpp Require Import gmap strings list fin_maps.
Import ListNotations.

(* set_solver clears hypotheses it has already cleared *)
#[local] Set Warnings "-clear-no-such-hyp".

Close Scope Q_scope.
Open Scope string_scope.
Open Scope list_scope.
Open Scope nat_scope.

(** ** Exceptions *)

Inductive exn : Type :=
| ZeroDivisionError
| ValueError
| IndexError
| KeyError.

Inductive result (A : Type) : Type :=
| Ok (a : A)
| Raise (e : exn).

Arguments Ok {A} a.
Arguments Raise {A} e.

Definition bind {A B : Type} (m : result A) (f : A -> result B) : result B :=
  match m with
  | Ok a => f a
  | Raise e => Raise e
  end.

Notation "'let*' x ':=' m 'in' k" := (bind m (fun x => k))
  (at level 10, x name, m at level 100, k at level 200,
   format "'[v' 'let*'  x  :=  m  'in'  '/' k ']'").

(** Monadic left fold: a [for] loop whose body may raise. *)
Fixpoint foldM {A S : Type} (body : S -> A -> result S) (l : list A) (s : S)
  : result S :=
  match l with
  | [] => Ok s
  | a :: l' => let* s' := body s a in foldM body l' s'
  end.

(** ** Python string primitives *)

(** [pat in s] *)
Fixpoint contains (pat s : string) : bool :=
  String.prefix pat s ||
  match s with
  | EmptyString => false
  | String _ s' => contains pat s'
  end.

(** [s.split(":")[0]] : the text before the first colon. *)
Fixpoint split_head (s : string) : string :=
  match s with
  | EmptyString => EmptyString
  | String c s' => if Ascii.eqb c ":"%char then EmptyString
                   else String c (split_head s')
  end.

(** [s[n:]] for a non-negative literal [n]. *)
Fixpoint str_drop (n : nat) (s : string) : string :=
  match n, s with
  | O, _ => s
  | S n', String _ s' => str_drop n' s'
  | S _, EmptyString => EmptyString
  end.

(** [int(s)] on ASCII text: surrounding white space (tab, line feed,
    vertical tab, form feed, carriage return, space) is stripped, one sign
    is allowed, then decimal digits with single underscores between them.
    The number of digits is not limited. *)
Definition is_space (c : ascii) : bool :=
  let n := nat_of_ascii c in
  ((9 <=? n) && (n <=? 13)) || (n =? 32).

Fixpoint lstrip (l : list ascii) : list ascii :=
  match l with
  | c :: l' => if is_space c then lstrip l' else l
  | [] => []
  end.

Definition strip (l : list ascii) : list ascii :=
  rev (lstrip (rev (lstrip l))).

Definition digit_value (c : ascii) : option Z :=
  let n := nat_of_ascii c in
  if (48 <=? n) && (n <=? 57) then Some (Z.of_nat (n - 48)) else None.

Fixpoint parse_digits (l : list ascii) (acc : Z) (after_digit : bool)
  : option Z :=
  match l with
  | [] => if after_digit then Some acc else None
  | c :: l' =>
      if Ascii.eqb c "_"%char then
        if after_digit then parse_digits l' acc false else None
      else
        match digit_value c with
        | Some d => parse_digits l' (10 * acc + d)%Z true
        | None => None
        end
  end.

Definition py_int (s : string) : result Z :=
  let body := strip (list_ascii_of_string s) in
  let parsed :=
    match body with
    | c :: rest =>
        if Ascii.eqb c "+"%char then parse_digits rest 0%Z false
        else if Ascii.eqb c "-"%char then
               option_map Z.opp (parse_digits rest 0%Z false)
        else parse_digits body 0%Z false
    | [] => None
    end in
  match parsed with
  | Some z => Ok z
  | None => Raise ValueError
  end.

(** ** Per-instrument note counters (the [num_notes] / [curr_notes] dicts) *)

(** [if instrument not in d: d[instrument] = 1 else: d[instrument] += 1] *)
Definition count_note (instrument : string) (d : gmap string Z)
  : gmap string Z :=
  match d !! instrument with
  | None => <[instrument := 1%Z]> d
  | Some c => <[instrument := (c + 1)%Z]> d
  end.

(** [for inst in d.keys(): total_notes += d[inst]] *)
Definition total_notes (d : gmap string Z) : Z :=
  map_fold (fun _ c acc => (acc + c)%Z) 0%Z d.

(** [total_notes * 1.0 / len(d)], which raises when [d] is empty. *)
Definition note_density (d : gmap string Z) : result Q :=
  if size d =? 0 then Raise ZeroDivisionError
  else Ok (inject_Z (total_notes d) / inject_Z (Z.of_nat (size d)))%Q.

(** ** filter_loops_density *)

Record density_state : Type := mkDensity {
  num_meas : Z;
  timestamp : Z;
  num_notes : gmap string Z
}.

Definition in_window (pts : Z * Z) (ts : Z) : bool :=
  (pts.1 <=? ts)%Z && (ts <? pts.2)%Z.

(** The token scan of [filter_loops_density]; the recursion ends at the
    end of the stream or at the [break]. *)
Fixpoint density_scan (pts : Z * Z) (token_list : list string)
    (st : density_state) : result density_state :=
  match token_list with
  | [] => Ok st
  | t :: rest =>
      let notes :=
        if contains "note" t then count_note (split_head t) (num_notes st)
        else num_notes st in
      let meas :=
        if in_window pts (timestamp st) then
          if String.eqb t "new_measure" then (num_meas st + 1)%Z
          else num_meas st
        else num_meas st in
      let* ts := (if contains "wait:" t then
                    let* n := py_int (str_drop 5 t) in Ok (timestamp st + n)%Z
                  else Ok (timestamp st)) in
      let st' := mkDensity meas ts notes in
      if (pts.2 <=? ts)%Z then Ok st' else density_scan pts rest st'
  end.

(** [curr_density >= density * num_meas] *)
Definition density_passes (density : Q) (meas : Z) (curr_density : Q) : bool :=
  Qle_bool (density * inject_Z meas)%Q curr_density.

(** One iteration of the [for pts in loop_bp] loop: is the window kept? *)
Definition window_kept (token_list : list string) (density : Q) (pts : Z * Z)
  : result bool :=
  let* st := density_scan pts token_list (mkDensity 0%Z 0%Z ∅) in
  let* curr_density := note_density (num_notes st) in
  Ok (density_passes density (num_meas st) curr_density).

Definition filter_loops_density (token_list : list string)
    (loop_bp : list (Z * Z)) (density : Q) : result (list (Z * Z)) :=
  if length loop_bp =? 0 then Ok []
  else
    foldM (fun final_endpoints pts =>
             let* keep := window_kept token_list density pts in
             Ok (if keep then final_endpoints ++ [pts] else final_endpoints))
          loop_bp [].

(** ** unify_loops *)

(** The density scan of [unify_loops].  Unlike the scan of
    [filter_loops_density] it has no [wait:] branch, so [timestamp] keeps
    its initial value and nothing can raise. *)
Fixpoint unify_density_scan (pts : Z * Z) (token_list : list string)
    (st : density_state) : density_state :=
  match token_list with
  | [] => st
  | t :: rest =>
      let notes :=
        if contains "note" t then count_note (split_head t) (num_notes st)
        else num_notes st in
      let meas :=
        if in_window pts (timestamp st) then
          if String.eqb t "new_measure" then (num_meas st + 1)%Z
          else num_meas st
        else num_meas st in
      let st' := mkDensity meas (timestamp st) notes in
      if (pts.2 <=? timestamp st)%Z then st' else unify_density_scan pts rest st'
  end.

(** [a < b] on rationals. *)
Definition Qlt_bool (a b : Q) : bool := negb (Qle_bool b a).

Record copy_state : Type := mkCopy {
  final_list : list string;
  copy_timestamp : Z;
  measure_idx : Z
}.

(** The copying scan of [unify_loops], over [token_list[4:]]. *)
Fixpoint unify_copy_scan (pts : Z * Z) (meas : Z) (tokens : list string)
    (st : copy_state) : result copy_state :=
  match tokens with
  | [] => Ok st
  | t :: rest =>
      let st1 :=
        if in_window pts (copy_timestamp st) && negb (contains "repeat" t) then
          let out := final_list st ++ [t] in
          if String.eqb t "new_measure" then
            let out1 :=
              if (measure_idx st =? 0)%Z then out ++ ["measure:repeat_open"]
              else out in
            let out2 :=
              if (measure_idx st =? meas - 1)%Z
              then out1 ++ ["measure:repeat_close:1"]
              else out1 in
            mkCopy out2 (copy_timestamp st) (measure_idx st + 1)%Z
          else mkCopy out (copy_timestamp st) (measure_idx st)
        else st in
      let* ts := (if contains "wait:" t then
                    let* n := py_int (str_drop 5 t) in
                    Ok (copy_timestamp st1 + n)%Z
                  else Ok (copy_timestamp st1)) in
      let st2 := mkCopy (final_list st1) ts (measure_idx st1) in
      if (pts.2 <=? ts)%Z then Ok st2 else unify_copy_scan pts meas rest st2
  end.

(** The body of [for pts in loop_bp] in [unify_loops], on [final_list]. *)
Definition unify_window (token_list : list string) (density : Q)
    (out : list string) (pts : Z * Z) : result (list string) :=
  let st := unify_density_scan pts token_list (mkDensity 0%Z 0%Z ∅) in
  let* curr_density := note_density (num_notes st) in
  if Qlt_bool curr_density (density * inject_Z (num_meas st))%Q then Ok out
  else
    let* c := unify_copy_scan pts (num_meas st) (drop 4 token_list)
                (mkCopy out 0%Z 0%Z) in
    Ok (final_list c).

Definition unify_loops (token_list : list string) (loop_bp : list (Z * Z))
    (density : Q) : result (list string) :=
  if length loop_bp =? 0 then Ok (take 4 token_list)
  else
    let* out := foldM (unify_window token_list density) loop_bp
                  (take 4 token_list) in
    Ok (out ++ ["measure:repeat_close:1"]).

(** ** Python sequence primitives *)

(** [l[i]] for an index produced by [range] (never negative). *)
Definition py_index {A : Type} (l : list A) (i : nat) : result A :=
  match l !! i with
  | Some a => Ok a
  | None => Raise IndexError
  end.

(** [l[i]] for an arbitrary integer: negative indices count from the end. *)
Definition py_get {A : Type} (l : list A) (i : Z) : result A :=
  let n := Z.of_nat (length l) in
  if (0 <=? i)%Z then py_index l (Z.to_nat i)
  else if (0 <=? i + n)%Z then py_index l (Z.to_nat (i + n))
  else Raise IndexError.

(** A slice bound, clamped the way Python clamps it. *)
Definition clamp_bound (n i : Z) : Z :=
  if (i <? 0)%Z then Z.max (i + n) 0 else Z.min i n.

(** [l[a:b]] *)
Definition py_slice {A : Type} (l : list A) (a b : Z) : list A :=
  let n := Z.of_nat (length l) in
  let a' := Z.to_nat (clamp_bound n a) in
  let b' := Z.to_nat (clamp_bound n b) in
  take (b' - a') (drop a' l).

(** [d[k] = v] on an insertion-ordered dict: an existing key keeps its
    position, a new key goes last. *)
Fixpoint dict_set {V : Type} (k : nat) (v : V) (d : list (nat * V))
  : list (nat * V) :=
  match d with
  | [] => [(k, v)]
  | (k', v') :: d' =>
      if k =? k' then (k, v) :: d' else (k', v') :: dict_set k v d'
  end.

(** ** The repeat-bracket scan of get_repeats *)

Record scan_state : Type := mkScan {
  endpoint_dict : list (nat * Z);
  length_dict : gmap nat (Z * Q);
  open_reps : list nat;
  curr_length : Z;
  curr_notes : gmap string Z
}.

Definition scan_init : scan_state := mkScan [] ∅ [] 0%Z ∅.

(** [0.0] for an empty counter dict, else [total_notes * 1.0 / len]. *)
Definition region_density (d : gmap string Z) : Q :=
  if size d =? 0 then 0%Q
  else (inject_Z (total_notes d) / inject_Z (Z.of_nat (size d)))%Q.

(** Body of [for i in range(num_words-2)] in [get_repeats]. *)
Definition get_repeats_step (list_words : list string) (st : scan_state)
    (i : nat) : result scan_state :=
  let* t := py_index list_words i in
  let notes :=
    if contains "note" t then count_note (split_head t) (curr_notes st)
    else curr_notes st in
  if String.eqb t "new_measure" then
    let len := (curr_length st + 1)%Z in
    let* t1 := py_index list_words (i + 1) in
    let opened :=
      if String.eqb t1 "measure:repeat_open" then
        mkScan (dict_set i (-1)%Z (endpoint_dict st)) (length_dict st)
               (open_reps st ++ [i]) 1%Z ∅
      else
        mkScan (endpoint_dict st) (length_dict st) (open_reps st) len notes in
    let* closing :=
      (if contains "measure:repeat_close" t1 then Ok true
       else let* t2 := py_index list_words (i + 2) in
            Ok (contains "measure:repeat_close" t2)) in
    if closing then
      let curr_density := region_density (curr_notes opened) in
      if 0 <? length (open_reps opened) then
        match last (open_reps opened) with
        | Some idx =>
            Ok (mkScan (dict_set idx (Z.of_nat i) (endpoint_dict opened))
                       (<[idx := (curr_length opened, curr_density)]>
                          (length_dict opened))
                       (removelast (open_reps opened))
                       (curr_length opened) (curr_notes opened))
        | None => Raise IndexError
        end
      else if length (endpoint_dict opened) =? 0 then
        Ok (mkScan (dict_set 0 (Z.of_nat i) (endpoint_dict opened))
                   (<[0 := (curr_length opened, curr_density)]>
                      (length_dict opened))
                   (open_reps opened)
                   (curr_length opened) (curr_notes opened))
      else Ok opened
    else Ok opened
  else
    Ok (mkScan (endpoint_dict st) (length_dict st) (open_reps st)
               (curr_length st) notes).

Definition get_repeats_scan (list_words : list string) : result scan_state :=
  foldM (get_repeats_step list_words) (seq 0 (length list_words - 2))
        scan_init.

(** [length_dict[start]] *)
Definition length_lookup (d : gmap nat (Z * Q)) (start : nat)
  : result (Z * Q) :=
  match d !! start with
  | Some v => Ok v
  | None => Raise KeyError
  end.

(** [while end < num_words and end >= 0: ...; end += 1], stopping at the
    next [new_measure]. *)
Fixpoint advance_end (list_words : list string) (fuel : nat) (end_ : Z)
  : result Z :=
  match fuel with
  | O => Ok end_
  | S fuel' =>
      if (end_ <? Z.of_nat (length list_words))%Z && (0 <=? end_)%Z then
        let* t := py_get list_words end_ in
        if String.eqb t "new_measure" then Ok end_
        else advance_end list_words fuel' (end_ + 1)%Z
      else Ok end_
  end.

(** Body of [for start in endpoint_dict.keys()] in [get_repeats]. *)
Definition get_repeats_region (list_words : list string)
    (min_meas max_meas : Z) (density : Q) (lengths : gmap nat (Z * Q))
    (out : list string) (entry : nat * Z) : result (list string) :=
  let '(start, end_) := entry in
  if (end_ <=? 0)%Z then Ok out
  else
    let* len := length_lookup lengths start in
    let length_meas := len.1 in
    let length_notes := len.2 in
    if (length_meas <? min_meas)%Z || (max_meas <? length_meas)%Z ||
       Qlt_bool length_notes (density * inject_Z length_meas)%Q
    then Ok out
    else
      let* e := advance_end list_words (S (length list_words))
                  (end_ + 1)%Z in
      if (Z.of_nat start <? e)%Z
      then Ok (out ++ py_slice list_words (Z.of_nat start) e)
      else Ok out.

Definition get_repeats (list_words : list string) (min_meas max_meas : Z)
    (density : Q) : result (list string) :=
  let* st := get_repeats_scan list_words in
  if 0 <? length (endpoint_dict st) then
    foldM (get_repeats_region list_words min_meas max_meas density
             (length_dict st))
          (endpoint_dict st) []
  else Ok [].

(** ** get_num_repeats *)

(** Body of [for i in range(num_words-2)] in [get_num_repeats]. *)
Definition get_num_repeats_step (list_words : list string) (st : scan_state)
    (i : nat) : result scan_state :=
  let* t := py_index list_words i in
  let notes :=
    if contains "note" t then count_note (split_head t) (curr_notes st)
    else curr_notes st in
  if String.eqb t "new_measure" then
    let len := (curr_length st + 1)%Z in
    let* t1 := py_index list_words (i + 1) in
    let opened :=
      if String.eqb t1 "measure:repeat_open" then
        mkScan (dict_set i (-1)%Z (endpoint_dict st)) (length_dict st)
               (open_reps st ++ [i]) 1%Z ∅
      else
        mkScan (endpoint_dict st) (length_dict st) (open_reps st) len notes in
    let* closing :=
      (if contains "measure:repeat_close" t1 then Ok true
       else let* t2 := py_index list_words (i + 2) in
            Ok (contains "measure:repeat_close" t2)) in
    if closing then
      let curr_density := region_density (curr_notes opened) in
      if 0 <? length (open_reps opened) then
        match last (open_reps opened) with
        | Some idx =>
            Ok (mkScan (dict_set idx (Z.of_nat i) (endpoint_dict opened))
                       (<[idx := (curr_length opened, curr_density)]>
                          (length_dict opened))
                       (removelast (open_reps opened))
                       (curr_length opened) (curr_notes opened))
        | None => Raise IndexError
        end
      else if length (endpoint_dict opened) =? 0 then
        Ok (mkScan (dict_set 0 (Z.of_nat i) (endpoint_dict opened))
                   (<[0 := (curr_length opened, curr_density)]>
                      (length_dict opened))
                   (open_reps opened)
                   (curr_length opened) (curr_notes opened))
      else Ok opened
    else Ok opened
  else
    Ok (mkScan (endpoint_dict st) (length_dict st) (open_reps st)
               (curr_length st) notes).

Definition get_num_repeats_scan (list_words : list string)
  : result scan_state :=
  foldM (get_num_repeats_step list_words) (seq 0 (length list_words - 2))
        scan_init.

(** Body of [for start in endpoint_dict.keys()] in [get_num_repeats]. *)
Definition get_num_repeats_region (min_meas max_meas : Z) (density : Q)
    (lengths : gmap nat (Z * Q)) (num_repeats : Z) (entry : nat * Z)
  : result Z :=
  let '(start, end_) := entry in
  if (end_ <=? 0)%Z then Ok num_repeats
  else
    let* len := length_lookup lengths start in
    let length_meas := len.1 in
    let length_notes := len.2 in
    if (length_meas <? min_meas)%Z || (max_meas <? length_meas)%Z ||
       Qlt_bool length_notes (density * inject_Z length_meas)%Q
    then Ok num_repeats
    else Ok (num_repeats + 1)%Z.

Definition get_num_repeats (list_words : list string) (min_meas max_meas : Z)
    (density : Q) : result Z :=
  let* st := get_num_repeats_scan list_words in
  foldM (get_num_repeats_region min_meas max_meas density (length_dict st))
        (endpoint_dict st) 0%Z.

(** ** MelodyNote *)

(** [guitarpro.NoteType] *)
Module NoteType.
Inductive t : Type :=
| rest
| normal
| tie
| dead.

Definition code (x : t) : nat :=
  match x with rest => 0 | normal => 1 | tie => 2 | dead => 3 end.

Definition of_code (n : nat) : t :=
  match n with 0 => rest | 1 => normal | 2 => tie | _ => dead end.
End NoteType.

Global Instance NoteType_eq_dec : EqDecision NoteType.t.
Proof. solve_decision. Defined.

Global Program Instance NoteType_countable : Countable NoteType.t :=
  inj_countable' NoteType.code NoteType.of_code _.
Next Obligation. by intros []. Qed.

(** The fields of a [MelodyNote].  [notes] holds the strings
    ["{string}:{value}"], represented by the pair of integers they are
    formatted from (the formatting is injective). *)
Record MelodyNote : Type := mkNote {
  duration : Z;
  is_dotted : bool;
  tick_duration : Q;
  start_time : Z;
  on_bar : bool;
  notes : gset (Z * Z);
  note_types : gset NoteType.t
}.

(** [MelodyNote.__init__]: [value] and [isDotted] are the fields of the
    guitarpro duration, a member of [note_list] is the
    [(string, value, type)] of a guitarpro note. *)
Definition MelodyNote_init (value : Z) (isDotted : bool) (start bar_start : Z)
    (note_list : list (Z * Z * NoteType.t)) : result MelodyNote :=
  if (value =? 0)%Z then Raise ZeroDivisionError
  else
    let ticks := (3840 / inject_Z value)%Q in
    let ticks' := if isDotted then (ticks * 1.5)%Q else ticks in
    let bar := (start =? bar_start)%Z in
    if 0 <? length note_list then
      Ok (mkNote value isDotted ticks' start bar
                 (list_to_set (map fst note_list))
                 (list_to_set (map snd note_list)))
    else
      Ok (mkNote value isDotted ticks' start bar {[ (0, 0)%Z ]} {[ NoteType.rest ]}).

(** [MelodyNote.__eq__] *)
Definition note_eq (self other : MelodyNote) : bool :=
  if negb (duration self =? duration other)%Z then false
  else if negb (Bool.eqb (is_dotted self) (is_dotted other)) then false
  else if negb (size (notes self) =? size (notes other)) then false
  else forallb (fun m => bool_decide (m ∈ notes other))
               (elements (notes self)).

Definition is_empty_pattern (p : list MelodyNote) : bool :=
  forallb (fun melody => bool_decide (note_types melody = {[ NoteType.rest ]})) p.

(** ** Deduplication *)

(** [compare_patterns(p1, p2)]: each [for] loop returns in its first
    iteration; with an empty range the function falls off its end and
    yields Python's [None]. *)
Definition compare_patterns (p1 p2 : list MelodyNote) : result (option Z) :=
  if length p1 <? length p2 then
    match seq 0 (length p1) with
    | i :: _ =>
        let* a := py_index p1 i in
        let* b := py_index p2 i in
        if negb (note_eq a b) then Ok (Some 0%Z) else Ok (Some 1%Z)
    | [] => Ok None
    end
  else
    match seq 0 (length p2) with
    | i :: _ =>
        let* a := py_index p1 i in
        let* b := py_index p2 i in
        if negb (note_eq a b) then Ok (Some 0%Z) else Ok (Some 2%Z)
    | [] => Ok None
    end.

(** The [enumerate] loop of [test_loop_exists], from position [i] on. *)
Fixpoint test_loop_exists_from (i : Z) (pattern_list : list (list MelodyNote))
    (pattern : list MelodyNote) : result (option Z) :=
  match pattern_list with
  | [] => Ok None
  | pat :: rest_list =>
      let* r := compare_patterns pattern pat in
      if bool_decide (r = Some 1%Z) then Ok (Some (-1)%Z)
      else if bool_decide (r = Some 2%Z) then Ok (Some i)
      else test_loop_exists_from (i + 1)%Z rest_list pattern
  end.

Definition test_loop_exists (pattern_list : list (list MelodyNote))
    (pattern : list MelodyNote) : result (option Z) :=
  test_loop_exists_from 0%Z pattern_list pattern.

(** ** Matrices (numpy arrays of rank two) *)

Abbreviation matrix A := (list (list A)).

(** [np.zeros((n, n))] *)
Definition np_zeros {A : Type} (zero : A) (n : nat) : matrix A :=
  replicate n (replicate n zero).

(** [m[i, j]] for indices produced by [range] or [np.where]. *)
Definition mat_get {A : Type} (m : matrix A) (i j : nat) : result A :=
  let* row := py_index m i in py_index row j.

(** [m[i, j] = v] *)
Definition mat_set {A : Type} (m : matrix A) (i j : nat) (v : A)
  : result (matrix A) :=
  let* row := py_index m i in
  if j <? length row then Ok (<[i := <[j := v]> row]> m)
  else Raise IndexError.

(** [l[i] = v] *)
Definition py_set {A : Type} (l : list A) (i : Z) (v : A) : result (list A) :=
  let n := Z.of_nat (length l) in
  if (0 <=? i)%Z && (i <? n)%Z then Ok (<[Z.to_nat i := v]> l)
  else if (i <? 0)%Z && (0 <=? i + n)%Z then Ok (<[Z.to_nat (i + n) := v]> l)
  else Raise IndexError.

(** ** calc_correlation *)

Definition corr_state : Type := matrix Z * matrix Q.

(** Body of [for j in range(1, corr_size)] (the first row). *)
Definition corr_first_row_step (melody_seq : list MelodyNote)
    (st : corr_state) (j : nat) : result corr_state :=
  let* a := py_index melody_seq 0 in
  let* b := py_index melody_seq j in
  if note_eq a b then
    let* corr_mat := mat_set st.1 0 j 1%Z in
    let* corr_dur := mat_set st.2 0 j (tick_duration b) in
    Ok (corr_mat, corr_dur)
  else
    let* corr_mat := mat_set st.1 0 j 0%Z in
    let* corr_dur := mat_set st.2 0 j 0%Q in
    Ok (corr_mat, corr_dur).

(** Body of [for j in range(i+1, corr_size)] in row [i]. *)
Definition corr_cell_step (melody_seq : list MelodyNote) (i : nat)
    (st : corr_state) (j : nat) : result corr_state :=
  let* a := py_index melody_seq i in
  let* b := py_index melody_seq j in
  if note_eq a b then
    let* prev := mat_get st.1 (i - 1) (j - 1) in
    let* corr_mat := mat_set st.1 i j (prev + 1)%Z in
    let* prev_dur := mat_get st.2 (i - 1) (j - 1) in
    let* corr_dur := mat_set st.2 i j (prev_dur + tick_duration b)%Q in
    Ok (corr_mat, corr_dur)
  else
    let* corr_mat := mat_set st.1 i j 0%Z in
    let* corr_dur := mat_set st.2 i j 0%Q in
    Ok (corr_mat, corr_dur).

(** Body of [for i in range(1, corr_size-1)]. *)
Definition corr_row_step (melody_seq : list MelodyNote) (corr_size : nat)
    (st : corr_state) (i : nat) : result corr_state :=
  foldM (corr_cell_step melody_seq i) (seq (i + 1) (corr_size - (i + 1))) st.

(** The two loops of [calc_correlation] on a melody sequence.  Entries are
    unbounded integers; numpy's [int32] cannot overflow here, an entry
    being at most the length of the sequence. *)
Definition correlate (melody_seq : list MelodyNote) : result corr_state :=
  let corr_size := length melody_seq in
  let corr_mat := np_zeros 0%Z corr_size in
  let corr_dur := np_zeros 0%Q corr_size in
  let* st := foldM (corr_first_row_step melody_seq) (seq 1 (corr_size - 1))
               (corr_mat, corr_dur) in
  foldM (corr_row_step melody_seq corr_size) (seq 1 (corr_size - 1 - 1)) st.

Definition calc_correlation (track_list : list (list MelodyNote))
    (instrument : Z)
  : result (matrix Z * matrix Q * list MelodyNote) :=
  let* melody_seq := py_get track_list instrument in
  let* st := correlate melody_seq in
  Ok (st.1, st.2, melody_seq).

(** ** get_valid_loops *)

(** [np.where(m == v)]: the matching cells in row-major order. *)
Definition np_where_eq (m : matrix Z) (v : Z) : list (nat * nat) :=
  flat_map (fun '(x, row) =>
              flat_map (fun '(y, c) => if (c =? v)%Z then [(x, y)] else [])
                       (imap pair row))
           (imap pair m).

(** Body of the first loop: keep the seed when the span between the two
    occurrences lies within the beat bounds. *)
Definition seed_step (melody_seq : list MelodyNote) (corr_mat : matrix Z)
    (min_beats max_beats : Q) (valid_indices : list (nat * nat))
    (seed : nat * nat) : result (list (nat * nat)) :=
  let '(x, y) := seed in
  let* k := mat_get corr_mat x y in
  let start_x := (Z.of_nat x - k + 1)%Z in
  let start_y := (Z.of_nat y - k + 1)%Z in
  let* first := py_get melody_seq start_x in
  let* second := py_get melody_seq start_y in
  let loop_start_time := start_time first in
  let loop_end_time := start_time second in
  let loop_beats := (inject_Z (loop_end_time - loop_start_time) / 960)%Q in
  if Qle_bool loop_beats max_beats && Qle_bool min_beats loop_beats
  then Ok (valid_indices ++ [(x, y)])
  else Ok valid_indices.

(** [while x+1 < corr_size and y+1 < corr_size and
     corr_mat[x+1,y+1] > corr_mat[x,y]: x = x + 1; y = y + 1] *)
Fixpoint extend_run (corr_mat : matrix Z) (corr_size : nat) (fuel : nat)
    (x y : nat) : result (nat * nat) :=
  match fuel with
  | O => Ok (x, y)
  | S fuel' =>
      if (x + 1 <? corr_size) && (y + 1 <? corr_size) then
        let* next := mat_get corr_mat (x + 1) (y + 1) in
        let* here := mat_get corr_mat x y in
        if (here <? next)%Z then extend_run corr_mat corr_size fuel' (x + 1) (y + 1)
        else Ok (x, y)
      else Ok (x, y)
  end.

(** The deduplicating insertion at the end of the second loop's body. *)
Definition insert_loop (melody_seq : list MelodyNote) (beginning end_ : Z)
    (loops : list (list MelodyNote)) (loop_bp : list (Z * Z))
  : result (list (list MelodyNote) * list (Z * Z)) :=
  let loop := py_slice melody_seq beginning end_ in
  let* exist_result := test_loop_exists loops loop in
  match exist_result with
  | None =>
      let* first := py_get melody_seq beginning in
      let* last_ := py_get melody_seq end_ in
      Ok (loops ++ [loop], loop_bp ++ [(start_time first, start_time last_)])
  | Some idx =>
      if (0 <? idx)%Z then
        let* loops' := py_set loops idx loop in
        let* first := py_get melody_seq beginning in
        let* last_ := py_get melody_seq end_ in
        let* loop_bp' := py_set loop_bp idx
                           (start_time first, start_time last_) in
        Ok (loops', loop_bp')
      else Ok (loops, loop_bp)
  end.

(** Body of [for start_x,start_y in valid_indices]. *)
Definition loop_step (melody_seq : list MelodyNote) (corr_mat : matrix Z)
    (corr_dur : matrix Q) (min_rep_beats : Q)
    (st : list (list MelodyNote) * list (Z * Z)) (seed : nat * nat)
  : result (list (list MelodyNote) * list (Z * Z)) :=
  let corr_size := length corr_mat in
  let* xy := extend_run corr_mat corr_size corr_size seed.1 seed.2 in
  let '(x, y) := xy in
  let* k := mat_get corr_mat x y in
  let beginning := (Z.of_nat x - k + 1)%Z in
  let* d := mat_get corr_dur x y in
  let duration_ := (d / 960)%Q in
  let end_ := (Z.of_nat y - k + 1)%Z in
  if Qle_bool min_rep_beats duration_ then
    let* first := py_get melody_seq beginning in
    if on_bar first then
      if negb (is_empty_pattern (py_slice melody_seq beginning end_)) then
        insert_loop melody_seq beginning end_ st.1 st.2
      else Ok st
    else Ok st
  else Ok st.

Definition get_valid_loops (melody_seq : list MelodyNote)
    (corr_mat : matrix Z) (corr_dur : matrix Q) (min_len : Z)
    (min_beats max_beats min_rep_beats : Q)
  : result (list (list MelodyNote) * list (Z * Z)) :=
  let* valid_indices :=
    foldM (seed_step melody_seq corr_mat min_beats max_beats)
          (np_where_eq corr_mat min_len) [] in
  foldM (loop_step melody_seq corr_mat corr_dur min_rep_beats)
        valid_indices ([], []).

(** ** Sample inputs *)

Definition header : list string :=
  ["metallica"; "downtune:0"; "tempo:120"; "start"].

(** One measure of three notes, one measure of one note, one of rests. *)
Definition stream_three_measures : list string :=
  header ++
  ["new_measure"; "clean0:note:s3:f0"; "wait:320";
   "clean0:note:s3:f2"; "wait:320"; "clean0:note:s3:f3"; "wait:320";
   "new_measure"; "clean0:note:s3:f5"; "wait:960";
   "new_measure"; "clean0:rest"; "wait:960"].

(** A stream without any note token. *)
Definition stream_of_rests : list string :=
  header ++ ["new_measure"; "clean0:rest"; "wait:960"].

(** ** Notions used to state the properties *)

(** The per-instrument counts as the density rule is worded: a note token
    is counted only when the clock at that token lies in the window. *)
Fixpoint windowed_note_counts (pts : Z * Z) (token_list : list string)
    (ts : Z) (d : gmap string Z) : result (gmap string Z) :=
  match token_list with
  | [] => Ok d
  | t :: rest =>
      let d' :=
        if contains "note" t && in_window pts ts
        then count_note (split_head t) d else d in
      let* ts' := (if contains "wait:" t then
                     let* n := py_int (str_drop 5 t) in Ok (ts + n)%Z
                   else Ok ts) in
      if (pts.2 <=? ts')%Z then Ok d'
      else windowed_note_counts pts rest ts' d'
  end.

(** Does the density test of [unify_loops] skip the window? *)
Definition unify_rejects (token_list : list string) (density : Q)
    (pts : Z * Z) : bool :=
  let st := unify_density_scan pts token_list (mkDensity 0%Z 0%Z ∅) in
  match note_density (num_notes st) with
  | Ok curr_density =>
      Qlt_bool curr_density (density * inject_Z (num_meas st))%Q
  | Raise _ => false
  end.

(** Distance from the head of [l] to its first ["new_measure"] (the
    length of [l] when there is none). *)
Fixpoint measure_offset (l : list string) : nat :=
  match l with
  | [] => 0
  | t :: l' => if String.eqb t "new_measure" then 0 else S (measure_offset l')
  end.

(** Position of the first ["new_measure"] at or after position [p]. *)
Definition next_measure (list_words : list string) (p : nat) : nat :=
  p + measure_offset (drop p list_words).

(** The tokens of a region: from its start up to the measure boundary
    that follows its closing measure. *)
Definition region_tokens (list_words : list string) (entry : nat * Z)
  : list string :=
  let e := next_measure list_words (Z.to_nat entry.2 + 1) in
  take (e - entry.1) (drop entry.1 list_words).

(** The filter as the specification words it:
    [min_meas <= measure_length <= max_meas] and
    [note_density >= density * measure_length]. *)
Definition passes_filter (min_meas max_meas : Z) (density : Q)
    (measure_length : Z) (note_density_ : Q) : bool :=
  (min_meas <=? measure_length)%Z && (measure_length <=? max_meas)%Z &&
  Qle_bool (density * inject_Z measure_length)%Q note_density_.

(** A dictionary entry is kept when its endpoint is positive and its
    recorded length and density pass the filter. *)
Definition region_kept (min_meas max_meas : Z) (density : Q)
    (lengths : gmap nat (Z * Q)) (entry : nat * Z) : bool :=
  (0 <? entry.2)%Z &&
  match lengths !! entry.1 with
  | Some (len, nd) => passes_filter min_meas max_meas density len nd
  | None => false
  end.

(** Invariant of the bracket scan before position [bound]: open regions
    are distinct, earlier than [bound] and still unresolved; keys are
    unique; a resolved entry closes at or after its start and has a
    recorded length. *)
Record scan_inv (bound : nat) (st : scan_state) : Prop := mkScanInv {
  inv_open_nodup : NoDup (open_reps st);
  inv_open_lt : forall s, s ∈ open_reps st -> s < bound;
  inv_open_unresolved :
    forall s, s ∈ open_reps st -> (s, (-1)%Z) ∈ endpoint_dict st;
  inv_keys : NoDup (endpoint_dict st).*1;
  inv_entries :
    forall k e, (k, e) ∈ endpoint_dict st ->
                e = (-1)%Z \/
                ((Z.of_nat k <= e < Z.of_nat bound)%Z /\
                 is_Some (length_dict st !! k))
}.

(** What makes an entry of [endpoint_dict] well formed for the final
    loops: it is unresolved, or it closes inside the stream at or after
    its start and has a recorded length. *)
Definition entry_ok (list_words : list string) (lengths : gmap nat (Z * Q))
    (entry : nat * Z) : Prop :=
  entry.2 = (-1)%Z \/
  ((Z.of_nat entry.1 <= entry.2 < Z.of_nat (length list_words))%Z /\
   is_Some (lengths !! entry.1)).

(** A ["new_measure"] turned into a token that is not one. *)
Definition demote (t : string) : string :=
  if String.eqb t "new_measure" then "" else t.

(** A stream that closes a region at its very first token. *)
Definition stream_closing_at_start : list string :=
  ["new_measure"; "measure:repeat_close:1"; "clean0:rest"].

(** A two-measure repeat followed by a region that is opened and never
    closed. *)
Definition stream_with_unclosed_region : list string :=
  header ++
  ["new_measure"; "measure:repeat_open"; "clean0:note:s3:f0"; "wait:960";
   "new_measure"; "measure:repeat_close:1"; "clean0:note:s3:f5"; "wait:960";
   "new_measure"; "measure:repeat_open"; "clean0:note:s3:f7"; "wait:960";
   "new_measure"; "clean0:note:s3:f8"; "wait:960"].

(** The state in which the scan of [stream_with_unclosed_region] ends. *)
Definition scan_with_unclosed_region : scan_state :=
  mkScan [(4, 8%Z); (12, (-1)%Z)] {[ 4 := (2%Z, 1%Q) ]} [12] 2%Z
         {[ "clean0" := 1%Z ]}.

(** The state in which the scan of the two-measure repeat ends, and the
    stream itself. *)
Definition stream_two_measure_repeat : list string :=
  header ++
  ["new_measure"; "measure:repeat_open"; "clean0:note:s3:f0"; "wait:960";
   "new_measure"; "measure:repeat_close:1"; "clean0:note:s3:f5"; "wait:960";
   "new_measure"; "clean0:rest"; "wait:960"].

Definition scan_two_measure_repeat : scan_state :=
  mkScan [(4, 8%Z)] {[ 4 := (2%Z, 1%Q) ]} [] 3%Z {[ "clean0" := 2%Z ]}.

(** ** The correlation recurrence *)

(** Do positions [i] and [j] of the sequence hold equal notes? *)
Definition same_note (melody_seq : list MelodyNote) (i j : nat) : bool :=
  match melody_seq !! i, melody_seq !! j with
  | Some a, Some b => note_eq a b
  | _, _ => false
  end.

(** The run length and the run duration the recurrence gives cell
    [(i, j)]. *)
Fixpoint run_length (melody_seq : list MelodyNote) (i j : nat) : Z :=
  match i with
  | O => if same_note melody_seq 0 j then 1%Z else 0%Z
  | S i' =>
      if same_note melody_seq i j
      then (run_length melody_seq i' (j - 1) + 1)%Z else 0%Z
  end.

Definition tick_at (melody_seq : list MelodyNote) (j : nat) : Q :=
  match melody_seq !! j with
  | Some b => tick_duration b
  | None => 0%Q
  end.

Fixpoint run_duration (melody_seq : list MelodyNote) (i j : nat) : Q :=
  match i with
  | O => if same_note melody_seq 0 j then tick_at melody_seq j else 0%Q
  | S i' =>
      if same_note melody_seq i j
      then (run_duration melody_seq i' (j - 1) + tick_at melody_seq j)%Q
      else 0%Q
  end.

(** Tick lengths summed from left to right. *)
Definition sum_ticks (l : list MelodyNote) : Q :=
  fold_left (fun acc n => (acc + tick_duration n)%Q) l 0%Q.

(** A square matrix of side [n]. *)
Definition mat_wf {A : Type} (n : nat) (m : matrix A) : Prop :=
  length m = n /\ Forall (fun row => length row = n) m.

(** The cells written once the rows before [i] are complete and row [i]
    is complete before column [c]. *)
Definition filled (i c a b : nat) : bool :=
  (a <? b) && ((a <? i) || ((a =? i) && (b <? c))).

(** Loop invariant of [calc_correlation]: written cells hold the values of
    the recurrence, the others are still zero. *)
Definition corr_inv (melody_seq : list MelodyNote) (i c : nat)
    (st : corr_state) : Prop :=
  mat_wf (length melody_seq) st.1 /\
  mat_wf (length melody_seq) st.2 /\
  forall a b,
    a < length melody_seq -> b < length melody_seq ->
    mat_get st.1 a b
    = Ok (if filled i c a b then run_length melody_seq a b else 0%Z) /\
    mat_get st.2 a b
    = Ok (if filled i c a b then run_duration melody_seq a b else 0%Q).

(** ** A sample track *)

(** A whole note of one pitch on string 1, starting its measure. *)
Definition whole_note (pitch measure : Z) : MelodyNote :=
  mkNote 1%Z false 3840%Q (measure * 3840)%Z true
         {[ (1, pitch)%Z ]} {[ NoteType.normal ]}.

(** A four-note riff of whole notes played three times: twelve measures
    in 4/4. *)
Definition riff_three_times : list MelodyNote :=
  map (fun '(pitch, measure) => whole_note pitch measure)
      [(1, 0); (2, 1); (3, 2); (4, 3); (1, 4); (2, 5); (3, 6); (4, 7);
       (1, 8); (2, 9); (3, 10); (4, 11)]%Z.

(** Its correlation matrices. *)
Definition riff_correlation : matrix Z * matrix Q :=
  match correlate riff_three_times with
  | Ok st => st
  | Raise _ => ([], [])
  end.

(** ** Further notions *)

(** Do two patterns start with equal notes? *)
Definition same_first_note (p1 p2 : list MelodyNote) : bool :=
  match p1, p2 with
  | a :: _, b :: _ => note_eq a b
  | _, _ => false
  end.

(** An accepted loop has a sounded note and starts on a bar. *)
Definition loop_well_formed (loop : list MelodyNote) : Prop :=
  is_empty_pattern loop = false /\
  exists first, head loop = Some first /\ on_bar first = true.

(** A loop and its pair of endpoints: the loop is a slice of the melody
    and the pair holds the start ticks of the notes at the slice's two
    bounds. *)
Definition loop_entry (melody_seq : list MelodyNote)
    (loop : list MelodyNote) (bp : Z * Z) : Prop :=
  loop_well_formed loop /\
  exists beginning end_ first last_,
    loop = py_slice melody_seq beginning end_ /\
    py_get melody_seq beginning = Ok first /\
    py_get melody_seq end_ = Ok last_ /\
    bp = (start_time first, start_time last_).

(** A cell above the diagonal, inside the matrix, with a positive run. *)
Definition live_cell (melody_seq : list MelodyNote) (cell : nat * nat)
  : Prop :=
  cell.1 < cell.2 /\ cell.2 < length melody_seq /\
  (0 < run_length melody_seq cell.1 cell.2)%Z.

(** Does the density test of [filter_loops_density] keep the window?
    (false also when the test raises) *)
Definition window_passes (token_list : list string) (density : Q)
    (pts : Z * Z) : bool :=
  match window_kept token_list density pts with
  | Ok true => true
  | _ => false
  end.

(** The note counters after every token of a stream has been counted. *)
Definition count_all_notes (token_list : list string) (d : gmap string Z)
  : gmap string Z :=
  fold_left (fun d t => if contains "note" t
                        then count_note (split_head t) d else d)
            token_list d.

(** The number of ["new_measure"] tokens of a stream. *)
Definition count_measures (token_list : list string) : Z :=
  Z.of_nat (length (List.filter (fun t => String.eqb t "new_measure")
                                token_list)).

(** What [unify_loops] may put after the header: its two markers, and
    tokens of the stream after the header that do not contain
    ["repeat"]. *)
Definition unified_token (token_list : list string) (t : string) : Prop :=
  t = "measure:repeat_open" \/ t = "measure:repeat_close:1" \/
  (In t (drop 4 token_list) /\ contains "repeat" t = false).

(** The measure counter never goes below zero and every recorded length
    is at least one measure. *)
Definition lengths_positive (st : scan_state) : Prop :=
  (0 <= curr_length st)%Z /\
  forall k len nd, length_dict st !! k = Some (len, nd) -> (1 <= len)%Z.

(** A list of positions in strictly increasing order. *)
Fixpoint increasing (l : list nat) : Prop :=
  match l with
  | [] => True
  | a :: l' => Forall (fun b => a < b) l' /\ increasing l'
  end.

(** Invariant of the bracket scan before position [bound], on the keys of
    [endpoint_dict]: they are in increasing order, below [bound], and
    every open region is one of them. *)
Record keys_inv (bound : nat) (st : scan_state) : Prop := mkKeysInv {
  keys_increasing : increasing (endpoint_dict st).*1;
  keys_below : forall k, k ∈ (endpoint_dict st).*1 -> k < bound;
  open_are_keys : forall s, s ∈ open_reps st -> s ∈ (endpoint_dict st).*1
}.

(** A region that was closed: its endpoint is a positive position of the
    stream, at or after its start. *)
Definition closed_region (list_words : list string) (r : nat * Z) : Prop :=
  (0 < r.2)%Z /\ (Z.of_nat r.1 <= r.2 < Z.of_nat (length list_words))%Z.

(** ** Songs *)

(** The fields of the guitarpro objects that [create_track_list] reads:
    of a beat, [duration.value], [duration.isDotted], [start] and [notes]
    (a note as for [MelodyNote_init]); of a voice, [beats]; of a measure,
    [start], [timeSignature.numerator], [timeSignature.denominator.value]
    and [voices]; of a track, [measures]; of a song, [tracks]. *)
Record Beat : Type := mkBeat {
  beat_value : Z;
  beat_isDotted : bool;
  beat_start : Z;
  beat_notes : list (Z * Z * NoteType.t)
}.

Record Voice : Type := mkVoice { voice_beats : list Beat }.

Record Measure : Type := mkMeasure {
  measure_start : Z;
  signature_numerator : Z;
  signature_denominator : Z;
  measure_voices : list Voice
}.

Record Track : Type := mkTrack { track_measures : list Measure }.

Record Song : Type := mkSong { song_tracks : list Track }.

(** [time_signatures], a dict from [(numerator, denominator)] to a count,
    in insertion order. *)
Abbreviation signature_dict := (list ((Z * Z) * Z)).

(** [if signature in d.keys(): d[signature] += 1 else: d[signature] = 1] *)
Fixpoint count_signature (signature : Z * Z) (d : signature_dict)
  : signature_dict :=
  match d with
  | [] => [(signature, 1%Z)]
  | (k, v) :: d' =>
      if bool_decide (signature = k) then (k, (v + 1)%Z) :: d'
      else (k, v) :: count_signature signature d'
  end.

(** Body of [for beat in measure.voices[0].beats]. *)
Definition beat_step (measure : Measure) (melody_list : list MelodyNote)
    (beat : Beat) : result (list MelodyNote) :=
  let* note := MelodyNote_init (beat_value beat) (beat_isDotted beat)
                 (beat_start beat - 960)%Z (measure_start measure - 960)%Z
                 (beat_notes beat) in
  Ok (melody_list ++ [note]).

(** Body of [for measure in track.measures], for the track of index [i]. *)
Definition measure_step (i : nat) (st : list MelodyNote * signature_dict)
    (measure : Measure) : result (list MelodyNote * signature_dict) :=
  let* voice := py_index (measure_voices measure) 0 in
  let* melody_list := foldM (beat_step measure) (voice_beats voice) st.1 in
  if i =? 0 then
    let signature :=
      (signature_numerator measure, signature_denominator measure) in
    Ok (melody_list, count_signature signature st.2)
  else Ok (melody_list, st.2).

(** Body of [for i, track in enumerate(song.tracks)]. *)
Definition track_step (st : list (list MelodyNote) * signature_dict)
    (it : nat * Track) : result (list (list MelodyNote) * signature_dict) :=
  let* r := foldM (measure_step it.1) (track_measures it.2) ([], st.2) in
  Ok (st.1 ++ [r.1], r.2).

(** [enumerate(l)], counting from [i]. *)
Fixpoint enumerate_from {A : Type} (i : nat) (l : list A) : list (nat * A) :=
  match l with
  | [] => []
  | a :: l' => (i, a) :: enumerate_from (S i) l'
  end.

Definition create_track_list (song : Song)
  : result (list (list MelodyNote) * signature_dict) :=
  foldM track_step (enumerate_from 0 (song_tracks song)) ([], []).

(** What [get_dom_beats_per_bar] does: it returns a number, or raises a
    [TypeError] when it unpacks [None], or divides by a zero
    denominator. *)
Inductive beats_outcome : Type :=
| Beats (q : Q)
| BeatsTypeError
| BeatsZeroDivisionError.

(** Body of [for k,v in time_signatures.items()], on
    [(max_repeats, dom_sig)]. *)
Definition dom_step (st : Z * option (Z * Z)) (kv : (Z * Z) * Z)
  : Z * option (Z * Z) :=
  if (st.1 <? kv.2)%Z then (kv.2, Some kv.1) else st.

Definition get_dom_beats_per_bar (time_signatures : signature_dict)
  : beats_outcome :=
  match (fold_left dom_step time_signatures (0%Z, None)).2 with
  | None => BeatsTypeError
  | Some (num, dem) =>
      if (dem =? 0)%Z then BeatsZeroDivisionError
      else Beats (inject_Z num * (4 / inject_Z dem))%Q
  end.

(** The beats of a track that [create_track_list] visits, each with its
    measure: those of the first voice of every measure. *)
Definition track_beats (track : Track) : list (Measure * Beat) :=
  flat_map (fun measure =>
              match measure_voices measure with
              | voice :: _ => map (pair measure) (voice_beats voice)
              | [] => []
              end)
           (track_measures track).

(** The measures of the first track of a song. *)
Definition first_track_measures (song : Song) : list Measure :=
  match song_tracks song with
  | track :: _ => track_measures track
  | [] => []
  end.

(** [d.get(signature, 0)] *)
Fixpoint signature_count (signature : Z * Z) (d : signature_dict) : Z :=
  match d with
  | [] => 0%Z
  | (k, v) :: d' =>
      if bool_decide (signature = k) then v else signature_count signature d'
  end.

(** How a note of the melody list renders a beat. *)
Definition renders (mb : Measure * Beat) (note : MelodyNote) : Prop :=
  MelodyNote_init (beat_value mb.2) (beat_isDotted mb.2)
    (beat_start mb.2 - 960)%Z (measure_start mb.1 - 960)%Z (beat_notes mb.2)
  = Ok note.

(** A song of one track with two measures in 4/4 and one in 3/4. *)
Definition song_of_three_measures : Song :=
  mkSong [mkTrack
    [mkMeasure 960 4 4 [mkVoice [mkBeat 1 false 960 [(3, 5, NoteType.normal)%Z]]];
     mkMeasure 4800 3 4 [mkVoice [mkBeat 2 true 4800 []]];
     mkMeasure 7680 4 4 [mkVoice [mkBeat 4 false 7680 [];
                                  mkBeat 4 false 8640 []]]]].

(** What [create_track_list] returns for it. *)
Definition tracks_of_three_measures
  : list (list MelodyNote) * signature_dict :=
  match create_track_list song_of_three_measures with
  | Ok r => r
  | Raise _ => ([], [])
  end.

(** [(measure.timeSignature.numerator,
      measure.timeSignature.denominator.value)] *)
Definition measure_signature (measure : Measure) : Z * Z :=
  (signature_numerator measure, signature_denominator measure).

(** The number of measures of the first track with a given signature. *)
Definition signature_occurrences (song : Song) (signature : Z * Z) : Z :=
  Z.of_nat (length (List.filter
                      (fun m => bool_decide (measure_signature m = signature))
                      (first_track_measures song))).

(** A measure that [create_track_list] can read: it has a first voice,
    and no beat of that voice has the duration value 0. *)
Definition measure_ok (measure : Measure) : Prop :=
  match measure_voices measure with
  | voice :: _ => Forall (fun beat => beat_value beat <> 0%Z) (voice_beats voice)
  | [] => False
  end.

Definition song_ok (song : Song) : Prop :=
  Forall (fun track => Forall measure_ok (track_measures track))
         (song_tracks song).

(** ** What the scan measures *)

(** A region opens at position [p]: a ["new_measure"] directly followed by
    ["measure:repeat_open"]. *)
Definition opens_region (list_words : list string) (p : nat) : bool :=
  match list_words !! p, list_words !! (p + 1) with
  | Some t, Some t1 =>
      String.eqb t "new_measure" && String.eqb t1 "measure:repeat_open"
  | _, _ => false
  end.

(** The last position before [bound] at which a region opens; 0, the
    start of the stream, when there is none. *)
Fixpoint last_open (list_words : list string) (bound : nat) : nat :=
  match bound with
  | 0 => 0
  | S b =>
      if opens_region list_words b then b else last_open list_words b
  end.

(** The tokens before [bound] that the two counters of the scan cover:
    those from the last opening on. *)
Definition counted_before (list_words : list string) (bound : nat)
  : list string :=
  drop (last_open list_words bound) (take bound list_words).

(** The length and the density that are recorded for a region closed at
    position [e], as the stream determines them. *)
Definition counted_measures (list_words : list string) (e : nat) : Z :=
  count_measures (counted_before list_words (S e)).

Definition counted_density (list_words : list string) (e : nat) : Q :=
  region_density (count_all_notes (counted_before list_words (S e)) ∅).

(** The number of measures of a region: the ["new_measure"] tokens among
    the tokens that [get_repeats] returns for it. *)
Definition region_measures (list_words : list string) (entry : nat * Z) : Z :=
  count_measures (region_tokens list_words entry).

(** Invariant of the bracket scan before position [bound], on what it
    counts: the two counters cover the tokens from the last opening on;
    every open region starts at an opening; a resolved entry starts at or
    before the last opening that precedes its close, and has the length
    and the density counted from that opening. *)
Record count_inv (list_words : list string) (bound : nat) (st : scan_state)
  : Prop := mkCountInv {
  cnt_length :
    curr_length st = count_measures (counted_before list_words bound);
  cnt_notes :
    curr_notes st = count_all_notes (counted_before list_words bound) ∅;
  cnt_open :
    forall s, s ∈ open_reps st -> opens_region list_words s = true;
  cnt_entries :
    forall k e, (k, e) ∈ endpoint_dict st -> e <> (-1)%Z ->
                k <= last_open list_words (S (Z.to_nat e)) /\
                length_dict st !! k
                = Some (counted_measures list_words (Z.to_nat e),
                        counted_density list_words (Z.to_nat e))
}.

(** A repeat of four measures with a repeat of two measures nested in
    it, and a measure after them. *)
Definition stream_nested_repeat : list string :=
  header ++
  ["new_measure"; "measure:repeat_open"; "clean0:note:s3:f5"; "wait:960";
   "new_measure"; "measure:repeat_open"; "clean0:note:s3:f5"; "wait:960";
   "new_measure"; "measure:repeat_close:1"; "clean0:note:s3:f5"; "wait:960";
   "new_measure"; "measure:repeat_close:1"; "clean0:note:s3:f5"; "wait:960";
   "new_measure"; "clean0:note:s3:f7"; "wait:960"].

(** The state in which the scan of [stream_nested_repeat] ends. *)
Definition scan_nested_repeat : scan_state :=
  mkScan [(4, 16%Z); (8, 12%Z)] {[ 4 := (3%Z, 2%Q); 8 := (2%Z, 1%Q) ]} []
         4%Z {[ "clean0" := 3%Z ]}.

(** * Properties *)

(** ** The error monad *)

Lemma bind_Ok {A B : Type} (m : result A) (f : A -> result B) (b : B) :
  bind m f = Ok b -> exists a, m = Ok a /\ f a = Ok b.
Proof. destruct m as [a|e]; simpl; [eauto | discriminate]. Qed.

Lemma foldM_app {A S : Type} (body : S -> A -> result S) (l1 l2 : list A)
    (s : S) :
  foldM body (l1 ++ l2) s = let* s1 := foldM body l1 s in foldM body l2 s1.
Proof.
  revert s. induction l1 as [|a l1 IH]; intros s; simpl; [reflexivity|].
  destruct (body s a) as [s'|e]; simpl; [apply IH | reflexivity].
Qed.

(** A loop whose body never raises never raises. *)
Lemma foldM_total {A S : Type} (body : S -> A -> result S) (l : list A) :
  (forall s a, In a l -> exists s', body s a = Ok s') ->
  forall s, exists s', foldM body l s = Ok s'.
Proof.
  induction l as [|a l IH]; intros Hb s; simpl; [eauto|].
  destruct (Hb s a) as [s1 Hs1]; [now left|]. rewrite Hs1. simpl.
  apply IH. intros s2 b Hin. apply Hb. now right.
Qed.

(** Invariants of a loop over [range(start, start+len)]. *)
Lemma foldM_seq_inv {St : Type} (P : nat -> St -> Prop)
    (body : St -> nat -> result St) (len : nat) :
  forall start s s',
    (forall i st st', start <= i < start + len -> P i st ->
                      body st i = Ok st' -> P (i + 1) st') ->
    P start s ->
    foldM body (seq start len) s = Ok s' ->
    P (start + len) s'.
Proof.
  induction len as [|len IH]; intros start s s' Hstep H0 Hrun; simpl in Hrun.
  - inversion Hrun; subst. now rewrite Nat.add_0_r.
  - apply bind_Ok in Hrun as (s1 & Hb & Hrest).
    replace (start + S len) with (S start + len) by lia.
    apply (IH (S start) s1 s'); [| |exact Hrest].
    + intros i st st' Hi. apply Hstep. lia.
    + replace (S start) with (start + 1) by lia.
      apply (Hstep start s s1); [lia|assumption|assumption].
Qed.

(** ** Density filtering keeps exactly the windows that pass *)

Section DensityFilter.
Variable token_list : list string.
Variable density : Q.

Local Abbreviation body :=
  (fun (final_endpoints : list (Z * Z)) (pts : Z * Z) =>
     let* keep := window_kept token_list density pts in
     Ok (if keep then final_endpoints ++ [pts] else final_endpoints)).

Lemma filter_fold_kept (loop_bp acc r : list (Z * Z)) :
  foldM body loop_bp acc = Ok r ->
  exists out, r = acc ++ out /\
              Forall (fun pts => window_kept token_list density pts = Ok true)
                     out.
Proof.
  revert acc. induction loop_bp as [|pts l IH]; intros acc Hrun; simpl in Hrun.
  - inversion Hrun; subst. exists []. split; [now rewrite app_nil_r|constructor].
  - apply bind_Ok in Hrun as (acc1 & Hb & Hrest).
    apply bind_Ok in Hb as (keep & Hk & Hacc). inversion Hacc; subst acc1.
    destruct (IH _ Hrest) as (out & -> & Hall). destruct keep.
    + exists (pts :: out). split; [now rewrite <- app_assoc|].
      constructor; assumption.
    + exists out. split; [reflexivity|assumption].
Qed.

Lemma filter_fold_all_kept (out acc : list (Z * Z)) :
  Forall (fun pts => window_kept token_list density pts = Ok true) out ->
  foldM body out acc = Ok (acc ++ out).
Proof.
  revert acc. induction out as [|pts l IH]; intros acc Hall; simpl.
  - now rewrite app_nil_r.
  - inversion Hall as [|? ? Hp Hl]; subst. rewrite Hp. simpl.
    rewrite (IH _ Hl). now rewrite <- app_assoc.
Qed.

(** C7. Density filtering is idempotent: when [filter_loops_density]
    returns a list of windows, filtering that list again with the same
    token stream and threshold returns it unchanged. *)
Theorem filter_loops_density_idempotent (loop_bp kept : list (Z * Z)) :
  filter_loops_density token_list loop_bp density = Ok kept ->
  filter_loops_density token_list kept density = Ok kept.
Proof.
  unfold filter_loops_density. intros Hrun.
  destruct (length loop_bp =? 0) eqn:Hlen.
  - inversion Hrun; subst. reflexivity.
  - apply filter_fold_kept in Hrun as (out & -> & Hall). simpl.
    destruct (length out =? 0) eqn:Hout.
    + apply Nat.eqb_eq in Hout. now destruct out.
    + apply (filter_fold_all_kept out [] Hall).
Qed.
End DensityFilter.

Lemma filter_loops_density_idempotent_witness :
  filter_loops_density stream_three_measures
    [(0, 960)%Z; (960, 1920)%Z; (1920, 2880)%Z] 4%Q
  = Ok [(960, 1920)%Z; (1920, 2880)%Z] /\
  filter_loops_density stream_three_measures
    [(960, 1920)%Z; (1920, 2880)%Z] 4%Q
  = Ok [(960, 1920)%Z; (1920, 2880)%Z].
Proof.
  split; [vm_compute; reflexivity|].
  apply (filter_loops_density_idempotent stream_three_measures 4%Q
           [(0, 960)%Z; (960, 1920)%Z; (1920, 2880)%Z]).
  vm_compute; reflexivity.
Defined.

(** ** Windows without instruments *)

(** C2. When the density scan of the first window finds no instrument,
    [filter_loops_density] and [unify_loops] both stop with a division
    error: the window is neither rejected nor given density 0. *)
Theorem zero_instruments_raise_division_error
    (token_list : list string) (pts : Z * Z) (loop_bp : list (Z * Z))
    (density : Q) (st : density_state) :
  density_scan pts token_list (mkDensity 0%Z 0%Z ∅) = Ok st ->
  size (num_notes st) = 0 ->
  size (num_notes (unify_density_scan pts token_list (mkDensity 0%Z 0%Z ∅)))
  = 0 ->
  filter_loops_density token_list (pts :: loop_bp) density
  = Raise ZeroDivisionError /\
  unify_loops token_list (pts :: loop_bp) density = Raise ZeroDivisionError.
Proof.
  intros Hscan Hsize Husize. split.
  - unfold filter_loops_density. simpl. unfold window_kept.
    rewrite Hscan. simpl. unfold note_density. rewrite Hsize. reflexivity.
  - unfold unify_loops. simpl. unfold unify_window at 1, note_density.
    rewrite Husize. reflexivity.
Qed.

Lemma zero_instruments_raise_division_error_witness :
  filter_loops_density stream_of_rests [(0, 960)%Z] 3%Q
  = Raise ZeroDivisionError /\
  unify_loops stream_of_rests [(0, 960)%Z] 3%Q = Raise ZeroDivisionError.
Proof.
  apply (zero_instruments_raise_division_error stream_of_rests (0, 960)%Z []
           3%Q (mkDensity 1%Z 960%Z ∅)); vm_compute; reflexivity.
Defined.

(** ** Which notes the density counts *)

(** The note counters and the clock of the density scan do not depend on
    the start tick of the window. *)
Lemma density_scan_ignores_start (token_list : list string) (a a' e : Z) :
  forall st st' r,
    num_notes st = num_notes st' -> timestamp st = timestamp st' ->
    density_scan (a, e) token_list st = Ok r ->
    exists r', density_scan (a', e) token_list st' = Ok r' /\
               num_notes r' = num_notes r /\ timestamp r' = timestamp r.
Proof.
  induction token_list as [|t l IH]; intros st st' r Hn Ht Hrun; simpl in *.
  - inversion Hrun; subst. eauto.
  - rewrite <- Hn, <- Ht.
    apply bind_Ok in Hrun as (ts & Hts & Hrun). rewrite Hts. simpl.
    destruct (e <=? ts)%Z.
    + inversion Hrun; subst. simpl. eauto.
    + eapply IH; [| |exact Hrun]; reflexivity.
Qed.

(** C3. On a stream whose first measure holds three notes and whose second
    measure holds one, the density of the window covering the second
    measure is computed from all four notes: the three note tokens before
    the start tick are counted, and the window is kept at threshold 3
    although a single note lies inside it. *)
Theorem density_counts_notes_before_window :
  let pts := (960, 1920)%Z in
  (exists st, density_scan pts stream_three_measures (mkDensity 0%Z 0%Z ∅)
              = Ok st /\
              num_notes st = {[ "clean0" := 4%Z ]} /\ num_meas st = 1%Z) /\
  windowed_note_counts pts stream_three_measures 0%Z ∅
  = Ok {[ "clean0" := 1%Z ]} /\
  filter_loops_density stream_three_measures [pts] 3%Q = Ok [pts] /\
  density_passes 3%Q 1%Z (inject_Z 1 / inject_Z 1)%Q = false.
Proof.
  repeat split; try (vm_compute; reflexivity).
  eexists. split; [vm_compute; reflexivity|]. split; vm_compute; reflexivity.
Qed.

(** ** The output of unify_loops when nothing is accepted *)

Lemma unify_fold_all_rejected (token_list : list string) (density : Q)
    (loop_bp : list (Z * Z)) (out : list string) :
  Forall (fun pts => unify_rejects token_list density pts = true) loop_bp ->
  foldM (unify_window token_list density) loop_bp out = Ok out.
Proof.
  induction loop_bp as [|pts l IH]; intros Hall; simpl; [reflexivity|].
  inversion Hall as [|? ? Hp Hl]; subst.
  unfold unify_window at 1. unfold unify_rejects in Hp.
  destruct (note_density _) as [d|e]; [|discriminate]. simpl.
  rewrite Hp. simpl. apply IH, Hl.
Qed.

(** C4. With an empty window list [unify_loops] returns the four header
    tokens; with a non-empty list whose windows all fail the density test
    it returns the header followed by one ["measure:repeat_close:1"]. *)
Theorem unify_loops_nothing_accepted (token_list : list string)
    (density : Q) (loop_bp : list (Z * Z)) :
  loop_bp <> [] ->
  Forall (fun pts => unify_rejects token_list density pts = true) loop_bp ->
  unify_loops token_list [] density = Ok (take 4 token_list) /\
  unify_loops token_list loop_bp density
  = Ok (take 4 token_list ++ ["measure:repeat_close:1"]).
Proof.
  intros Hne Hall. split; [reflexivity|].
  unfold unify_loops. destruct loop_bp as [|pts l]; [congruence|].
  cbn [length Nat.eqb]. rewrite (unify_fold_all_rejected _ _ _ _ Hall).
  reflexivity.
Qed.

Lemma unify_loops_nothing_accepted_witness :
  unify_loops stream_three_measures [] 3%Q = Ok header /\
  unify_loops stream_three_measures [(0, 1920)%Z] 3%Q
  = Ok (header ++ ["measure:repeat_close:1"]).
Proof.
  apply (unify_loops_nothing_accepted stream_three_measures 3%Q
           [(0, 1920)%Z]).
  - discriminate.
  - repeat constructor.
Defined.


(** ** Insertion-ordered dictionaries *)

Lemma dict_set_elem {V : Type} (k : nat) (v : V) (d : list (nat * V)) :
  (k, v) ∈ dict_set k v d.
Proof.
  induction d as [|[k' v'] d IH]; simpl; [set_solver|].
  destruct (k =? k'); set_solver.
Qed.

Lemma dict_set_elem_other {V : Type} (k k' : nat) (v v' : V)
    (d : list (nat * V)) :
  k' <> k -> (k', v') ∈ d -> (k', v') ∈ dict_set k v d.
Proof.
  intros Hne. induction d as [|[k0 v0] d IH]; simpl; [set_solver|].
  destruct (k =? k0) eqn:E.
  - apply Nat.eqb_eq in E. set_solver.
  - set_solver.
Qed.

Lemma dict_set_keys {V : Type} (k : nat) (v : V) (d : list (nat * V)) :
  forall k', k' ∈ (dict_set k v d).*1 <-> k' = k \/ k' ∈ d.*1.
Proof.
  induction d as [|[k0 v0] d IH]; intros k'; simpl; [set_solver|].
  destruct (k =? k0) eqn:E; simpl.
  - apply Nat.eqb_eq in E. set_solver.
  - set_solver.
Qed.

Lemma dict_set_nodup {V : Type} (k : nat) (v : V) (d : list (nat * V)) :
  NoDup d.*1 -> NoDup (dict_set k v d).*1.
Proof.
  induction d as [|[k0 v0] d IH]; simpl; intros Hnd.
  - apply NoDup_singleton.
  - apply NoDup_cons in Hnd as [Hnotin Hnd].
    destruct (k =? k0) eqn:E; simpl.
    + apply Nat.eqb_eq in E. subst. apply NoDup_cons. auto.
    + apply Nat.eqb_neq in E. apply NoDup_cons. split; [|auto].
      rewrite dict_set_keys. intros [Heq|Hin]; [congruence|contradiction].
Qed.

(** With unique keys, an entry of the updated dict is the new one or an
    old one under another key. *)
Lemma dict_set_entries {V : Type} (k k' : nat) (v v' : V)
    (d : list (nat * V)) :
  NoDup d.*1 ->
  (k', v') ∈ dict_set k v d ->
  (k', v') = (k, v) \/ (k' <> k /\ (k', v') ∈ d).
Proof.
  induction d as [|[k0 v0] d IH]; simpl; intros Hnd Hin.
  - set_solver.
  - apply NoDup_cons in Hnd as [Hnotin Hnd].
    destruct (k =? k0) eqn:E; simpl in Hin.
    + apply Nat.eqb_eq in E. subst k0.
      apply elem_of_cons in Hin as [Heq|Hin]; [now left|].
      right. split; [|set_solver]. intros ->. apply Hnotin.
      apply list_elem_of_fmap. exists (k, v'). auto.
    + apply Nat.eqb_neq in E.
      apply elem_of_cons in Hin as [Heq|Hin].
      * inversion Heq; subst. right. split; [congruence|set_solver].
      * destruct (IH Hnd Hin) as [Heq|[Hne Hin']]; [now left|].
        right. split; [assumption|set_solver].
Qed.

Lemma nodup_keys_functional {V : Type} (k : nat) (v v' : V)
    (d : list (nat * V)) :
  NoDup d.*1 -> (k, v) ∈ d -> (k, v') ∈ d -> v = v'.
Proof.
  induction d as [|[k0 v0] d IH]; simpl; intros Hnd H1 H2; [set_solver|].
  apply NoDup_cons in Hnd as [Hnotin Hnd].
  apply elem_of_cons in H1 as [E1|H1]; apply elem_of_cons in H2 as [E2|H2].
  - congruence.
  - inversion E1; subst. exfalso. apply Hnotin.
    apply list_elem_of_fmap. exists (k0, v'). auto.
  - inversion E2; subst. exfalso. apply Hnotin.
    apply list_elem_of_fmap. exists (k0, v). auto.
  - now apply IH.
Qed.

(** ** Invariants of the repeat-bracket scan *)

Lemma py_index_lt {A : Type} (l : list A) (i : nat) :
  i < length l -> exists a, py_index l i = Ok a /\ l !! i = Some a.
Proof.
  intros Hi. unfold py_index.
  destruct (lookup_lt_is_Some_2 l i Hi) as [a Ha]. rewrite Ha. eauto.
Qed.

Lemma py_index_Ok {A : Type} (l : list A) (i : nat) (a : A) :
  py_index l i = Ok a -> l !! i = Some a.
Proof. unfold py_index. destruct (l !! i); congruence. Qed.

Lemma scan_inv_mono (b b' : nat) (st : scan_state) :
  b <= b' -> scan_inv b st -> scan_inv b' st.
Proof.
  intros Hle [H1 H2 H3 H4 H5]. split; auto.
  - intros s Hs. specialize (H2 s Hs). lia.
  - intros k e Hke. destruct (H5 k e Hke) as [?|[? ?]]; [now left|].
    right. split; [lia|assumption].
Qed.

Lemma scan_inv_counters (b : nat) (st : scan_state) (len : Z)
    (counts : gmap string Z) :
  scan_inv b st ->
  scan_inv b (mkScan (endpoint_dict st) (length_dict st) (open_reps st)
                     len counts).
Proof. intros [H1 H2 H3 H4 H5]. split; assumption. Qed.

Lemma scan_inv_open (i : nat) (st : scan_state) (len : Z)
    (counts : gmap string Z) :
  scan_inv i st ->
  scan_inv (i + 1)
           (mkScan (dict_set i (-1)%Z (endpoint_dict st)) (length_dict st)
                   (open_reps st ++ [i]) len counts).
Proof.
  intros [H1 H2 H3 H4 H5]. split; simpl.
  - apply NoDup_app. split; [assumption|]. split; [|apply NoDup_singleton].
    intros s Hs Hi. apply list_elem_of_singleton in Hi. subst.
    specialize (H2 i Hs). lia.
  - intros s Hs. apply elem_of_app in Hs as [Hs|Hs].
    + specialize (H2 s Hs). lia.
    + apply list_elem_of_singleton in Hs. lia.
  - intros s Hs. apply elem_of_app in Hs as [Hs|Hs].
    + destruct (decide (s = i)) as [->|Hne]; [apply dict_set_elem|].
      apply dict_set_elem_other; auto.
    + apply list_elem_of_singleton in Hs. subst. apply dict_set_elem.
  - now apply dict_set_nodup.
  - intros k e Hke. apply dict_set_entries in Hke as [Heq|[Hne Hin]]; auto.
    + inversion Heq. now left.
    + destruct (H5 k e Hin) as [?|[? ?]]; [now left|].
      right. split; [lia|assumption].
Qed.

Lemma scan_inv_resolve (i idx : nat) (st : scan_state) (v : Z * Q)
    (stack : list nat) :
  scan_inv (i + 1) st ->
  (forall s, s ∈ stack -> s ∈ open_reps st /\ s <> idx) ->
  NoDup stack ->
  idx <= i ->
  scan_inv (i + 1)
           (mkScan (dict_set idx (Z.of_nat i) (endpoint_dict st))
                   (<[idx := v]> (length_dict st)) stack
                   (curr_length st) (curr_notes st)).
Proof.
  intros [H1 H2 H3 H4 H5] Hstack Hnd Hidx. split; simpl.
  - assumption.
  - intros s Hs. apply H2, Hstack, Hs.
  - intros s Hs. destruct (Hstack s Hs) as [Hin Hne].
    apply dict_set_elem_other; auto.
  - now apply dict_set_nodup.
  - intros k e Hke. apply dict_set_entries in Hke as [Heq|[Hne Hin]]; auto.
    + inversion Heq; subst. right. split; [lia|].
      rewrite lookup_insert_eq. eauto.
    + destruct (H5 k e Hin) as [?|[? ?]]; [now left|].
      right. split; [lia|]. rewrite lookup_insert_ne; auto.
Qed.

Lemma get_repeats_step_inv (list_words : list string) (i : nat)
    (st st' : scan_state) :
  scan_inv i st ->
  get_repeats_step list_words st i = Ok st' ->
  scan_inv (i + 1) st'.
Proof.
  intros Hinv Hstep. unfold get_repeats_step in Hstep.
  apply bind_Ok in Hstep as (t & _ & Hstep).
  destruct (String.eqb t "new_measure").
  2:{ inversion Hstep; subst.
      apply scan_inv_counters, (scan_inv_mono i); [lia|assumption]. }
  apply bind_Ok in Hstep as (t1 & _ & Hstep).
  set (opened := if String.eqb t1 "measure:repeat_open" then _ else _)
    in Hstep.
  assert (Hopened : scan_inv (i + 1) opened).
  { subst opened. destruct (String.eqb t1 "measure:repeat_open").
    - now apply scan_inv_open.
    - apply scan_inv_counters, (scan_inv_mono i); [lia|assumption]. }
  clearbody opened.
  apply bind_Ok in Hstep as (closing & _ & Hstep).
  destruct closing; [|now inversion Hstep; subst].
  destruct (0 <? length (open_reps opened)) eqn:Hlen.
  - destruct (last (open_reps opened)) as [idx|] eqn:Hlast; [|discriminate].
    inversion Hstep; subst st'.
    apply last_Some in Hlast as [stack Hstack].
    assert (Hnd : NoDup (stack ++ [idx])).
    { rewrite <- Hstack. apply Hopened. }
    apply NoDup_app in Hnd as (Hnd & Hdisj & _).
    rewrite Hstack, removelast_last.
    apply scan_inv_resolve; auto.
    + intros s Hs. split; [rewrite Hstack; set_solver|].
      intros ->. apply (Hdisj idx Hs). set_solver.
    + assert (idx < i + 1); [|lia].
      apply Hopened. rewrite Hstack. set_solver.
  - destruct (length (endpoint_dict opened) =? 0) eqn:Hed;
      inversion Hstep; subst st'; [|assumption].
    apply Nat.ltb_ge in Hlen.
    destruct (open_reps opened) as [|s l] eqn:Hop; [|simpl in Hlen; lia].
    apply scan_inv_resolve; auto; [set_solver|constructor|lia].
Qed.

Lemma last_nonempty {A : Type} (l : list A) :
  (0 <? length l) = true -> exists a, last l = Some a.
Proof.
  intros Hlen. apply Nat.ltb_lt in Hlen.
  destruct l as [|a l] using rev_ind; [simpl in Hlen; lia|].
  rewrite last_snoc. eauto.
Qed.

Lemma get_repeats_step_total (list_words : list string) (i : nat)
    (st : scan_state) :
  i + 2 < length list_words ->
  exists st', get_repeats_step list_words st i = Ok st'.
Proof.
  intros Hi. unfold get_repeats_step.
  destruct (py_index_lt list_words i) as (t & -> & _); [lia|]. simpl.
  destruct (String.eqb t "new_measure"); [|eauto].
  destruct (py_index_lt list_words (i + 1)) as (t1 & -> & _); [lia|]. simpl.
  destruct (py_index_lt list_words (i + 2)) as (t2 & -> & _); [lia|]. simpl.
  set (opened := if String.eqb t1 "measure:repeat_open" then _ else _).
  clearbody opened.
  destruct (contains "measure:repeat_close" t1); simpl;
    [|destruct (contains "measure:repeat_close" t2); [|eauto]];
    (destruct (0 <? length (open_reps opened)) eqn:Hlen;
     [destruct (last_nonempty _ Hlen) as [idx ->]; eauto
     |destruct (length (endpoint_dict opened) =? 0); eauto]).
Qed.

(** The two scanning loops are the same function. *)
Lemma get_num_repeats_scan_eq (list_words : list string) :
  get_num_repeats_scan list_words = get_repeats_scan list_words.
Proof. reflexivity. Qed.

(** The scan never raises: every index it reads is in range and the pop
    is guarded. *)
Lemma get_repeats_scan_total (list_words : list string) :
  exists st, get_repeats_scan list_words = Ok st.
Proof.
  unfold get_repeats_scan. apply foldM_total.
  intros s i Hin. apply in_seq in Hin.
  apply get_repeats_step_total. lia.
Qed.

Lemma scan_inv_init : scan_inv 0 scan_init.
Proof.
  split; simpl; try (intros; set_solver); constructor.
Qed.

Lemma get_repeats_scan_inv (list_words : list string) (st : scan_state) :
  get_repeats_scan list_words = Ok st ->
  scan_inv (length list_words - 2) st.
Proof.
  unfold get_repeats_scan. intros Hrun.
  apply (foldM_seq_inv scan_inv (get_repeats_step list_words)
           (length list_words - 2) 0 scan_init st); auto.
  - intros i s s' _. apply get_repeats_step_inv.
  - apply scan_inv_init.
Qed.

(** ** The final loops *)

Lemma measure_offset_le (l : list string) : measure_offset l <= length l.
Proof.
  induction l as [|t l IH]; simpl; [lia|].
  destruct (String.eqb t "new_measure"); lia.
Qed.

Lemma next_measure_bounds (list_words : list string) (p : nat) :
  p <= length list_words ->
  p <= next_measure list_words p <= length list_words.
Proof.
  intros Hp. unfold next_measure.
  pose proof (measure_offset_le (drop p list_words)) as H.
  rewrite length_drop in H. lia.
Qed.

(** The [while] loop always has fuel left when it stops: it ends on the
    next measure boundary or at the end of the stream. *)
Lemma advance_end_next (list_words : list string) (fuel : nat) :
  forall p,
    length list_words - p < fuel ->
    advance_end list_words fuel (Z.of_nat p)
    = Ok (Z.of_nat (next_measure list_words p)).
Proof.
  induction fuel as [|fuel IH]; intros p Hfuel; [lia|]. simpl.
  unfold next_measure.
  destruct (decide (p < length list_words)) as [Hlt|Hge].
  - replace (Z.of_nat p <? Z.of_nat (length list_words))%Z with true
      by (symmetry; apply Z.ltb_lt; lia).
    replace (0 <=? Z.of_nat p)%Z with true by (symmetry; apply Z.leb_le; lia).
    simpl. unfold py_get.
    replace (0 <=? Z.of_nat p)%Z with true by (symmetry; apply Z.leb_le; lia).
    rewrite Nat2Z.id.
    destruct (py_index_lt list_words p Hlt) as (t & -> & Hlook). simpl.
    rewrite (drop_S _ _ _ Hlook). simpl.
    destruct (String.eqb t "new_measure").
    + f_equal. lia.
    + replace (Z.of_nat p + 1)%Z with (Z.of_nat (S p)) by lia.
      rewrite IH by lia. unfold next_measure. f_equal. lia.
  - replace (Z.of_nat p <? Z.of_nat (length list_words))%Z with false
      by (symmetry; apply Z.ltb_ge; lia).
    simpl. rewrite drop_ge by lia. simpl. f_equal. lia.
Qed.

Lemma py_slice_in_range {A : Type} (l : list A) (a b : nat) :
  a <= length l -> b <= length l ->
  py_slice l (Z.of_nat a) (Z.of_nat b) = take (b - a) (drop a l).
Proof.
  intros Ha Hb. unfold py_slice, clamp_bound.
  replace (Z.of_nat a <? 0)%Z with false by (symmetry; apply Z.ltb_ge; lia).
  replace (Z.of_nat b <? 0)%Z with false by (symmetry; apply Z.ltb_ge; lia).
  rewrite !Z.min_l by lia. now rewrite !Nat2Z.id.
Qed.

(** The rejection test of the code is the negation of the filter as the
    specification words it. *)
Lemma rejection_is_filter_failure (min_meas max_meas : Z) (density : Q)
    (len : Z) (nd : Q) :
  (len <? min_meas)%Z || (max_meas <? len)%Z ||
  Qlt_bool nd (density * inject_Z len)%Q
  = negb (passes_filter min_meas max_meas density len nd).
Proof.
  unfold passes_filter, Qlt_bool.
  rewrite !negb_andb, (Z.ltb_antisym min_meas len), (Z.ltb_antisym len max_meas).
  reflexivity.
Qed.

Lemma region_tokens_nonempty (list_words : list string) (start : nat)
    (e : Z) :
  (Z.of_nat start <= e < Z.of_nat (length list_words))%Z ->
  region_tokens list_words (start, e) <> [].
Proof.
  intros He. unfold region_tokens. simpl.
  pose proof (next_measure_bounds list_words (Z.to_nat e + 1)) as Hb.
  intros Hnil. apply (f_equal length) in Hnil.
  rewrite length_take, length_drop in Hnil. simpl in Hnil. lia.
Qed.

Section FinalLoops.
Variable list_words : list string.
Variables min_meas max_meas : Z.
Variable density : Q.
Variable lengths : gmap nat (Z * Q).

Lemma get_repeats_region_spec (out : list string) (entry : nat * Z) :
  entry_ok list_words lengths entry ->
  get_repeats_region list_words min_meas max_meas density lengths out entry
  = Ok (out ++ if region_kept min_meas max_meas density lengths entry
               then region_tokens list_words entry else []).
Proof.
  destruct entry as [start e].
  unfold entry_ok, region_kept, get_repeats_region. cbn [fst snd].
  intros [->|[He [[len nd] Hlen]]]; [now rewrite app_nil_r|].
  destruct (e <=? 0)%Z eqn:Hpos.
  - apply Z.leb_le in Hpos.
    replace (0 <? e)%Z with false by (symmetry; apply Z.ltb_ge; lia).
    now rewrite app_nil_r.
  - apply Z.leb_gt in Hpos.
    replace (0 <? e)%Z with true by (symmetry; apply Z.ltb_lt; lia).
    unfold length_lookup. rewrite Hlen. cbn [bind fst snd andb].
    rewrite rejection_is_filter_failure.
    destruct (passes_filter min_meas max_meas density len nd);
      cbn [negb]; [|now rewrite app_nil_r].
    replace (e + 1)%Z with (Z.of_nat (Z.to_nat e + 1)) by lia.
    rewrite advance_end_next by lia. cbn [bind].
    pose proof (next_measure_bounds list_words (Z.to_nat e + 1)) as Hb.
    replace (Z.of_nat start <? Z.of_nat (next_measure list_words
                                           (Z.to_nat e + 1)))%Z
      with true by (symmetry; apply Z.ltb_lt; lia).
    rewrite py_slice_in_range by lia. reflexivity.
Qed.

Lemma get_num_repeats_region_spec (n : Z) (entry : nat * Z) :
  entry_ok list_words lengths entry ->
  get_num_repeats_region min_meas max_meas density lengths n entry
  = Ok (n + if region_kept min_meas max_meas density lengths entry
            then 1 else 0)%Z.
Proof.
  destruct entry as [start e]. unfold entry_ok, region_kept. simpl.
  intros [->|[He [[len nd] Hlen]]]; simpl; [now rewrite Z.add_0_r|].
  destruct (e <=? 0)%Z eqn:Hpos.
  - apply Z.leb_le in Hpos.
    replace (0 <? e)%Z with false by (symmetry; apply Z.ltb_ge; lia).
    simpl. now rewrite Z.add_0_r.
  - apply Z.leb_gt in Hpos.
    replace (0 <? e)%Z with true by (symmetry; apply Z.ltb_lt; lia).
    unfold length_lookup. rewrite Hlen. simpl.
    rewrite rejection_is_filter_failure.
    destruct (passes_filter min_meas max_meas density len nd); simpl;
      [reflexivity|now rewrite Z.add_0_r].
Qed.

Local Abbreviation kept := (region_kept min_meas max_meas density lengths).

Lemma get_repeats_fold_spec (entries : list (nat * Z)) :
  forall out,
    Forall (entry_ok list_words lengths) entries ->
    foldM (get_repeats_region list_words min_meas max_meas density lengths)
          entries out
    = Ok (out ++ flat_map (region_tokens list_words)
                          (List.filter kept entries)).
Proof.
  induction entries as [|entry l IH]; intros out Hall; simpl.
  - now rewrite app_nil_r.
  - apply Forall_cons in Hall as [Hentry Hall].
    rewrite get_repeats_region_spec by assumption. simpl.
    rewrite IH by assumption.
    destruct (region_kept _ _ _ _ entry); simpl.
    + now rewrite <- app_assoc.
    + now rewrite app_nil_r.
Qed.

Lemma get_num_repeats_fold_spec (entries : list (nat * Z)) :
  forall n,
    Forall (entry_ok list_words lengths) entries ->
    foldM (get_num_repeats_region min_meas max_meas density lengths)
          entries n
    = Ok (n + Z.of_nat (length (List.filter kept entries)))%Z.
Proof.
  induction entries as [|entry l IH]; intros n Hall; simpl.
  - now rewrite Z.add_0_r.
  - apply Forall_cons in Hall as [Hentry Hall].
    rewrite get_num_repeats_region_spec by assumption. simpl.
    rewrite IH by assumption.
    destruct (region_kept _ _ _ _ entry); simpl; f_equal; lia.
Qed.
End FinalLoops.

(** ** get_repeats and get_num_repeats on the scanned regions *)

Lemma scan_entries_ok (list_words : list string) (st : scan_state) :
  get_repeats_scan list_words = Ok st ->
  Forall (entry_ok list_words (length_dict st)) (endpoint_dict st).
Proof.
  intros Hscan. apply get_repeats_scan_inv in Hscan.
  apply Forall_forall. intros [k e] Hin. unfold entry_ok. simpl.
  destruct (inv_entries _ _ Hscan k e Hin) as [?|[? ?]]; [now left|].
  right. split; [lia|assumption].
Qed.

Lemma get_repeats_spec (list_words : list string) (min_meas max_meas : Z)
    (density : Q) (st : scan_state) :
  get_repeats_scan list_words = Ok st ->
  get_repeats list_words min_meas max_meas density
  = Ok (flat_map (region_tokens list_words)
          (List.filter (region_kept min_meas max_meas density (length_dict st))
                       (endpoint_dict st))).
Proof.
  intros Hscan. unfold get_repeats. rewrite Hscan. cbn [bind].
  destruct (0 <? length (endpoint_dict st)) eqn:Hlen.
  - rewrite get_repeats_fold_spec by now apply scan_entries_ok.
    reflexivity.
  - apply Nat.ltb_ge in Hlen.
    destruct (endpoint_dict st); [reflexivity|simpl in Hlen; lia].
Qed.

Lemma get_num_repeats_spec (list_words : list string) (min_meas max_meas : Z)
    (density : Q) (st : scan_state) :
  get_repeats_scan list_words = Ok st ->
  get_num_repeats list_words min_meas max_meas density
  = Ok (Z.of_nat (length
          (List.filter (region_kept min_meas max_meas density (length_dict st))
                       (endpoint_dict st)))).
Proof.
  intros Hscan. unfold get_num_repeats.
  rewrite get_num_repeats_scan_eq, Hscan. cbn [bind].
  rewrite (get_num_repeats_fold_spec list_words)
    by now apply scan_entries_ok.
  reflexivity.
Qed.

(** C9. Both functions resolve the same regions and keep the same ones:
    [get_num_repeats] returns the number of kept regions, [get_repeats] the
    concatenation of their tokens, and every kept region contributes at
    least one token. *)
Theorem get_num_repeats_counts_get_repeats_regions
    (list_words : list string) (min_meas max_meas : Z) (density : Q) :
  exists st,
    get_repeats_scan list_words = Ok st /\
    get_num_repeats_scan list_words = Ok st /\
    let kept :=
      List.filter (region_kept min_meas max_meas density (length_dict st))
                  (endpoint_dict st) in
    get_repeats list_words min_meas max_meas density
    = Ok (flat_map (region_tokens list_words) kept) /\
    get_num_repeats list_words min_meas max_meas density
    = Ok (Z.of_nat (length kept)) /\
    Forall (fun entry => region_tokens list_words entry <> []) kept.
Proof.
  destruct (get_repeats_scan_total list_words) as [st Hscan].
  exists st. split; [assumption|]. split; [assumption|]. cbn zeta.
  split; [now apply get_repeats_spec|].
  split; [now apply get_num_repeats_spec|].
  apply Forall_forall. intros [start e] Hin.
  apply list_elem_of_In, filter_In in Hin as [Hin Hkept].
  apply list_elem_of_In in Hin.
  pose proof (scan_entries_ok _ _ Hscan) as Hall.
  rewrite Forall_forall in Hall. specialize (Hall _ Hin).
  unfold region_kept in Hkept. simpl in Hkept.
  apply andb_prop in Hkept as [Hpos _]. apply Z.ltb_lt in Hpos.
  destruct Hall as [Hneg|[Hrange _]]; simpl in *; [lia|].
  now apply region_tokens_nonempty.
Qed.

Lemma filter_filter_implied {A : Type} (f g : A -> bool) (l : list A) :
  (forall x, x ∈ l -> f x = true -> g x = true) ->
  List.filter f (List.filter g l) = List.filter f l.
Proof.
  induction l as [|x l IH]; intros Himp; simpl; [reflexivity|].
  assert (Htail : forall y, y ∈ l -> f y = true -> g y = true)
    by (intros y Hy; apply Himp; set_solver).
  destruct (g x) eqn:Hg; simpl.
  - now rewrite IH.
  - rewrite IH by assumption.
    destruct (f x) eqn:Hf; [|reflexivity].
    rewrite Himp in Hg; [discriminate|set_solver|assumption].
Qed.

(** C8. A region still on the stack of open regions when the scan ends has
    only the unresolved endpoint [-1]; neither function raises, and both
    return what they would return if the region were erased from the
    dictionary: it adds no token and is not counted. *)
Theorem unclosed_region_is_dropped (list_words : list string)
    (min_meas max_meas : Z) (density : Q) (st : scan_state) (s : nat) :
  get_repeats_scan list_words = Ok st ->
  s ∈ open_reps st ->
  (s, (-1)%Z) ∈ endpoint_dict st /\
  (forall e, (s, e) ∈ endpoint_dict st -> e = (-1)%Z) /\
  let others :=
    List.filter (fun entry => negb (entry.1 =? s)) (endpoint_dict st) in
  let kept :=
    List.filter (region_kept min_meas max_meas density (length_dict st))
                others in
  get_repeats list_words min_meas max_meas density
  = Ok (flat_map (region_tokens list_words) kept) /\
  get_num_repeats list_words min_meas max_meas density
  = Ok (Z.of_nat (length kept)).
Proof.
  intros Hscan Hopen.
  pose proof (get_repeats_scan_inv _ _ Hscan) as Hinv.
  pose proof (inv_open_unresolved _ _ Hinv s Hopen) as Hentry.
  assert (Honly : forall e, (s, e) ∈ endpoint_dict st -> e = (-1)%Z).
  { intros e He.
    apply (nodup_keys_functional s e (-1)%Z (endpoint_dict st));
      [apply Hinv|assumption|assumption]. }
  split; [assumption|]. split; [assumption|]. cbn zeta.
  rewrite filter_filter_implied.
  - split; [now apply get_repeats_spec|now apply get_num_repeats_spec].
  - intros [k e] Hin Hkept. simpl.
    destruct (k =? s) eqn:Hk; [|reflexivity].
    apply Nat.eqb_eq in Hk. subst k. rewrite (Honly e Hin) in Hkept.
    unfold region_kept in Hkept. simpl in Hkept. discriminate.
Qed.

Lemma unclosed_region_is_dropped_witness :
  (12, (-1)%Z) ∈ endpoint_dict scan_with_unclosed_region /\
  (forall e, (12, e) ∈ endpoint_dict scan_with_unclosed_region ->
             e = (-1)%Z) /\
  get_repeats stream_with_unclosed_region 2 16 (1 # 2)
  = Ok (take 8 (drop 4 stream_with_unclosed_region)) /\
  get_num_repeats stream_with_unclosed_region 2 16 (1 # 2) = Ok 1%Z.
Proof.
  apply (unclosed_region_is_dropped stream_with_unclosed_region 2 16 (1 # 2)
           scan_with_unclosed_region 12).
  - vm_compute; reflexivity.
  - simpl. constructor.
Defined.

(** ** The length and density filter *)

(** ** What the recorded length and density measure *)

Lemma last_open_le (list_words : list string) (bound : nat) :
  last_open list_words bound <= bound.
Proof.
  induction bound as [|b IH]; simpl; [lia|].
  destruct (opens_region list_words b); lia.
Qed.

Lemma last_open_ge (list_words : list string) (p bound : nat) :
  opens_region list_words p = true -> p < bound ->
  p <= last_open list_words bound.
Proof.
  intros Hp. induction bound as [|b IH]; intros Hlt; [lia|]. simpl.
  destruct (opens_region list_words b) eqn:Hb; [lia|].
  destruct (decide (p = b)) as [->|Hne]; [congruence|]. apply IH. lia.
Qed.

Lemma counted_before_step (list_words : list string) (i : nat) (t : string) :
  list_words !! i = Some t ->
  counted_before list_words (S i)
  = if opens_region list_words i then [t]
    else counted_before list_words i ++ [t].
Proof.
  intros Ht. unfold counted_before. cbn [last_open].
  rewrite (take_S_r _ _ _ Ht).
  assert (Hlen : length (take i list_words) = i).
  { rewrite length_take. apply lookup_lt_Some in Ht. lia. }
  destruct (opens_region list_words i).
  - rewrite drop_app_ge by lia. rewrite Hlen, Nat.sub_diag.
    reflexivity.
  - pose proof (last_open_le list_words i).
    rewrite drop_app_le by lia. reflexivity.
Qed.

Lemma count_measures_snoc (l : list string) (t : string) :
  count_measures (l ++ [t])
  = (count_measures l + if String.eqb t "new_measure" then 1 else 0)%Z.
Proof.
  unfold count_measures. rewrite List.filter_app, length_app. simpl.
  destruct (String.eqb t "new_measure"); simpl; lia.
Qed.

Lemma count_all_notes_snoc (l : list string) (t : string)
    (d : gmap string Z) :
  count_all_notes (l ++ [t]) d
  = if contains "note" t
    then count_note (split_head t) (count_all_notes l d)
    else count_all_notes l d.
Proof. unfold count_all_notes. now rewrite fold_left_app. Qed.

Lemma get_repeats_step_counts (list_words : list string) (i : nat)
    (st st' : scan_state) :
  scan_inv i st ->
  count_inv list_words i st ->
  get_repeats_step list_words st i = Ok st' ->
  count_inv list_words (i + 1) st'.
Proof.
  intros Hscan [Hlen Hnotes Hopen Hentries] Hstep.
  replace (i + 1) with (S i) by lia.
  unfold get_repeats_step in Hstep.
  apply bind_Ok in Hstep as (t & Ht & Hstep). apply py_index_Ok in Ht.
  pose proof (counted_before_step list_words i t Ht) as Hcounted.
  destruct (String.eqb t "new_measure") eqn:Hmeasure.
  2:{ inversion Hstep; subst st'.
      assert (Hno : opens_region list_words i = false).
      { unfold opens_region. rewrite Ht, Hmeasure.
        now destruct (list_words !! (i + 1)). }
      rewrite Hno in Hcounted.
      split; cbn [curr_length curr_notes open_reps endpoint_dict length_dict];
        rewrite ?Hcounted; auto.
      - rewrite count_measures_snoc, Hmeasure. lia.
      - rewrite count_all_notes_snoc, <- Hnotes. reflexivity. }
  apply String.eqb_eq in Hmeasure. subst t.
  change (contains "note" "new_measure") with false in Hstep.
  cbv iota in Hstep.
  apply bind_Ok in Hstep as (t1 & Ht1 & Hstep). apply py_index_Ok in Ht1.
  assert (Hopens : opens_region list_words i
                   = String.eqb t1 "measure:repeat_open").
  { unfold opens_region. now rewrite Ht, Ht1. }
  rewrite Hopens in Hcounted.
  set (opened := if String.eqb t1 "measure:repeat_open" then _ else _)
    in Hstep.
  assert (Hscan' : scan_inv (i + 1) opened).
  { subst opened. destruct (String.eqb t1 "measure:repeat_open").
    - now apply scan_inv_open.
    - apply scan_inv_counters, (scan_inv_mono i); [lia|assumption]. }
  assert (Hcount' : count_inv list_words (S i) opened).
  { subst opened. destruct (String.eqb t1 "measure:repeat_open") eqn:Hop.
    - split; cbn [curr_length curr_notes open_reps endpoint_dict length_dict];
        rewrite ?Hcounted.
      + reflexivity.
      + reflexivity.
      + intros s Hs. apply elem_of_app in Hs as [Hs|Hs]; [auto|].
        apply list_elem_of_singleton in Hs. subst s. now rewrite Hopens.
      + intros k e Hke Hne.
        apply dict_set_entries in Hke as [Heq|[_ Hke]];
          [inversion Heq; congruence|auto|apply Hscan].
    - split; cbn [curr_length curr_notes open_reps endpoint_dict length_dict];
        rewrite ?Hcounted; auto.
      + rewrite count_measures_snoc. simpl. lia.
      + rewrite count_all_notes_snoc, <- Hnotes. reflexivity. }
  clearbody opened. clear Hlen Hnotes Hopen Hentries Hscan.
  destruct Hcount' as [Hlen Hnotes Hopen Hentries].
  assert (Hresolve : forall idx stack,
             idx <= last_open list_words (S i) ->
             (forall s, s ∈ stack -> s ∈ open_reps opened) ->
             count_inv list_words (S i)
               (mkScan (dict_set idx (Z.of_nat i) (endpoint_dict opened))
                       (<[idx := (curr_length opened,
                                  region_density (curr_notes opened))]>
                          (length_dict opened))
                       stack (curr_length opened) (curr_notes opened))).
  { intros idx stack Hidx Hstack.
    split; cbn [curr_length curr_notes open_reps endpoint_dict length_dict];
      auto.
    intros k e Hke Hne.
    apply dict_set_entries in Hke as [Heq|[Hk Hke]]; [| |apply Hscan'].
    - inversion Heq; subst k e. rewrite Nat2Z.id. split; [exact Hidx|].
      rewrite lookup_insert_eq. unfold counted_measures, counted_density.
      now rewrite Hlen, Hnotes.
    - rewrite lookup_insert_ne by auto. auto. }
  apply bind_Ok in Hstep as (closing & _ & Hstep).
  destruct closing; [|inversion Hstep; subst; now split].
  destruct (0 <? length (open_reps opened)) eqn:Hstack.
  - destruct (last (open_reps opened)) as [idx|] eqn:Hlast; [|discriminate].
    inversion Hstep; subst st'.
    apply last_Some in Hlast as [stack Hlast].
    assert (Hin : idx ∈ open_reps opened) by (rewrite Hlast; set_solver).
    rewrite Hlast, removelast_last. apply Hresolve.
    + apply last_open_ge; [auto|].
      pose proof (inv_open_lt _ _ Hscan' idx Hin). lia.
    + intros s Hs. rewrite Hlast. set_solver.
  - destruct (length (endpoint_dict opened) =? 0) eqn:Hed;
      inversion Hstep; subst st'; [|now split].
    apply Hresolve; [lia|auto].
Qed.

Lemma count_inv_init (list_words : list string) :
  count_inv list_words 0 scan_init.
Proof.
  split; simpl; try reflexivity; intros; set_solver.
Qed.

Lemma get_repeats_scan_counts (list_words : list string) (st : scan_state) :
  get_repeats_scan list_words = Ok st ->
  count_inv list_words (length list_words - 2) st.
Proof.
  unfold get_repeats_scan. intros Hrun.
  apply (foldM_seq_inv
           (fun i s => scan_inv i s /\ count_inv list_words i s)
           (get_repeats_step list_words) (length list_words - 2) 0
           scan_init st); [| |exact Hrun].
  - intros i s s' _ [H1 H2] Hstep. split.
    + now apply (get_repeats_step_inv list_words i s).
    + now apply (get_repeats_step_counts list_words i s).
  - split; [apply scan_inv_init|apply count_inv_init].
Qed.

Lemma count_measures_app (l1 l2 : list string) :
  count_measures (l1 ++ l2) = (count_measures l1 + count_measures l2)%Z.
Proof.
  unfold count_measures. rewrite List.filter_app, length_app. lia.
Qed.

Lemma count_measures_nonneg (l : list string) : (0 <= count_measures l)%Z.
Proof. unfold count_measures. lia. Qed.

Lemma count_measures_to_next (l : list string) :
  count_measures (take (measure_offset l) l) = 0%Z.
Proof.
  induction l as [|t l IH]; simpl; [reflexivity|].
  destruct (String.eqb t "new_measure") eqn:Ht; [reflexivity|].
  simpl. unfold count_measures in *. simpl. rewrite Ht. exact IH.
Qed.

Lemma take_add_drop {A : Type} (a b : nat) (l : list A) :
  take (a + b) l = take a l ++ take b (drop a l).
Proof.
  revert l. induction a as [|a IH]; intros l; simpl; [reflexivity|].
  destruct l as [|x l]; simpl; [now rewrite take_nil|]. now rewrite IH.
Qed.

(** The measures of a region are those from its start to its closing
    measure: the tokens returned after that measure hold no further
    ["new_measure"]. *)
Lemma region_measures_upto_close (list_words : list string) (start e : nat) :
  start <= e < length list_words ->
  region_measures list_words (start, Z.of_nat e)
  = count_measures (drop start (take (S e) list_words)).
Proof.
  intros He. unfold region_measures, region_tokens, next_measure.
  cbn [fst snd]. rewrite Nat2Z.id.
  replace (e + 1 + measure_offset (drop (e + 1) list_words) - start)
    with ((S e - start) + measure_offset (drop (e + 1) list_words)) by lia.
  rewrite take_add_drop, count_measures_app, drop_drop.
  replace (start + (S e - start)) with (e + 1) by lia.
  rewrite count_measures_to_next, Z.add_0_r.
  rewrite take_drop_commute. do 2 f_equal. f_equal. lia.
Qed.

Lemma count_measures_drop_le (l : list string) (s0 s1 : nat) :
  s0 <= s1 ->
  (count_measures (drop s1 l) <= count_measures (drop s0 l))%Z.
Proof.
  intros Hle.
  rewrite <- (take_drop (s1 - s0) (drop s0 l)), count_measures_app, drop_drop.
  replace (s0 + (s1 - s0)) with s1 by lia.
  pose proof (count_measures_nonneg (take (s1 - s0) (drop s0 l))). lia.
Qed.

(** C6, as the code has it, for an integer density threshold.  An entry of
    [endpoint_dict] whose endpoint is not positive (an unresolved region,
    or a region closed on the first token) is skipped by both final loops.
    For a resolved region with a positive endpoint [e] the recorded length
    and density are those counted from the last opening at or before [e]
    (from the start of the stream when there is none) up to [e].  The
    region is kept by [get_repeats], which appends its non-empty token
    list, and counted by [get_num_repeats], exactly when
    [min_meas <= length <= max_meas] and [density * length <= note density];
    both bounds are inclusive.  The recorded length is the number of
    measures of the region when no other region opens inside it, and it
    never exceeds that number. *)
Theorem positive_region_kept_iff_filter_passes (list_words : list string)
    (min_meas max_meas density : Z) (st : scan_state)
    (start : nat) (e : Z) :
  get_repeats_scan list_words = Ok st ->
  (start, e) ∈ endpoint_dict st ->
  ((e <= 0)%Z ->
   forall out n,
     get_repeats_region list_words min_meas max_meas (inject_Z density)
       (length_dict st) out (start, e) = Ok out /\
     get_num_repeats_region min_meas max_meas (inject_Z density)
       (length_dict st) n (start, e) = Ok n) /\
  ((0 < e)%Z ->
   exists len nd,
     len = counted_measures list_words (Z.to_nat e) /\
     nd = counted_density list_words (Z.to_nat e) /\
     length_dict st !! start = Some (len, nd) /\
     region_tokens list_words (start, e) <> [] /\
     (len <= region_measures list_words (start, e))%Z /\
     (last_open list_words (S (Z.to_nat e)) = start ->
      len = region_measures list_words (start, e)) /\
     ((min_meas <= len <= max_meas)%Z /\
      (inject_Z density * inject_Z len <= nd)%Q ->
      forall out n,
        get_repeats_region list_words min_meas max_meas (inject_Z density)
          (length_dict st) out (start, e)
        = Ok (out ++ region_tokens list_words (start, e)) /\
        get_num_repeats_region min_meas max_meas (inject_Z density)
          (length_dict st) n (start, e) = Ok (n + 1)%Z) /\
     (~ ((min_meas <= len <= max_meas)%Z /\
         (inject_Z density * inject_Z len <= nd)%Q) ->
      forall out n,
        get_repeats_region list_words min_meas max_meas (inject_Z density)
          (length_dict st) out (start, e) = Ok out /\
        get_num_repeats_region min_meas max_meas (inject_Z density)
          (length_dict st) n (start, e) = Ok n)).
Proof.
  intros Hscan Hin.
  pose proof (scan_entries_ok _ _ Hscan) as Hall.
  rewrite Forall_forall in Hall. specialize (Hall _ Hin).
  assert (Hok := Hall).
  split.
  { intros Hneg out n.
    rewrite (get_repeats_region_spec list_words),
      (get_num_repeats_region_spec list_words) by exact Hok.
    unfold region_kept. cbn [fst snd].
    replace (0 <? e)%Z with false by (symmetry; apply Z.ltb_ge; lia).
    cbn [andb]. now rewrite app_nil_r, Z.add_0_r. }
  intros Hpos.
  destruct Hall as [Hneg|[Hrange _]];
    [cbn [fst snd] in Hneg; lia|cbn [fst snd] in Hrange].
  destruct (cnt_entries _ _ _ (get_repeats_scan_counts _ _ Hscan) start e Hin)
    as [Hstart Hlen]; [lia|].
  set (len := counted_measures list_words (Z.to_nat e)) in *.
  set (nd := counted_density list_words (Z.to_nat e)) in *.
  assert (Hregion : region_measures list_words (start, e)
                    = count_measures
                        (drop start (take (S (Z.to_nat e)) list_words))).
  { rewrite <- (Z2Nat.id e) at 1 by lia.
    apply region_measures_upto_close. lia. }
  exists len, nd. split; [reflexivity|]. split; [reflexivity|].
  split; [assumption|].
  split; [now apply region_tokens_nonempty|].
  split; [rewrite Hregion; now apply count_measures_drop_le|].
  split; [intros Hlast; rewrite Hregion, <- Hlast; reflexivity|].
  assert (Hkept : region_kept min_meas max_meas (inject_Z density)
                    (length_dict st) (start, e)
                  = passes_filter min_meas max_meas (inject_Z density) len nd).
  { unfold region_kept. simpl. rewrite Hlen.
    replace (0 <? e)%Z with true by (symmetry; apply Z.ltb_lt; lia).
    reflexivity. }
  assert (Hfilter : passes_filter min_meas max_meas (inject_Z density) len nd
                    = true <->
                    (min_meas <= len <= max_meas)%Z /\
                    (inject_Z density * inject_Z len <= nd)%Q).
  { unfold passes_filter.
    rewrite !andb_true_iff, !Z.leb_le, Qle_bool_iff. tauto. }
  split.
  - intros Hpass out n. apply Hfilter in Hpass.
    rewrite (get_repeats_region_spec list_words),
      (get_num_repeats_region_spec list_words) by exact Hok.
    now rewrite Hkept, Hpass.
  - intros Hfail out n.
    rewrite (get_repeats_region_spec list_words),
      (get_num_repeats_region_spec list_words) by exact Hok.
    rewrite Hkept.
    destruct (passes_filter min_meas max_meas (inject_Z density) len nd).
    + exfalso. apply Hfail, Hfilter. reflexivity.
    + now rewrite app_nil_r, Z.add_0_r.
Qed.

Lemma positive_region_kept_iff_filter_passes_witness :
  ((16 <= 0)%Z ->
   forall out n,
     get_repeats_region stream_nested_repeat 3 3 (inject_Z 0)
       (length_dict scan_nested_repeat) out (4, 16%Z) = Ok out /\
     get_num_repeats_region 3 3 (inject_Z 0)
       (length_dict scan_nested_repeat) n (4, 16%Z) = Ok n) /\
  ((0 < 16)%Z ->
   exists len nd,
     len = counted_measures stream_nested_repeat (Z.to_nat 16) /\
     nd = counted_density stream_nested_repeat (Z.to_nat 16) /\
     length_dict scan_nested_repeat !! 4 = Some (len, nd) /\
     region_tokens stream_nested_repeat (4, 16%Z) <> [] /\
     (len <= region_measures stream_nested_repeat (4%nat, 16))%Z /\
     (last_open stream_nested_repeat (S (Z.to_nat 16)) = 4 ->
      len = region_measures stream_nested_repeat (4, 16%Z)) /\
     ((3 <= len <= 3)%Z /\ (inject_Z 0 * inject_Z len <= nd)%Q ->
      forall out n,
        get_repeats_region stream_nested_repeat 3 3 (inject_Z 0)
          (length_dict scan_nested_repeat) out (4, 16%Z)
        = Ok (out ++ region_tokens stream_nested_repeat (4, 16%Z)) /\
        get_num_repeats_region 3 3 (inject_Z 0)
          (length_dict scan_nested_repeat) n (4, 16%Z)
        = Ok (n + 1)%Z) /\
     (~ ((3 <= len <= 3)%Z /\ (inject_Z 0 * inject_Z len <= nd)%Q) ->
      forall out n,
        get_repeats_region stream_nested_repeat 3 3 (inject_Z 0)
          (length_dict scan_nested_repeat) out (4, 16%Z) = Ok out /\
        get_num_repeats_region 3 3 (inject_Z 0)
          (length_dict scan_nested_repeat) n (4, 16%Z) = Ok n)).
Proof.
  apply (positive_region_kept_iff_filter_passes stream_nested_repeat
           3 3 0 scan_nested_repeat 4 16%Z).
  - vm_compute; reflexivity.
  - simpl. constructor.
Defined.

(** C6 as stated fails on the first token of a stream: a region that
    closes there is resolved with endpoint 0, one measure and density 0; with [min_meas = 1] and
    [density = 0] it passes the filter, and is neither returned nor
    counted. *)
Lemma region_closing_at_index_zero_not_kept :
  exists st,
    get_repeats_scan stream_closing_at_start = Ok st /\
    endpoint_dict st = [(0, 0%Z)] /\
    open_reps st = [] /\
    length_dict st !! 0 = Some (1%Z, 0%Q) /\
    ((1 <= 1 <= 16)%Z /\ (0 * inject_Z 1 <= 0)%Q) /\
    get_repeats stream_closing_at_start 1 16 0 = Ok [] /\
    get_num_repeats stream_closing_at_start 1 16 0 = Ok 0%Z.
Proof.
  eexists. split; [vm_compute; reflexivity|].
  repeat split; try (vm_compute; reflexivity); try lia.
  vm_compute. discriminate.
Qed.

(** The boundary of the length filter on a two-measure repeat: kept with
    [max_meas = 2], rejected with [max_meas = 1]. *)
Example max_meas_is_inclusive :
  get_num_repeats stream_two_measure_repeat 1 2 (1 # 2) = Ok 1%Z /\
  get_num_repeats stream_two_measure_repeat 1 1 (1 # 2) = Ok 0%Z /\
  get_repeats stream_two_measure_repeat 1 2 (1 # 2)
  = Ok (take 8 (drop 4 stream_two_measure_repeat)) /\
  get_repeats stream_two_measure_repeat 1 1 (1 # 2) = Ok [].
Proof. repeat split; vm_compute; reflexivity. Qed.

(** The recorded length is counted from the last opening.  In
    [stream_nested_repeat] the outer region has four measures, but a
    region opens inside it and its recorded length is three: it is kept
    with [max_meas = 3] and rejected with [min_meas = max_meas = 4].  The
    inner region has two measures and the recorded length two. *)
Example nested_region_is_measured_from_the_inner_open :
  get_repeats_scan stream_nested_repeat = Ok scan_nested_repeat /\
  region_measures stream_nested_repeat (4, 16%Z) = 4%Z /\
  counted_measures stream_nested_repeat 16 = 3%Z /\
  region_measures stream_nested_repeat (8, 12%Z) = 2%Z /\
  counted_measures stream_nested_repeat 12 = 2%Z /\
  get_num_repeats stream_nested_repeat 3 3 0 = Ok 1%Z /\
  get_repeats stream_nested_repeat 3 3 0
  = Ok (take 16 (drop 4 stream_nested_repeat)) /\
  get_num_repeats stream_nested_repeat 4 4 0 = Ok 0%Z /\
  get_repeats stream_nested_repeat 4 4 0 = Ok [].
Proof. repeat split; vm_compute; reflexivity. Qed.

(** ** The last two tokens are only looked ahead at *)

Lemma foldM_ext_in {A St : Type} (f g : St -> A -> result St) (l : list A) :
  (forall s a, In a l -> f s a = g s a) ->
  forall s, foldM f l s = foldM g l s.
Proof.
  induction l as [|a l IH]; intros Hext s; simpl; [reflexivity|].
  rewrite Hext by now left.
  destruct (g s a) as [s'|e]; simpl; [|reflexivity].
  apply IH. intros s0 b Hb. apply Hext. now right.
Qed.

Lemma demote_open (t : string) :
  String.eqb (demote t) "measure:repeat_open"
  = String.eqb t "measure:repeat_open".
Proof.
  unfold demote. destruct (String.eqb t "new_measure") eqn:E; [|reflexivity].
  apply String.eqb_eq in E. subst. reflexivity.
Qed.

Lemma demote_close (t : string) :
  contains "measure:repeat_close" (demote t)
  = contains "measure:repeat_close" t.
Proof.
  unfold demote. destruct (String.eqb t "new_measure") eqn:E; [|reflexivity].
  apply String.eqb_eq in E. subst. reflexivity.
Qed.

(** A step whose current token is the same and whose two looked-ahead
    tokens answer the open and close tests alike gives the same state. *)
Lemma get_repeats_step_lookahead (l l' : list string) (st : scan_state)
    (i : nat) (t t1 t1' t2 t2' : string) :
  l !! i = Some t -> l' !! i = Some t ->
  l !! (i + 1) = Some t1 -> l' !! (i + 1) = Some t1' ->
  l !! (i + 2) = Some t2 -> l' !! (i + 2) = Some t2' ->
  String.eqb t1 "measure:repeat_open" = String.eqb t1' "measure:repeat_open" ->
  contains "measure:repeat_close" t1 = contains "measure:repeat_close" t1' ->
  contains "measure:repeat_close" t2 = contains "measure:repeat_close" t2' ->
  get_repeats_step l st i = get_repeats_step l' st i.
Proof.
  intros H0 H0' H1 H1' H2 H2' Hopen Hclose1 Hclose2.
  unfold get_repeats_step, py_index.
  rewrite H0, H0', H1, H1', H2, H2'. cbn [bind].
  rewrite Hopen, Hclose1, Hclose2. reflexivity.
Qed.

Lemma lookup_last_two (pre : list string) (a b a' b' : string) (j : nat) :
  j < length pre + 2 ->
  exists t t',
    (pre ++ [a; b]) !! j = Some t /\ (pre ++ [a'; b']) !! j = Some t' /\
    (j < length pre /\ t = t' \/
     j = length pre /\ t = a /\ t' = a' \/
     j = length pre + 1 /\ t = b /\ t' = b').
Proof.
  intros Hj. destruct (decide (j < length pre)) as [Hlt|Hge].
  - destruct (lookup_lt_is_Some_2 pre j Hlt) as [t Ht].
    exists t, t. rewrite !lookup_app_l, Ht by assumption. auto.
  - rewrite !lookup_app_r by lia.
    destruct (j - length pre) as [|[|n]] eqn:E; [| |lia].
    + exists a, a'. simpl. repeat split; auto. right. left.
      split; [lia|auto].
    + exists b, b'. simpl. repeat split; auto. right. right.
      split; [lia|auto].
Qed.

Lemma get_repeats_step_demoted (pre : list string) (a b : string)
    (st : scan_state) (i : nat) :
  i < length pre ->
  get_repeats_step (pre ++ [a; b]) st i
  = get_repeats_step (pre ++ [demote a; demote b]) st i.
Proof.
  intros Hi.
  destruct (lookup_last_two pre a b (demote a) (demote b) i)
    as (t & t' & H0 & H0' & C0); [lia|].
  destruct (lookup_last_two pre a b (demote a) (demote b) (i + 1))
    as (t1 & t1' & H1 & H1' & C1); [lia|].
  destruct (lookup_last_two pre a b (demote a) (demote b) (i + 2))
    as (t2 & t2' & H2 & H2' & C2); [lia|].
  assert (t = t') as <- by (destruct C0 as [[_ ?]|[[? _]|[? _]]]; [auto|lia|lia]).
  apply (get_repeats_step_lookahead _ _ st i t t1 t1' t2 t2'); auto.
  - destruct C1 as [[_ ->]|[(_ & -> & ->)|(_ & -> & ->)]];
      auto using eq_sym, demote_open.
  - destruct C1 as [[_ ->]|[(_ & -> & ->)|(_ & -> & ->)]];
      auto using eq_sym, demote_close.
  - destruct C2 as [[_ ->]|[(_ & -> & ->)|(_ & -> & ->)]];
      auto using eq_sym, demote_close.
Qed.

(** C10. The scan of a stream [pre ++ [a; b]] takes its current token
    from the positions of [pre] only, and a ["new_measure"] in one of the
    last two positions has no effect on it: replacing it by a token that
    is not a measure leaves the final scan state of both functions, hence
    the measure counter, the open regions, the endpoints and the count of
    [get_num_repeats], unchanged. *)
Theorem last_two_tokens_are_never_current (pre : list string) (a b : string)
    (min_meas max_meas : Z) (density : Q) :
  get_repeats_scan (pre ++ [a; b])
  = foldM (get_repeats_step (pre ++ [a; b])) (seq 0 (length pre)) scan_init /\
  get_num_repeats_scan (pre ++ [a; b])
  = foldM (get_num_repeats_step (pre ++ [a; b])) (seq 0 (length pre))
          scan_init /\
  get_repeats_scan (pre ++ [a; b])
  = get_repeats_scan (pre ++ [demote a; demote b]) /\
  get_num_repeats_scan (pre ++ [a; b])
  = get_num_repeats_scan (pre ++ [demote a; demote b]) /\
  get_num_repeats (pre ++ [a; b]) min_meas max_meas density
  = get_num_repeats (pre ++ [demote a; demote b]) min_meas max_meas density.
Proof.
  assert (Hlen : forall x y : string,
             length (pre ++ [x; y]) - 2 = length pre).
  { intros x y. rewrite length_app. simpl. lia. }
  assert (Hscan : get_repeats_scan (pre ++ [a; b])
                  = get_repeats_scan (pre ++ [demote a; demote b])).
  { unfold get_repeats_scan. rewrite !Hlen.
    apply foldM_ext_in. intros s i Hin. apply in_seq in Hin.
    apply get_repeats_step_demoted. lia. }
  split; [unfold get_repeats_scan; now rewrite Hlen|].
  split; [unfold get_num_repeats_scan; now rewrite Hlen|].
  split; [assumption|].
  split; [now rewrite !get_num_repeats_scan_eq|].
  unfold get_num_repeats. now rewrite !get_num_repeats_scan_eq, Hscan.
Qed.

(** ** Matrices *)

Lemma mat_wf_zeros {A : Type} (z : A) (n : nat) : mat_wf n (np_zeros z n).
Proof.
  unfold mat_wf, np_zeros. split; [apply length_replicate|].
  apply Forall_replicate, length_replicate.
Qed.

Lemma mat_get_zeros {A : Type} (z : A) (n i j : nat) :
  i < n -> j < n -> mat_get (np_zeros z n) i j = Ok z.
Proof.
  intros Hi Hj. unfold mat_get, np_zeros, py_index.
  rewrite lookup_replicate_2 by assumption. cbn [bind].
  now rewrite lookup_replicate_2.
Qed.

Lemma mat_set_spec {A : Type} (n : nat) (m : matrix A) (i j : nat) (v : A) :
  mat_wf n m -> i < n -> j < n ->
  exists m',
    mat_set m i j v = Ok m' /\ mat_wf n m' /\
    mat_get m' i j = Ok v /\
    forall a b, (a, b) <> (i, j) -> mat_get m' a b = mat_get m a b.
Proof.
  intros [Hlen Hrows] Hi Hj. unfold mat_set.
  destruct (py_index_lt m i) as (row & Hrow & Hlook); [lia|].
  rewrite Hrow. cbn [bind].
  assert (Hrowlen : length row = n).
  { rewrite Forall_forall in Hrows. apply Hrows.
    apply list_elem_of_lookup. eauto. }
  replace (j <? length row) with true by (symmetry; apply Nat.ltb_lt; lia).
  eexists. split; [reflexivity|]. split; [|split].
  - split; [now rewrite length_insert|].
    apply Forall_insert; [assumption|]. cbn beta.
    now rewrite length_insert.
  - unfold mat_get, py_index.
    rewrite list_lookup_insert_eq by lia. cbn [bind].
    now rewrite list_lookup_insert_eq by lia.
  - intros a b Hne. unfold mat_get, py_index.
    destruct (decide (a = i)) as [->|Hai].
    + rewrite list_lookup_insert_eq by lia. rewrite Hlook. cbn [bind].
      rewrite list_lookup_insert_ne by congruence. reflexivity.
    + rewrite list_lookup_insert_ne by congruence. reflexivity.
Qed.

(** A loop over [range(start, start+len)] whose body keeps an invariant
    and never raises runs to the end. *)
Lemma foldM_seq_run {St : Type} (P : nat -> St -> Prop)
    (body : St -> nat -> result St) (len : nat) :
  forall start s,
    (forall i st, start <= i < start + len -> P i st ->
                  exists st', body st i = Ok st' /\ P (i + 1) st') ->
    P start s ->
    exists s', foldM body (seq start len) s = Ok s' /\ P (start + len) s'.
Proof.
  induction len as [|len IH]; intros start s Hstep H0; simpl.
  - exists s. rewrite Nat.add_0_r. auto.
  - destruct (Hstep start s) as (s1 & Hb & H1); [lia|assumption|].
    rewrite Hb. cbn [bind].
    replace (start + S len) with (S start + len) by lia.
    apply IH.
    + intros i st Hi. apply Hstep. lia.
    + now replace (S start) with (start + 1) by lia.
Qed.

(** ** calc_correlation computes the recurrence *)

Section Correlation.
Variable melody_seq : list MelodyNote.
Local Abbreviation n := (length melody_seq).

Lemma corr_inv_ext (i c i' c' : nat) (st : corr_state) :
  (forall a b, a < n -> b < n -> filled i c a b = filled i' c' a b) ->
  corr_inv melody_seq i c st -> corr_inv melody_seq i' c' st.
Proof.
  intros Hext (Hw1 & Hw2 & Hcells). split; [assumption|].
  split; [assumption|]. intros a b Ha Hb.
  rewrite <- Hext by assumption. now apply Hcells.
Qed.

Lemma filled_spec (i c a b : nat) :
  filled i c a b = true <-> a < b /\ (a < i \/ (a = i /\ b < c)).
Proof.
  unfold filled.
  rewrite andb_true_iff, orb_true_iff, andb_true_iff, !Nat.ltb_lt,
    Nat.eqb_eq.
  tauto.
Qed.

Lemma filled_next (i j a b : nat) :
  i < j ->
  filled i (j + 1) a b
  = if decide ((a, b) = (i, j)) then true else filled i j a b.
Proof.
  intros Hij. unfold filled. destruct (decide ((a, b) = (i, j))) as [E|E].
  - inversion E; subst.
    replace (i <? j) with true by (symmetry; apply Nat.ltb_lt; lia).
    rewrite Nat.eqb_refl.
    replace (j <? j + 1) with true by (symmetry; apply Nat.ltb_lt; lia).
    now rewrite orb_true_r.
  - destruct (a <? b) eqn:Hab; [|reflexivity]. simpl. f_equal.
    destruct (a =? i) eqn:Hai; [|reflexivity]. simpl.
    apply Nat.eqb_eq in Hai. subst a.
    assert (b <> j) by congruence.
    destruct (b <? j + 1) eqn:H1, (b <? j) eqn:H2; try reflexivity.
    + apply Nat.ltb_lt in H1. apply Nat.ltb_ge in H2. lia.
    + apply Nat.ltb_ge in H1. apply Nat.ltb_lt in H2. lia.
Qed.

(** Writing the recurrence's values into cell [(i, j)] extends the
    invariant by that cell. *)
Lemma corr_inv_write (i j : nat) (st : corr_state) :
  corr_inv melody_seq i j st -> i < j -> j < n ->
  exists corr_mat corr_dur,
    mat_set st.1 i j (run_length melody_seq i j) = Ok corr_mat /\
    mat_set st.2 i j (run_duration melody_seq i j) = Ok corr_dur /\
    corr_inv melody_seq i (j + 1) (corr_mat, corr_dur).
Proof.
  intros (Hw1 & Hw2 & Hcells) Hij Hj.
  destruct (mat_set_spec n st.1 i j (run_length melody_seq i j))
    as (m1 & Hs1 & Hwf1 & Hget1 & Hother1); [assumption|lia|assumption|].
  destruct (mat_set_spec n st.2 i j (run_duration melody_seq i j))
    as (m2 & Hs2 & Hwf2 & Hget2 & Hother2); [assumption|lia|assumption|].
  exists m1, m2. split; [assumption|]. split; [assumption|].
  split; [assumption|]. split; [assumption|]. cbn [fst snd].
  intros a b Ha Hb. rewrite filled_next by assumption.
  destruct (decide ((a, b) = (i, j))) as [E|E].
  - inversion E; subst. auto.
  - rewrite Hother1, Hother2 by assumption. now apply Hcells.
Qed.

Lemma corr_first_row_step_inv (j : nat) (st : corr_state) :
  corr_inv melody_seq 0 j st -> 0 < j -> j < n ->
  exists st', corr_first_row_step melody_seq st j = Ok st' /\
              corr_inv melody_seq 0 (j + 1) st'.
Proof.
  intros Hinv H0 Hj.
  destruct (corr_inv_write 0 j st Hinv H0 Hj)
    as (m1 & m2 & Hs1 & Hs2 & Hinv').
  unfold corr_first_row_step.
  destruct (py_index_lt melody_seq 0) as (a & -> & Ha); [lia|].
  destruct (py_index_lt melody_seq j) as (b & -> & Hb); [assumption|].
  cbn [bind]. cbn [run_length run_duration] in Hs1, Hs2.
  unfold same_note, tick_at in Hs1, Hs2. rewrite Ha, Hb in Hs1, Hs2.
  destruct (note_eq a b); rewrite Hs1; cbn [bind]; rewrite Hs2;
    cbn [bind]; eauto.
Qed.

Lemma corr_cell_step_inv (i j : nat) (st : corr_state) :
  corr_inv melody_seq i j st -> 0 < i -> i < j -> j < n ->
  exists st', corr_cell_step melody_seq i st j = Ok st' /\
              corr_inv melody_seq i (j + 1) st'.
Proof.
  intros Hinv H0 Hij Hj.
  destruct (corr_inv_write i j st Hinv Hij Hj)
    as (m1 & m2 & Hs1 & Hs2 & Hinv').
  destruct Hinv as (_ & _ & Hcells).
  destruct (Hcells (i - 1) (j - 1)) as [Hprev Hprevd]; [lia..|].
  assert (Hfilled : filled i j (i - 1) (j - 1) = true).
  { unfold filled.
    replace (i - 1 <? j - 1) with true by (symmetry; apply Nat.ltb_lt; lia).
    replace (i - 1 <? i) with true by (symmetry; apply Nat.ltb_lt; lia).
    reflexivity. }
  rewrite Hfilled in Hprev, Hprevd.
  unfold corr_cell_step.
  destruct (py_index_lt melody_seq i) as (a & -> & Ha); [lia|].
  destruct (py_index_lt melody_seq j) as (b & -> & Hb); [assumption|].
  cbn [bind]. rewrite Hprev, Hprevd.
  destruct i as [|i']; [lia|].
  cbn [run_length run_duration] in Hs1, Hs2.
  unfold same_note, tick_at in Hs1, Hs2. rewrite Ha, Hb in Hs1, Hs2.
  replace (S i' - 1) with i' by lia.
  destruct (note_eq a b); cbn [bind]; rewrite Hs1; cbn [bind]; rewrite Hs2;
    cbn [bind]; eauto.
Qed.

Lemma corr_row_step_inv (i : nat) (st : corr_state) :
  corr_inv melody_seq i 0 st -> 0 < i -> i < n ->
  exists st', corr_row_step melody_seq n st i = Ok st' /\
              corr_inv melody_seq (i + 1) 0 st'.
Proof.
  intros Hinv H0 Hi. unfold corr_row_step.
  destruct (foldM_seq_run (fun j st => corr_inv melody_seq i j st)
              (corr_cell_step melody_seq i) (n - (i + 1)) (i + 1) st)
    as (st' & Hrun & Hinv').
  - intros j s Hj Hs. apply corr_cell_step_inv; [assumption|lia..].
  - apply (corr_inv_ext i 0); [|assumption].
    intros a b Ha Hb. apply Bool.eq_iff_eq_true.
    rewrite !filled_spec. lia.
  - exists st'. split; [assumption|].
    apply (corr_inv_ext i (i + 1 + (n - (i + 1)))); [|assumption].
    intros a b Ha Hb. apply Bool.eq_iff_eq_true.
    rewrite !filled_spec. lia.
Qed.
End Correlation.

(** [correlate] never raises, and each cell above the diagonal holds the
    value of the recurrence; the other cells stay zero. *)
Lemma correlate_spec (melody_seq : list MelodyNote) :
  exists corr_mat corr_dur,
    correlate melody_seq = Ok (corr_mat, corr_dur) /\
    mat_wf (length melody_seq) corr_mat /\
    mat_wf (length melody_seq) corr_dur /\
    forall i j,
      i < length melody_seq -> j < length melody_seq ->
      mat_get corr_mat i j
      = Ok (if i <? j then run_length melody_seq i j else 0%Z) /\
      mat_get corr_dur i j
      = Ok (if i <? j then run_duration melody_seq i j else 0%Q).
Proof.
  set (n := length melody_seq).
  assert (Hinit : corr_inv melody_seq 0 1 (np_zeros 0%Z n, np_zeros 0%Q n)).
  { split; [apply mat_wf_zeros|]. split; [apply mat_wf_zeros|].
    intros a b Ha Hb. cbn [fst snd].
    rewrite !mat_get_zeros by assumption.
    assert (Hf : filled 0 1 a b = false).
    { apply not_true_is_false. rewrite filled_spec. lia. }
    now rewrite Hf. }
  destruct (foldM_seq_run (fun j st => corr_inv melody_seq 0 j st)
              (corr_first_row_step melody_seq) (n - 1) 1 _
              ltac:(intros j s Hj Hs;
                    apply corr_first_row_step_inv; [assumption|lia..])
              Hinit)
    as (st1 & Hrun1 & Hinv1).
  assert (Hrows : corr_inv melody_seq 1 0 st1).
  { apply (corr_inv_ext melody_seq 0 (1 + (n - 1))); [|assumption].
    intros a b Ha Hb. apply Bool.eq_iff_eq_true.
    rewrite !filled_spec. lia. }
  destruct (foldM_seq_run (fun i st => corr_inv melody_seq i 0 st)
              (corr_row_step melody_seq n) (n - 1 - 1) 1 _
              ltac:(intros i s Hi Hs;
                    apply corr_row_step_inv; [assumption|lia..])
              Hrows)
    as ([m d] & Hrun2 & Hinv2).
  exists m, d. split.
  - unfold correlate. fold n. rewrite Hrun1. cbn [bind]. exact Hrun2.
  - destruct Hinv2 as (Hw1 & Hw2 & Hcells).
    split; [exact Hw1|]. split; [exact Hw2|]. intros i j Hi Hj.
    destruct (Hcells i j Hi Hj) as [H1 H2]. cbn [fst snd] in H1, H2.
    assert (Hf : filled (1 + (n - 1 - 1)) 0 i j = (i <? j)).
    { apply Bool.eq_iff_eq_true. rewrite filled_spec, Nat.ltb_lt.
      fold n in Hi, Hj. lia. }
    rewrite Hf in H1, H2. auto.
Qed.

Lemma calc_correlation_spec (track_list : list (list MelodyNote))
    (instrument : Z) (corr_mat : matrix Z) (corr_dur : matrix Q)
    (melody_seq : list MelodyNote) :
  calc_correlation track_list instrument = Ok (corr_mat, corr_dur, melody_seq) ->
  forall i j,
    i < j -> j < length melody_seq ->
    mat_get corr_mat i j = Ok (run_length melody_seq i j) /\
    mat_get corr_dur i j = Ok (run_duration melody_seq i j).
Proof.
  unfold calc_correlation. intros Hrun i j Hij Hj.
  apply bind_Ok in Hrun as (track & Htrack & Hrun).
  apply bind_Ok in Hrun as (st & Hcorr & Hret).
  inversion Hret; subst.
  destruct (correlate_spec melody_seq) as (m & d & Hcorr' & _ & _ & Hcells).
  rewrite Hcorr in Hcorr'. inversion Hcorr'; subst. cbn [fst snd].
  destruct (Hcells i j) as [H1 H2]; [lia|assumption|].
  replace (i <? j) with true in H1, H2 by (symmetry; apply Nat.ltb_lt; lia).
  auto.
Qed.

Lemma mat_get_in_range {A : Type} (n : nat) (m : matrix A) (i j : nat)
    (v : A) :
  mat_wf n m -> mat_get m i j = Ok v -> i < n /\ j < n.
Proof.
  intros [Hlen Hrows] Hget. unfold mat_get in Hget.
  apply bind_Ok in Hget as (row & Hrow & Hcell).
  apply py_index_Ok in Hrow, Hcell.
  assert (Hrowlen : length row = n).
  { rewrite Forall_forall in Hrows. apply Hrows.
    apply list_elem_of_lookup. eauto. }
  apply lookup_lt_Some in Hrow, Hcell. lia.
Qed.

(** ** What a positive run length means *)

Lemma run_length_bounds (melody_seq : list MelodyNote) :
  forall i j, (0 <= run_length melody_seq i j <= Z.of_nat i + 1)%Z.
Proof.
  induction i as [|i IH]; intros j; cbn [run_length].
  - destruct (same_note melody_seq 0 j); lia.
  - destruct (same_note melody_seq (S i) j); [|lia].
    specialize (IH (j - 1)). lia.
Qed.

Lemma run_length_positive (melody_seq : list MelodyNote) (i j : nat) :
  (0 < run_length melody_seq i j)%Z -> same_note melody_seq i j = true.
Proof.
  destruct i as [|i]; cbn [run_length];
    destruct (same_note melody_seq _ j); auto; lia.
Qed.

(** The notes [t] places before the two ends of a run are equal. *)
Lemma run_length_window (melody_seq : list MelodyNote) :
  forall i j t,
    (Z.of_nat t < run_length melody_seq i j)%Z ->
    same_note melody_seq (i - t) (j - t) = true.
Proof.
  induction i as [|i IH]; intros j t Ht.
  - pose proof (run_length_bounds melody_seq 0 j).
    assert (t = 0) by lia. subst t. rewrite !Nat.sub_0_r.
    apply run_length_positive. lia.
  - destruct t as [|t].
    + rewrite !Nat.sub_0_r. apply run_length_positive. lia.
    + cbn [run_length] in Ht.
      destruct (same_note melody_seq (S i) j); [|lia].
      replace (S i - S t) with (i - t) by lia.
      replace (j - S t) with (j - 1 - t) by lia.
      apply IH. lia.
Qed.

Lemma sum_ticks_snoc (l : list MelodyNote) (x : MelodyNote) :
  sum_ticks (l ++ [x]) = (sum_ticks l + tick_duration x)%Q.
Proof. unfold sum_ticks. now rewrite fold_left_app. Qed.

(** The duration of a run is the sum of the tick lengths of the notes of
    its second occurrence. *)
Lemma run_duration_sum (melody_seq : list MelodyNote) :
  forall i j,
    i < j -> j < length melody_seq ->
    let k := Z.to_nat (run_length melody_seq i j) in
    (run_duration melody_seq i j
     == sum_ticks (take k (drop (j + 1 - k) melody_seq)))%Q.
Proof.
  induction i as [|i IH]; intros j Hij Hj; cbn zeta;
    cbn [run_length run_duration].
  - destruct (same_note melody_seq 0 j); [|reflexivity].
    change (Z.to_nat 1) with 1. replace (j + 1 - 1) with j by lia.
    destruct (lookup_lt_is_Some_2 melody_seq j Hj) as [b Hb].
    unfold tick_at. rewrite Hb, (drop_S _ _ _ Hb). cbn.
    now rewrite Qplus_0_l.
  - destruct (same_note melody_seq (S i) j); [|reflexivity].
    pose proof (run_length_bounds melody_seq i (j - 1)) as Hb.
    set (k := Z.to_nat (run_length melody_seq i (j - 1))) in *.
    replace (Z.to_nat (run_length melody_seq i (j - 1) + 1)) with (S k)
      by (subst k; lia).
    assert (Hk : k <= i + 1) by (subst k; lia).
    replace (j + 1 - S k) with (j - k) by lia.
    destruct (lookup_lt_is_Some_2 melody_seq j Hj) as [b Hlook].
    assert (Hlast : drop (j - k) melody_seq !! k = Some b).
    { rewrite lookup_drop. now replace (j - k + k) with j by lia. }
    rewrite (take_S_r _ _ _ Hlast), sum_ticks_snoc.
    unfold tick_at. rewrite Hlook.
    apply Qplus_comp; [|reflexivity].
    specialize (IH (j - 1)). cbn zeta in IH. fold k in IH.
    replace (j - 1 + 1 - k) with (j - k) in IH by lia.
    apply IH; lia.
Qed.

(** C5. When [calc_correlation] leaves a positive run length [k] in cell
    [(i, j)] with [i < j], the notes at [i] and [j] are equal, the run fits
    before [i], the [k] notes ending at [i] equal the [k] notes ending at
    [j] position by position, and the duration cell holds the sum of the
    tick lengths of the [k] notes ending at [j]. *)
Theorem positive_run_is_a_repeated_window
    (track_list : list (list MelodyNote)) (instrument : Z)
    (corr_mat : matrix Z) (corr_dur : matrix Q)
    (melody_seq : list MelodyNote) (i j : nat) (k : Z) :
  calc_correlation track_list instrument
  = Ok (corr_mat, corr_dur, melody_seq) ->
  i < j ->
  mat_get corr_mat i j = Ok k ->
  (0 < k)%Z ->
  (k <= Z.of_nat i + 1)%Z /\
  (forall t, (Z.of_nat t < k)%Z ->
             exists a b, melody_seq !! (i - t) = Some a /\
                         melody_seq !! (j - t) = Some b /\
                         note_eq a b = true) /\
  exists d,
    mat_get corr_dur i j = Ok d /\
    (d == sum_ticks (take (Z.to_nat k)
                       (drop (j + 1 - Z.to_nat k) melody_seq)))%Q.
Proof.
  intros Hrun Hij Hget Hpos.
  assert (Hj : j < length melody_seq).
  { destruct (decide (j < length melody_seq)) as [?|Hge]; [assumption|].
    exfalso. unfold calc_correlation in Hrun.
    apply bind_Ok in Hrun as (track & _ & Hrun).
    apply bind_Ok in Hrun as (st & Hcorr & Hret). inversion Hret; subst.
    destruct (correlate_spec melody_seq) as (m & d & Hcorr' & Hwf & _).
    rewrite Hcorr in Hcorr'. inversion Hcorr'; subst. cbn [fst snd] in Hget.
    apply (mat_get_in_range _ _ _ _ _ Hwf) in Hget. lia. }
  destruct (calc_correlation_spec _ _ _ _ _ Hrun i j Hij Hj) as [H1 H2].
  rewrite H1 in Hget. inversion Hget; subst k.
  split; [apply run_length_bounds|]. split.
  - intros t Ht. pose proof (run_length_window melody_seq i j t Ht) as Hsame.
    unfold same_note in Hsame.
    destruct (melody_seq !! (i - t)) as [a|]; [|discriminate].
    destruct (melody_seq !! (j - t)) as [b|]; [|discriminate].
    eauto.
  - exists (run_duration melody_seq i j). split; [assumption|].
    now apply run_duration_sum.
Qed.

Lemma positive_run_is_a_repeated_window_witness :
  (4 <= Z.of_nat 3 + 1)%Z /\
  (forall t, (Z.of_nat t < 4)%Z ->
             exists a b, riff_three_times !! (3 - t) = Some a /\
                         riff_three_times !! (7 - t) = Some b /\
                         note_eq a b = true) /\
  exists d,
    mat_get riff_correlation.2 3 7 = Ok d /\
    (d == sum_ticks (take (Z.to_nat 4)
                       (drop (7 + 1 - Z.to_nat 4) riff_three_times)))%Q.
Proof.
  apply (positive_run_is_a_repeated_window [riff_three_times] 0%Z
           riff_correlation.1 riff_correlation.2 riff_three_times 3 7 4%Z).
  - vm_compute; reflexivity.
  - lia.
  - vm_compute; reflexivity.
  - lia.
Defined.

(** The sample notes are what [MelodyNote.__init__] builds. *)
Example whole_note_init :
  MelodyNote_init 1 false 7680 7680 [(1, 3, NoteType.normal)%Z]
  = Ok (whole_note 3 2).
Proof. vm_compute; reflexivity. Qed.

(** ** Deduplication in get_valid_loops *)

(** The extension loop stops because its condition fails, not because the
    fuel ran out. *)
Lemma extend_run_stops (corr_mat : matrix Z) (corr_size : nat) :
  forall fuel x y x' y',
    corr_size - x <= fuel ->
    extend_run corr_mat corr_size fuel x y = Ok (x', y') ->
    (x' + 1 <? corr_size) && (y' + 1 <? corr_size) = false \/
    exists next here,
      mat_get corr_mat (x' + 1) (y' + 1) = Ok next /\
      mat_get corr_mat x' y' = Ok here /\ (here <? next)%Z = false.
Proof.
  induction fuel as [|fuel IH]; intros x y x' y' Hfuel Hrun; simpl in Hrun.
  - inversion Hrun; subst. left.
    replace (x' + 1 <? corr_size) with false
      by (symmetry; apply Nat.ltb_ge; lia).
    reflexivity.
  - destruct ((x + 1 <? corr_size) && (y + 1 <? corr_size)) eqn:Hguard.
    + apply bind_Ok in Hrun as (next & Hnext & Hrun).
      apply bind_Ok in Hrun as (here & Hhere & Hrun).
      destruct (here <? next)%Z eqn:Hlt.
      * apply andb_prop in Hguard as [Hx _]. apply Nat.ltb_lt in Hx.
        apply (IH (x + 1) (y + 1) x' y'); [lia|exact Hrun].
      * inversion Hrun; subst. right. eauto.
    + inversion Hrun; subst. now left.
Qed.

(** A candidate that [test_loop_exists] places at index 0 is dropped: the
    accepted loops and their endpoints stay as they are. *)
Lemma insert_loop_at_index_zero (melody_seq : list MelodyNote)
    (beginning end_ : Z) (loops : list (list MelodyNote))
    (loop_bp : list (Z * Z)) :
  test_loop_exists loops (py_slice melody_seq beginning end_)
  = Ok (Some 0%Z) ->
  insert_loop melody_seq beginning end_ loops loop_bp = Ok (loops, loop_bp).
Proof. intros Htest. unfold insert_loop. now rewrite Htest. Qed.

(** A candidate placed at a positive index replaces the loop and the
    endpoints stored there. *)
Lemma insert_loop_at_positive_index (melody_seq : list MelodyNote)
    (beginning end_ idx : Z) (loops : list (list MelodyNote))
    (loop_bp : list (Z * Z)) (first last_ : MelodyNote) :
  test_loop_exists loops (py_slice melody_seq beginning end_)
  = Ok (Some idx) ->
  (0 < idx < Z.of_nat (length loops))%Z ->
  length loop_bp = length loops ->
  py_get melody_seq beginning = Ok first ->
  py_get melody_seq end_ = Ok last_ ->
  insert_loop melody_seq beginning end_ loops loop_bp
  = Ok (<[Z.to_nat idx := py_slice melody_seq beginning end_]> loops,
        <[Z.to_nat idx := (start_time first, start_time last_)]> loop_bp).
Proof.
  intros Htest Hidx Hlen Hfirst Hlast. unfold insert_loop, py_set.
  rewrite Htest. cbn [bind].
  replace (0 <? idx)%Z with true by (symmetry; apply Z.ltb_lt; lia).
  replace (0 <=? idx)%Z with true by (symmetry; apply Z.leb_le; lia).
  replace (idx <? Z.of_nat (length loops))%Z with true
    by (symmetry; apply Z.ltb_lt; lia).
  cbn [andb bind]. rewrite Hfirst, Hlast. cbn [bind]. rewrite Hlen.
  replace (idx <? Z.of_nat (length loops))%Z with true
    by (symmetry; apply Z.ltb_lt; lia).
  reflexivity.
Qed.

(** C1. On a four-note riff played three times the first accepted loop is
    the four-note one, at index 0.  The second candidate is the eight-note
    loop with the same first note: it passes the acceptance test (its
    matched duration is 16 beats, it starts on a bar and is not made of
    rests), [test_loop_exists] answers index 0 for it, and
    [get_valid_loops] leaves the four-note loop and its endpoints in place
    instead of replacing them. *)
Theorem first_accepted_loop_is_not_replaced :
  let short := py_slice riff_three_times 0 4 in
  let long := py_slice riff_three_times 0 8 in
  let corr_mat := riff_correlation.1 in
  let corr_dur := riff_correlation.2 in
  calc_correlation [riff_three_times] 0
  = Ok (corr_mat, corr_dur, riff_three_times) /\
  np_where_eq corr_mat 4 = [(3, 7); (3, 11)] /\
  loop_step riff_three_times corr_mat corr_dur 4 ([], []) (3, 7)
  = Ok ([short], [(0, 15360)%Z]) /\
  extend_run corr_mat 12 12 3 11 = Ok (3, 11) /\
  mat_get corr_mat 3 11 = Ok 4%Z /\
  mat_get corr_dur 3 11 = Ok 15360%Q /\
  Qle_bool 4 (15360 / 960) = true /\
  (exists first, py_get riff_three_times 0 = Ok first /\
                 on_bar first = true) /\
  is_empty_pattern long = false /\
  (length short = 4 /\ length long = 8) /\
  test_loop_exists [short] long = Ok (Some 0%Z) /\
  insert_loop riff_three_times 0 8 [short] [(0, 15360)%Z]
  = Ok ([short], [(0, 15360)%Z]) /\
  loop_step riff_three_times corr_mat corr_dur 4
    ([short], [(0, 15360)%Z]) (3, 11)
  = Ok ([short], [(0, 15360)%Z]) /\
  get_valid_loops riff_three_times corr_mat corr_dur 4 16 32 4
  = Ok ([short], [(0, 15360)%Z]).
Proof.
  cbn zeta. repeat split; try (vm_compute; reflexivity).
  eexists. split; vm_compute; reflexivity.
Qed.

(** * Further properties of the code *)

(** ** MelodyNote *)

(** X1. [MelodyNote.__eq__] holds exactly when the durations, the dotting and
    the sets of sounded strings agree; the start tick, the bar flag, the
    tick length and the note types play no part.  It is therefore an
    equivalence relation. *)
Theorem note_eq_iff :
  (forall a b,
     note_eq a b = true <->
     duration a = duration b /\ is_dotted a = is_dotted b /\
     notes a = notes b) /\
  (forall a, note_eq a a = true) /\
  (forall a b, note_eq a b = true -> note_eq b a = true) /\
  (forall a b c, note_eq a b = true -> note_eq b c = true ->
                 note_eq a c = true).
Proof.
  assert (Hiff : forall a b,
             note_eq a b = true <->
             duration a = duration b /\ is_dotted a = is_dotted b /\
             notes a = notes b).
  { intros a b.
    unfold note_eq.
    destruct (duration a =? duration b)%Z eqn:Hd; cbn [negb].
    2:{ apply Z.eqb_neq in Hd. split; [discriminate|tauto]. }
    apply Z.eqb_eq in Hd.
    destruct (Bool.eqb (is_dotted a) (is_dotted b)) eqn:Hdot; cbn [negb].
    2:{ apply eqb_false_iff in Hdot. split; [discriminate|tauto]. }
    apply eqb_prop in Hdot.
    destruct (size (notes a) =? size (notes b)) eqn:Hsize; cbn [negb].
    2:{ apply Nat.eqb_neq in Hsize. split; [discriminate|].
        intros (_ & _ & Hn). rewrite Hn in Hsize. congruence. }
    apply Nat.eqb_eq in Hsize. rewrite forallb_forall. split.
    - intros Hall. split; [assumption|]. split; [assumption|].
      apply set_subseteq_size_eq; [|lia].
      intros m Hm. specialize (Hall m).
      rewrite <- list_elem_of_In, elem_of_elements in Hall.
      specialize (Hall Hm). now apply bool_decide_eq_true in Hall.
    - intros (_ & _ & Hn) m Hm.
      rewrite <- list_elem_of_In, elem_of_elements in Hm.
      apply bool_decide_eq_true. now rewrite <- Hn. }
  split; [exact Hiff|]. repeat split.
  - intros a. apply Hiff. auto.
  - intros a b H. apply Hiff in H as (H1 & H2 & H3). apply Hiff. auto.
  - intros a b c H H'. apply Hiff in H as (H1 & H2 & H3).
    apply Hiff in H' as (H1' & H2' & H3'). apply Hiff.
    repeat split; congruence.
Qed.

(** ** Comparing patterns *)

(** X2. [compare_patterns] never raises and looks at the first notes only:
    without a first note on either side it falls off its end ([None]);
    with different first notes it answers 0; with equal first notes it
    answers 1 when the new pattern is strictly shorter and 2 otherwise. *)
Theorem compare_patterns_first_note (p1 p2 : list MelodyNote) :
  compare_patterns p1 p2
  = Ok (match p1, p2 with
        | a :: _, b :: _ =>
            Some (if note_eq a b
                  then if length p1 <? length p2 then 1%Z else 2%Z
                  else 0%Z)
        | _, _ => None
        end).
Proof.
  unfold compare_patterns.
  destruct p1 as [|a p1], p2 as [|b p2]; cbn [length]; try reflexivity.
  destruct (S (length p1) <? S (length p2)); cbn;
    destruct (note_eq a b); reflexivity.
Qed.

Lemma compare_patterns_same_first (p1 p2 : list MelodyNote) :
  compare_patterns p1 p2
  = Ok (if same_first_note p1 p2
        then Some (if length p1 <? length p2 then 1%Z else 2%Z)
        else match p1, p2 with
             | _ :: _, _ :: _ => Some 0%Z
             | _, _ => None
             end).
Proof.
  unfold compare_patterns, same_first_note.
  destruct p1 as [|a p1], p2 as [|b p2]; cbn [length]; try reflexivity.
  destruct (S (length p1) <? S (length p2)); cbn;
    destruct (note_eq a b); reflexivity.
Qed.

Lemma test_loop_exists_from_spec (pattern : list MelodyNote) :
  forall (pattern_list : list (list MelodyNote)) (i : Z),
  exists r,
    test_loop_exists_from i pattern_list pattern = Ok r /\
    match r with
    | None =>
        Forall (fun pat => same_first_note pattern pat = false) pattern_list
    | Some idx =>
        exists k pat,
          pattern_list !! k = Some pat /\
          same_first_note pattern pat = true /\
          Forall (fun q => same_first_note pattern q = false)
                 (take k pattern_list) /\
          idx = if length pattern <? length pat then (-1)%Z
                else (i + Z.of_nat k)%Z
    end.
Proof.
  induction pattern_list as [|pat l IH]; intros i; cbn [test_loop_exists_from].
  - exists None. split; [reflexivity|constructor].
  - rewrite compare_patterns_same_first. cbn [bind].
    destruct (same_first_note pattern pat) eqn:Hsame.
    + destruct (length pattern <? length pat) eqn:Hlen.
      * exists (Some (-1)%Z). split; [reflexivity|].
        exists 0, pat. rewrite Hlen. repeat split; auto; constructor.
      * exists (Some i). split; [reflexivity|].
        exists 0, pat. rewrite Hlen.
        repeat split; auto; try constructor; lia.
    + assert (Hskip :
        forall r : option Z,
          r = Some 0%Z \/ r = None ->
          (if bool_decide (r = Some 1%Z) then Ok (Some (-1)%Z)
           else if bool_decide (r = Some 2%Z) then Ok (Some i)
                else test_loop_exists_from (i + 1)%Z l pattern)
          = test_loop_exists_from (i + 1)%Z l pattern).
      { intros r [->| ->]; reflexivity. }
      rewrite Hskip by (destruct pattern, pat; auto).
      destruct (IH (i + 1)%Z) as (r & Hr & Hspec).
      exists r. split; [assumption|].
      destruct r as [idx|].
      * destruct Hspec as (k & q & Hk & Hq & Hbefore & Hidx).
        exists (S k), q. repeat split; auto.
        -- cbn [take]. constructor; assumption.
        -- rewrite Hidx. destruct (length pattern <? length q); lia.
      * constructor; assumption.
Qed.

(** X3. [test_loop_exists] never raises.  It answers for the first accepted
    loop that starts with the same note as the new pattern: [-1] when that
    loop is strictly longer than the pattern, the loop's index otherwise;
    it answers [None] exactly when no accepted loop starts with that
    note. *)
Theorem test_loop_exists_first_match (pattern_list : list (list MelodyNote))
    (pattern : list MelodyNote) :
  exists r,
    test_loop_exists pattern_list pattern = Ok r /\
    match r with
    | None =>
        Forall (fun pat => same_first_note pattern pat = false) pattern_list
    | Some idx =>
        exists k pat,
          pattern_list !! k = Some pat /\
          same_first_note pattern pat = true /\
          Forall (fun q => same_first_note pattern q = false)
                 (take k pattern_list) /\
          idx = if length pattern <? length pat then (-1)%Z
                else Z.of_nat k
    end.
Proof.
  destruct (test_loop_exists_from_spec pattern pattern_list 0)
    as (r & Hr & Hspec).
  exists r. split; [exact Hr|]. destruct r as [idx|]; [|exact Hspec].
  destruct Hspec as (k & pat & H1 & H2 & H3 & H4).
  exists k, pat. repeat split; auto.
Qed.

(** ** Building notes *)

(** X4. [MelodyNote.__init__] raises a division error exactly for the duration
    value 0.  Otherwise the note keeps the duration and the start tick, is
    on the bar exactly when it starts where its measure starts, always has
    a sounded string (the rest sentinel when the beat is empty), lasts
    [3840 / value] ticks, half as much again when dotted, and so a positive
    time for a positive duration value. *)
Theorem MelodyNote_init_invariants (value : Z) (isDotted : bool)
    (start bar_start : Z) (note_list : list (Z * Z * NoteType.t)) :
  (value = 0%Z ->
   MelodyNote_init value isDotted start bar_start note_list
   = Raise ZeroDivisionError) /\
  (value <> 0%Z ->
   exists n,
     MelodyNote_init value isDotted start bar_start note_list = Ok n /\
     duration n = value /\ is_dotted n = isDotted /\ start_time n = start /\
     (on_bar n = true <-> start = bar_start) /\
     notes n <> ∅ /\
     (note_list = [] -> notes n = {[ (0, 0)%Z ]} /\
                        note_types n = {[ NoteType.rest ]}) /\
     (tick_duration n
      == (3840 / inject_Z value) * (if isDotted then 3 # 2 else 1))%Q /\
     ((0 < value)%Z -> (0 < tick_duration n)%Q)).
Proof.
  unfold MelodyNote_init. split.
  - intros ->. reflexivity.
  - intros Hne.
    replace (value =? 0)%Z with false by (symmetry; now apply Z.eqb_neq).
    assert (Hticks :
      ((if isDotted then 3840 / inject_Z value * 1.5
        else 3840 / inject_Z value)
       == 3840 / inject_Z value * (if isDotted then 3 # 2 else 1))%Q).
    { destruct isDotted; [|now rewrite Qmult_1_r].
      apply Qmult_comp; [reflexivity|now unfold Qeq]. }
    assert (Hpos : (0 < value)%Z ->
      (0 < (if isDotted then 3840 / inject_Z value * 1.5
            else 3840 / inject_Z value))%Q).
    { intros Hv. rewrite Hticks.
      apply Qmult_lt_0_compat; [|destruct isDotted; reflexivity].
      apply Qlt_shift_div_l; [|rewrite Qmult_0_l; reflexivity].
      change 0%Q with (inject_Z 0). now rewrite <- Zlt_Qlt. }
    destruct (0 <? length note_list) eqn:Hlen; eexists;
      (split; [reflexivity|]);
      cbn [duration is_dotted start_time on_bar notes note_types
           tick_duration];
      (split; [reflexivity|]); (split; [reflexivity|]);
      (split; [reflexivity|]); (split; [apply Z.eqb_eq|]);
      (split; [|split; [|split; [exact Hticks|exact Hpos]]]).
    + destruct note_list as [|[[s v] t] l]; [discriminate|].
      cbn [map list_to_set fst]. set_solver.
    + intros ->. discriminate.
    + apply non_empty_singleton_L.
    + auto.
Qed.

(** ** More on calc_correlation *)

Lemma calc_correlation_cells (track_list : list (list MelodyNote))
    (instrument : Z) (corr_mat : matrix Z) (corr_dur : matrix Q)
    (melody_seq : list MelodyNote) :
  calc_correlation track_list instrument
  = Ok (corr_mat, corr_dur, melody_seq) ->
  mat_wf (length melody_seq) corr_mat /\
  mat_wf (length melody_seq) corr_dur /\
  forall i j,
    i < length melody_seq -> j < length melody_seq ->
    mat_get corr_mat i j
    = Ok (if i <? j then run_length melody_seq i j else 0%Z) /\
    mat_get corr_dur i j
    = Ok (if i <? j then run_duration melody_seq i j else 0%Q).
Proof.
  unfold calc_correlation. intros Hrun.
  apply bind_Ok in Hrun as (track & _ & Hrun).
  apply bind_Ok in Hrun as (st & Hcorr & Hret). inversion Hret; subst.
  destruct (correlate_spec melody_seq) as (m & d & Hcorr' & Hrest).
  rewrite Hcorr in Hcorr'. inversion Hcorr'; subst. exact Hrest.
Qed.

Lemma calc_correlation_returns (track_list : list (list MelodyNote))
    (instrument : Z) (melody_seq : list MelodyNote) :
  py_get track_list instrument = Ok melody_seq ->
  exists corr_mat corr_dur,
    calc_correlation track_list instrument
    = Ok (corr_mat, corr_dur, melody_seq).
Proof.
  intros Htrack.
  destruct (correlate_spec melody_seq) as (m & d & Hcorr & _).
  exists m, d. unfold calc_correlation. rewrite Htrack. cbn [bind].
  now rewrite Hcorr.
Qed.

(** X5. [calc_correlation] raises only when the instrument index is out of
    range.  For a valid index it returns the chosen sequence with two
    square matrices of its length, whose cells on and below the diagonal
    are zero and whose run lengths lie between 0 and the row index plus
    one. *)
Theorem calc_correlation_shape (track_list : list (list MelodyNote))
    (instrument : Z) (melody_seq : list MelodyNote) :
  py_get track_list instrument = Ok melody_seq ->
  exists corr_mat corr_dur,
    calc_correlation track_list instrument
    = Ok (corr_mat, corr_dur, melody_seq) /\
    mat_wf (length melody_seq) corr_mat /\
    mat_wf (length melody_seq) corr_dur /\
    (forall i j, j <= i -> i < length melody_seq ->
                 mat_get corr_mat i j = Ok 0%Z /\
                 mat_get corr_dur i j = Ok 0%Q) /\
    (forall i j k, mat_get corr_mat i j = Ok k ->
                   (0 <= k <= Z.of_nat i + 1)%Z).
Proof.
  intros Htrack.
  destruct (calc_correlation_returns _ _ _ Htrack) as (m & d & Hrun).
  destruct (calc_correlation_cells _ _ _ _ _ Hrun) as (Hw1 & Hw2 & Hcells).
  exists m, d. split; [exact Hrun|split; [exact Hw1|split; [exact Hw2|split]]].
  - intros i j Hji Hi. destruct (Hcells i j) as [H1 H2]; [lia..|].
    replace (i <? j) with false in H1, H2
      by (symmetry; apply Nat.ltb_ge; lia).
    auto.
  - intros i j k Hget.
    destruct (mat_get_in_range _ _ _ _ _ Hw1 Hget) as [Hi Hj].
    destruct (Hcells i j Hi Hj) as [H1 _]. rewrite H1 in Hget.
    inversion Hget; subst k.
    pose proof (run_length_bounds melody_seq i j).
    destruct (i <? j); lia.
Qed.

Lemma calc_correlation_shape_witness :
  exists corr_mat corr_dur,
    calc_correlation [riff_three_times] 0
    = Ok (corr_mat, corr_dur, riff_three_times) /\
    mat_wf (length riff_three_times) corr_mat /\
    mat_wf (length riff_three_times) corr_dur /\
    (forall i j, j <= i -> i < length riff_three_times ->
                 mat_get corr_mat i j = Ok 0%Z /\
                 mat_get corr_dur i j = Ok 0%Q) /\
    (forall i j k, mat_get corr_mat i j = Ok k ->
                   (0 <= k <= Z.of_nat i + 1)%Z).
Proof.
  apply (calc_correlation_shape [riff_three_times] 0 riff_three_times).
  reflexivity.
Defined.

Lemma run_length_step (melody_seq : list MelodyNote) (i j : nat) :
  (0 < run_length melody_seq (S i) j)%Z ->
  run_length melody_seq i (j - 1)
  = (run_length melody_seq (S i) j - 1)%Z.
Proof.
  cbn [run_length]. destruct (same_note melody_seq (S i) j); lia.
Qed.

(** X6. Extension along a diagonal: a positive run length in a cell below the
    first row is one more than the run length of the cell up and to the
    left; in the first row it is 1. *)
Theorem run_extends_the_diagonal (track_list : list (list MelodyNote))
    (instrument : Z) (corr_mat : matrix Z) (corr_dur : matrix Q)
    (melody_seq : list MelodyNote) (i j : nat) (k : Z) :
  calc_correlation track_list instrument
  = Ok (corr_mat, corr_dur, melody_seq) ->
  i < j ->
  mat_get corr_mat i j = Ok k ->
  (0 < k)%Z ->
  (i = 0 -> k = 1%Z) /\
  (0 < i -> mat_get corr_mat (i - 1) (j - 1) = Ok (k - 1)%Z).
Proof.
  intros Hrun Hij Hget Hpos.
  assert (Hj : j < length melody_seq).
  { destruct (calc_correlation_cells _ _ _ _ _ Hrun) as (Hwf & _).
    apply (mat_get_in_range _ _ _ _ _ Hwf) in Hget. lia. }
  destruct (calc_correlation_spec _ _ _ _ _ Hrun i j Hij Hj) as [H1 _].
  rewrite H1 in Hget. inversion Hget; subst k. split.
  - intros ->. pose proof (run_length_bounds melody_seq 0 j). lia.
  - intros Hi. destruct i as [|i]; [lia|].
    replace (S i - 1) with i by lia.
    destruct (calc_correlation_spec _ _ _ _ _ Hrun i (j - 1)) as [H2 _];
      [lia..|].
    rewrite H2. f_equal. now apply run_length_step.
Qed.

Lemma run_extends_the_diagonal_witness :
  (3 = 0 -> 4%Z = 1%Z) /\
  (0 < 3 -> mat_get riff_correlation.1 (3 - 1) (7 - 1) = Ok (4 - 1)%Z).
Proof.
  apply (run_extends_the_diagonal [riff_three_times] 0%Z
           riff_correlation.1 riff_correlation.2 riff_three_times 3 7 4%Z).
  - vm_compute; reflexivity.
  - lia.
  - vm_compute; reflexivity.
  - lia.
Defined.

Lemma run_length_maximal (melody_seq : list MelodyNote) :
  forall i j,
    (run_length melody_seq i j <= Z.of_nat i)%Z ->
    let k := Z.to_nat (run_length melody_seq i j) in
    same_note melody_seq (i - k) (j - k) = false.
Proof.
  induction i as [|i IH]; intros j Hle; cbn zeta.
  - pose proof (run_length_bounds melody_seq 0 j).
    assert (Hk : run_length melody_seq 0 j = 0%Z) by lia.
    rewrite Hk. cbn [run_length] in Hk. change (Z.to_nat 0) with 0.
    rewrite !Nat.sub_0_r. destruct (same_note melody_seq 0 j); [lia|auto].
  - cbn [run_length] in *.
    destruct (same_note melody_seq (S i) j) eqn:Hsame.
    + pose proof (run_length_bounds melody_seq i (j - 1)) as Hb.
      specialize (IH (j - 1) ltac:(lia)). cbn zeta in IH.
      replace (Z.to_nat (run_length melody_seq i (j - 1) + 1))
        with (S (Z.to_nat (run_length melody_seq i (j - 1)))) by lia.
      replace (j - S (Z.to_nat (run_length melody_seq i (j - 1))))
        with (j - 1 - Z.to_nat (run_length melody_seq i (j - 1))) by lia.
      exact IH.
    + change (Z.to_nat 0) with 0. now rewrite !Nat.sub_0_r.
Qed.

(** X7. The run length of a cell is the length of the longest match ending
    there: the run length is at least [k] exactly when the [k] notes ending
    at [i] exist and equal, position by position, the [k] notes ending at
    [j]. *)
Theorem run_is_the_longest_match (track_list : list (list MelodyNote))
    (instrument : Z) (corr_mat : matrix Z) (corr_dur : matrix Q)
    (melody_seq : list MelodyNote) (i j k : nat) (r : Z) :
  calc_correlation track_list instrument
  = Ok (corr_mat, corr_dur, melody_seq) ->
  i < j ->
  mat_get corr_mat i j = Ok r ->
  (Z.of_nat k <= r)%Z <->
  k <= i + 1 /\ forall t, t < k -> same_note melody_seq (i - t) (j - t) = true.
Proof.
  intros Hrun Hij Hget.
  assert (Hj : j < length melody_seq).
  { destruct (calc_correlation_cells _ _ _ _ _ Hrun) as (Hwf & _).
    apply (mat_get_in_range _ _ _ _ _ Hwf) in Hget. lia. }
  destruct (calc_correlation_spec _ _ _ _ _ Hrun i j Hij Hj) as [H1 _].
  rewrite H1 in Hget. inversion Hget; subst r.
  pose proof (run_length_bounds melody_seq i j) as Hb. split.
  - intros Hk. split; [lia|]. intros t Ht.
    apply run_length_window. lia.
  - intros [Hk Hall].
    destruct (Z_le_gt_dec (Z.of_nat k) (run_length melody_seq i j))
      as [?|Hgt]; [assumption|exfalso].
    pose proof (run_length_maximal melody_seq i j ltac:(lia)) as Hmax.
    cbn zeta in Hmax. rewrite Hall in Hmax by lia. discriminate.
Qed.

Lemma run_is_the_longest_match_witness :
  (Z.of_nat 4 <= 4)%Z <->
  4 <= 3 + 1 /\
  forall t, t < 4 -> same_note riff_three_times (3 - t) (7 - t) = true.
Proof.
  apply (run_is_the_longest_match [riff_three_times] 0%Z
           riff_correlation.1 riff_correlation.2 riff_three_times 3 7 4 4%Z).
  - vm_compute; reflexivity.
  - lia.
  - vm_compute; reflexivity.
Defined.

(** ** More on get_valid_loops *)

(** Invariants of a loop whose body may raise. *)
Lemma foldM_inv {A St : Type} (P : St -> Prop) (body : St -> A -> result St)
    (l : list A) :
  (forall s a s', In a l -> P s -> body s a = Ok s' -> P s') ->
  forall s s', P s -> foldM body l s = Ok s' -> P s'.
Proof.
  induction l as [|a l IH]; intros Hstep s s' Hs Hrun; simpl in Hrun.
  - now inversion Hrun; subst.
  - apply bind_Ok in Hrun as (s1 & Hb & Hrest).
    apply (IH (fun s0 b s0' Hin => Hstep s0 b s0' (or_intror Hin)) s1 s');
      [|assumption].
    apply (Hstep s a s1); [now left|assumption|assumption].
Qed.

(** A loop whose body keeps an invariant and does not raise under it runs
    to the end. *)
Lemma foldM_run {A St : Type} (P : St -> Prop) (body : St -> A -> result St)
    (l : list A) :
  (forall s a, In a l -> P s -> exists s', body s a = Ok s' /\ P s') ->
  forall s, P s -> exists s', foldM body l s = Ok s' /\ P s'.
Proof.
  induction l as [|a l IH]; intros Hstep s Hs; simpl; [eauto|].
  destruct (Hstep s a) as (s1 & Hb & H1); [now left|assumption|].
  rewrite Hb. cbn [bind]. apply IH; [|assumption].
  intros s0 b Hin. apply Hstep. now right.
Qed.

Lemma py_get_lookup {A : Type} (l : list A) (i : Z) (a : A) :
  py_get l i = Ok a ->
  l !! Z.to_nat (clamp_bound (Z.of_nat (length l)) i) = Some a.
Proof.
  unfold py_get, clamp_bound. intros Hget.
  destruct (0 <=? i)%Z eqn:Hpos.
  - apply Z.leb_le in Hpos. apply py_index_Ok in Hget.
    pose proof (lookup_lt_Some _ _ _ Hget).
    replace (i <? 0)%Z with false by (symmetry; apply Z.ltb_ge; lia).
    now rewrite Z.min_l by lia.
  - apply Z.leb_gt in Hpos.
    replace (i <? 0)%Z with true by (symmetry; apply Z.ltb_lt; lia).
    destruct (0 <=? i + Z.of_nat (length l))%Z eqn:Hwrap; [|discriminate].
    apply Z.leb_le in Hwrap. apply py_index_Ok in Hget.
    now rewrite Z.max_l by lia.
Qed.

(** A non-empty slice starts with the element at its lower bound. *)
Lemma py_slice_head {A : Type} (l : list A) (a b : Z) (x : A) :
  py_get l a = Ok x -> py_slice l a b <> [] -> head (py_slice l a b) = Some x.
Proof.
  intros Hget Hne. apply py_get_lookup in Hget. unfold py_slice in *.
  set (a' := Z.to_nat (clamp_bound (Z.of_nat (length l)) a)) in *.
  set (b' := Z.to_nat (clamp_bound (Z.of_nat (length l)) b)) in *.
  destruct (b' - a') as [|k] eqn:Hk; [now rewrite take_0 in Hne|].
  rewrite head_lookup, lookup_take_lt by lia.
  rewrite lookup_drop. now rewrite Nat.add_0_r.
Qed.

Lemma py_set_positive {A : Type} (l l' : list A) (i : Z) (v : A) :
  (0 < i)%Z -> py_set l i v = Ok l' ->
  l' = <[Z.to_nat i := v]> l /\ (i < Z.of_nat (length l))%Z.
Proof.
  unfold py_set. intros Hi Hset.
  replace (0 <=? i)%Z with true in Hset by (symmetry; apply Z.leb_le; lia).
  replace (i <? 0)%Z with false in Hset by (symmetry; apply Z.ltb_ge; lia).
  destruct (i <? Z.of_nat (length l))%Z eqn:Hlt; cbn in Hset;
    [|discriminate].
  apply Z.ltb_lt in Hlt. inversion Hset. auto.
Qed.

Lemma insert_loop_keeps_entries (melody_seq : list MelodyNote)
    (beginning end_ : Z) (loops loops' : list (list MelodyNote))
    (loop_bp loop_bp' : list (Z * Z)) :
  Forall2 (loop_entry melody_seq) loops loop_bp ->
  loop_well_formed (py_slice melody_seq beginning end_) ->
  insert_loop melody_seq beginning end_ loops loop_bp
  = Ok (loops', loop_bp') ->
  Forall2 (loop_entry melody_seq) loops' loop_bp'.
Proof.
  intros Hall Hwf Hins. unfold insert_loop in Hins.
  apply bind_Ok in Hins as (r & _ & Hins).
  destruct r as [idx|].
  - destruct (0 <? idx)%Z eqn:Hidx; [|now inversion Hins; subst].
    apply Z.ltb_lt in Hidx.
    apply bind_Ok in Hins as (l1 & Hset1 & Hins).
    apply bind_Ok in Hins as (first & Hfirst & Hins).
    apply bind_Ok in Hins as (last_ & Hlast & Hins).
    apply bind_Ok in Hins as (l2 & Hset2 & Hins).
    inversion Hins; subst loops' loop_bp'.
    apply py_set_positive in Hset1 as [-> _]; [|assumption].
    apply py_set_positive in Hset2 as [-> _]; [|assumption].
    apply Forall2_insert; [assumption|].
    split; [assumption|]. exists beginning, end_, first, last_. auto.
  - apply bind_Ok in Hins as (first & Hfirst & Hins).
    apply bind_Ok in Hins as (last_ & Hlast & Hins).
    inversion Hins; subst loops' loop_bp'.
    apply Forall2_app; [assumption|]. constructor; [|constructor].
    split; [assumption|]. exists beginning, end_, first, last_. auto.
Qed.

Lemma loop_step_keeps_entries (melody_seq : list MelodyNote)
    (corr_mat : matrix Z) (corr_dur : matrix Q) (min_rep_beats : Q)
    (st st' : list (list MelodyNote) * list (Z * Z)) (seed : nat * nat) :
  Forall2 (loop_entry melody_seq) st.1 st.2 ->
  loop_step melody_seq corr_mat corr_dur min_rep_beats st seed = Ok st' ->
  Forall2 (loop_entry melody_seq) st'.1 st'.2.
Proof.
  intros Hall Hstep. unfold loop_step in Hstep.
  apply bind_Ok in Hstep as ([x y] & _ & Hstep).
  apply bind_Ok in Hstep as (k & _ & Hstep).
  apply bind_Ok in Hstep as (d & _ & Hstep).
  destruct (Qle_bool min_rep_beats (d / 960)); [|now inversion Hstep; subst].
  apply bind_Ok in Hstep as (first & Hfirst & Hstep).
  destruct (on_bar first) eqn:Hbar; [|now inversion Hstep; subst].
  destruct (is_empty_pattern _) eqn:Hempty; cbn [negb] in Hstep;
    [now inversion Hstep; subst|].
  destruct st' as [loops' bp'].
  eapply insert_loop_keeps_entries; [exact Hall| |exact Hstep].
  split; [assumption|]. exists first. split; [|assumption].
  apply py_slice_head; [assumption|].
  intros Hnil. rewrite Hnil in Hempty. discriminate.
Qed.

(** X8. The two lists [get_valid_loops] returns are parallel.  They have the
    same length; each loop is a slice of the melody that holds a sounded
    note and starts with a note on a bar; and the pair stored beside it
    holds the start ticks of the notes at the two bounds of that slice. *)
Theorem get_valid_loops_parallel_lists (melody_seq : list MelodyNote)
    (corr_mat : matrix Z) (corr_dur : matrix Q) (min_len : Z)
    (min_beats max_beats min_rep_beats : Q)
    (loops : list (list MelodyNote)) (loop_bp : list (Z * Z)) :
  get_valid_loops melody_seq corr_mat corr_dur min_len min_beats max_beats
    min_rep_beats = Ok (loops, loop_bp) ->
  length loops = length loop_bp /\
  Forall2 (loop_entry melody_seq) loops loop_bp.
Proof.
  unfold get_valid_loops. intros Hrun.
  apply bind_Ok in Hrun as (valid & _ & Hrun).
  assert (Hall : Forall2 (loop_entry melody_seq) loops loop_bp).
  { apply (foldM_inv
             (fun st => Forall2 (loop_entry melody_seq) st.1 st.2)
             (loop_step melody_seq corr_mat corr_dur min_rep_beats)
             valid) in Hrun; [exact Hrun| |constructor].
    intros s a s' _. apply loop_step_keeps_entries. }
  split; [|exact Hall]. eapply Forall2_length, Hall.
Qed.

Lemma get_valid_loops_parallel_lists_witness :
  length [py_slice riff_three_times 0 4] = length [(0, 15360)%Z] /\
  Forall2 (loop_entry riff_three_times)
          [py_slice riff_three_times 0 4] [(0, 15360)%Z].
Proof.
  apply (get_valid_loops_parallel_lists riff_three_times
           riff_correlation.1 riff_correlation.2 4 16 32 4).
  vm_compute; reflexivity.
Defined.

Lemma np_where_eq_cell (m : matrix Z) (v : Z) (x y : nat) :
  In (x, y) (np_where_eq m v) <-> mat_get m x y = Ok v.
Proof.
  unfold np_where_eq, mat_get, py_index. rewrite in_flat_map. split.
  - intros ([x' row] & Hrow & Hin).
    apply list_elem_of_In, elem_of_lookup_imap in Hrow
      as (i & r & Heq & Hlook). inversion Heq; subst x' row.
    apply in_flat_map in Hin as ([y' c] & Hc & Hin).
    apply list_elem_of_In, elem_of_lookup_imap in Hc
      as (j & c' & Heq' & Hlook'). inversion Heq'; subst y' c.
    destruct (c' =? v)%Z eqn:Hv; [|destruct Hin].
    apply Z.eqb_eq in Hv. destruct Hin as [Heq2|[]].
    inversion Heq2; subst. rewrite Hlook. cbn [bind]. now rewrite Hlook'.
  - intros Hget.
    destruct (m !! x) as [row|] eqn:Hrow; [|discriminate]. cbn [bind] in Hget.
    destruct (row !! y) as [c|] eqn:Hc; [|discriminate].
    inversion Hget; subst c.
    exists (x, row). split.
    + apply list_elem_of_In, elem_of_lookup_imap. eauto.
    + apply in_flat_map. exists (y, v). split.
      * apply list_elem_of_In, elem_of_lookup_imap. eauto.
      * rewrite Z.eqb_refl. now left.
Qed.

Lemma py_get_in_range {A : Type} (l : list A) (i : Z) :
  (0 <= i < Z.of_nat (length l))%Z -> exists a, py_get l i = Ok a.
Proof.
  intros Hi. unfold py_get.
  replace (0 <=? i)%Z with true by (symmetry; apply Z.leb_le; lia).
  destruct (py_index_lt l (Z.to_nat i)) as (a & Ha & _); [lia|]. eauto.
Qed.

Section ValidLoops.
Variable melody_seq : list MelodyNote.
Variable corr_mat : matrix Z.
Variable corr_dur : matrix Q.
Hypothesis corr_mat_wf : mat_wf (length melody_seq) corr_mat.
Hypothesis corr_dur_wf : mat_wf (length melody_seq) corr_dur.
Hypothesis corr_cells :
  forall i j,
    i < length melody_seq -> j < length melody_seq ->
    mat_get corr_mat i j
    = Ok (if i <? j then run_length melody_seq i j else 0%Z) /\
    mat_get corr_dur i j
    = Ok (if i <? j then run_duration melody_seq i j else 0%Q).

Lemma live_cell_get (x y : nat) :
  live_cell melody_seq (x, y) ->
  mat_get corr_mat x y = Ok (run_length melody_seq x y) /\
  mat_get corr_dur x y = Ok (run_duration melody_seq x y).
Proof.
  intros (Hxy & Hy & _). cbn [fst snd] in *.
  destruct (corr_cells x y) as [H1 H2]; [lia..|].
  replace (x <? y) with true in H1, H2 by (symmetry; apply Nat.ltb_lt; lia).
  auto.
Qed.

Lemma positive_cell_is_live (x y : nat) (k : Z) :
  mat_get corr_mat x y = Ok k -> (0 < k)%Z ->
  live_cell melody_seq (x, y) /\ k = run_length melody_seq x y.
Proof.
  intros Hget Hk.
  destruct (mat_get_in_range _ _ _ _ _ corr_mat_wf Hget) as [Hx Hy].
  destruct (corr_cells x y Hx Hy) as [H1 _]. rewrite H1 in Hget.
  destruct (x <? y) eqn:Hxy; inversion Hget; subst k; [|lia].
  apply Nat.ltb_lt in Hxy. repeat split; auto.
Qed.

Lemma seed_step_runs (min_beats max_beats : Q) (valid : list (nat * nat))
    (x y : nat) (min_len : Z) :
  (0 < min_len)%Z ->
  mat_get corr_mat x y = Ok min_len ->
  Forall (live_cell melody_seq) valid ->
  exists valid',
    seed_step melody_seq corr_mat min_beats max_beats valid (x, y)
    = Ok valid' /\
    Forall (live_cell melody_seq) valid'.
Proof.
  intros Hpos Hget Hvalid.
  destruct (positive_cell_is_live x y min_len Hget Hpos) as [Hlive Hk].
  pose proof (run_length_bounds melody_seq x y) as Hb.
  destruct Hlive as (Hxy & Hy & Hrun). cbn [fst snd] in *.
  unfold seed_step. rewrite Hget. cbn [bind].
  destruct (py_get_in_range melody_seq (Z.of_nat x - min_len + 1))
    as (first & ->); [lia|].
  destruct (py_get_in_range melody_seq (Z.of_nat y - min_len + 1))
    as (second & ->); [lia|].
  cbn [bind].
  destruct (_ && _); eexists; (split; [reflexivity|]); [|assumption].
  apply Forall_app. split; [assumption|]. constructor; [|constructor].
  repeat split; cbn [fst snd]; auto.
Qed.

Lemma extend_run_runs (fuel : nat) :
  forall x y,
    live_cell melody_seq (x, y) ->
    exists x' y',
      extend_run corr_mat (length corr_mat) fuel x y = Ok (x', y') /\
      live_cell melody_seq (x', y').
Proof.
  destruct corr_mat_wf as [Hlen _].
  induction fuel as [|fuel IH]; intros x y Hlive; cbn [extend_run];
    [eauto|].
  destruct ((x + 1 <? length corr_mat) && (y + 1 <? length corr_mat))
    eqn:Hguard; [|eauto].
  apply andb_prop in Hguard as [Hx Hy].
  apply Nat.ltb_lt in Hx, Hy. rewrite Hlen in Hx, Hy.
  destruct Hlive as (Hxy & Hylt & Hrun). cbn [fst snd] in *.
  destruct (corr_cells (x + 1) (y + 1)) as [Hnext _]; [lia..|].
  destruct (corr_cells x y) as [Hhere _]; [lia..|].
  replace (x + 1 <? y + 1) with true in Hnext
    by (symmetry; apply Nat.ltb_lt; lia).
  replace (x <? y) with true in Hhere by (symmetry; apply Nat.ltb_lt; lia).
  rewrite Hnext, Hhere. cbn [bind].
  destruct (_ <? _)%Z eqn:Hlt;
    [|exists x, y; repeat split; cbn [fst snd]; auto].
  apply Z.ltb_lt in Hlt. apply IH. repeat split; cbn [fst snd]; lia.
Qed.

Lemma insert_loop_runs (beginning end_ : Z)
    (loops : list (list MelodyNote)) (loop_bp : list (Z * Z)) :
  (0 <= beginning < Z.of_nat (length melody_seq))%Z ->
  (0 <= end_ < Z.of_nat (length melody_seq))%Z ->
  length loops = length loop_bp ->
  exists st', insert_loop melody_seq beginning end_ loops loop_bp = Ok st'.
Proof.
  intros Hb He Hlen. unfold insert_loop.
  destruct (test_loop_exists_from_spec
              (py_slice melody_seq beginning end_) loops 0)
    as (r & Hr & Hspec).
  unfold test_loop_exists. rewrite Hr. cbn [bind].
  destruct (py_get_in_range melody_seq beginning Hb) as (first & ->).
  destruct (py_get_in_range melody_seq end_ He) as (last_ & ->).
  destruct r as [idx|]; cbn [bind]; [|eauto].
  destruct (0 <? idx)%Z eqn:Hidx; [|eauto]. apply Z.ltb_lt in Hidx.
  destruct Hspec as (k & pat & Hk & _ & _ & Hidx').
  apply lookup_lt_Some in Hk.
  assert (Hrange : (0 <= idx < Z.of_nat (length loops))%Z).
  { destruct (_ <? _); lia. }
  unfold py_set.
  replace (0 <=? idx)%Z with true by (symmetry; apply Z.leb_le; lia).
  replace (idx <? Z.of_nat (length loops))%Z with true
    by (symmetry; apply Z.ltb_lt; lia).
  cbn [andb bind]. rewrite <- Hlen.
  replace (idx <? Z.of_nat (length loops))%Z with true
    by (symmetry; apply Z.ltb_lt; lia).
  cbn [bind]. eauto.
Qed.

Lemma loop_step_runs (min_rep_beats : Q)
    (st : list (list MelodyNote) * list (Z * Z)) (seed : nat * nat) :
  live_cell melody_seq seed ->
  length st.1 = length st.2 ->
  exists st',
    loop_step melody_seq corr_mat corr_dur min_rep_beats st seed = Ok st'.
Proof.
  intros Hlive Hlen. unfold loop_step. destruct seed as [x0 y0].
  cbn [fst snd].
  destruct (extend_run_runs (length corr_mat) x0 y0 Hlive)
    as (x & y & -> & Hlive').
  cbn [bind].
  destruct (live_cell_get x y Hlive') as [-> ->]. cbn [bind].
  destruct Hlive' as (Hxy & Hy & Hrun). cbn [fst snd] in *.
  pose proof (run_length_bounds melody_seq x y) as Hb.
  destruct (Qle_bool _ _); [|eauto].
  destruct (py_get_in_range melody_seq
              (Z.of_nat x - run_length melody_seq x y + 1))
    as (first & ->); [lia|].
  cbn [bind]. destruct (on_bar first); [|eauto].
  destruct (negb _); [|eauto].
  apply insert_loop_runs; [lia|lia|assumption].
Qed.
End ValidLoops.

(** X9. On the matrices that [calc_correlation] builds, [get_valid_loops]
    never raises for a minimum run length of at least 1: every index it
    computes lies inside the melody, and every replacement index inside
    the two result lists.  For a negative minimum run length no cell
    matches and the result is empty. *)
Theorem get_valid_loops_returns (track_list : list (list MelodyNote))
    (instrument : Z) (corr_mat : matrix Z) (corr_dur : matrix Q)
    (melody_seq : list MelodyNote) (min_len : Z)
    (min_beats max_beats min_rep_beats : Q) :
  calc_correlation track_list instrument
  = Ok (corr_mat, corr_dur, melody_seq) ->
  min_len <> 0%Z ->
  (exists loops loop_bp,
     get_valid_loops melody_seq corr_mat corr_dur min_len min_beats
       max_beats min_rep_beats = Ok (loops, loop_bp)) /\
  ((min_len < 0)%Z ->
   get_valid_loops melody_seq corr_mat corr_dur min_len min_beats
     max_beats min_rep_beats = Ok ([], [])).
Proof.
  intros Hcorr Hne.
  destruct (calc_correlation_cells _ _ _ _ _ Hcorr) as (Hw1 & Hw2 & Hcells).
  assert (Hneg : (min_len < 0)%Z -> np_where_eq corr_mat min_len = []).
  { intros Hlt. destruct (np_where_eq corr_mat min_len) as [|[x y] l] eqn:E;
      [reflexivity|exfalso].
    assert (Hin : In (x, y) (np_where_eq corr_mat min_len))
      by (rewrite E; now left).
    apply np_where_eq_cell in Hin.
    destruct (mat_get_in_range _ _ _ _ _ Hw1 Hin) as [Hx Hy].
    destruct (Hcells x y Hx Hy) as [H1 _]. rewrite H1 in Hin.
    pose proof (run_length_bounds melody_seq x y).
    destruct (x <? y); inversion Hin; lia. }
  split.
  - unfold get_valid_loops.
    destruct (Z_lt_le_dec min_len 0) as [Hlt|Hge].
    { rewrite (Hneg Hlt). cbn. eauto. }
    destruct (foldM_run (Forall (live_cell melody_seq))
                (seed_step melody_seq corr_mat min_beats max_beats)
                (np_where_eq corr_mat min_len)) with (s := @nil (nat * nat))
      as (valid & -> & Hvalid); [|constructor|].
    + intros s [x y] Hin Hs. apply np_where_eq_cell in Hin.
      apply (seed_step_runs melody_seq corr_mat corr_dur Hw1 Hcells
               _ _ _ _ _ min_len);
        [lia|assumption|assumption].
    + cbn [bind].
      destruct (foldM_run
                  (fun st => Forall2 (loop_entry melody_seq) st.1 st.2)
                  (loop_step melody_seq corr_mat corr_dur min_rep_beats)
                  valid) with (s := (@nil (list MelodyNote), @nil (Z * Z)))
        as ([loops bp] & Hrun & _); [|constructor|eauto].
      intros s seed Hin Hs.
      rewrite Forall_forall in Hvalid.
      destruct (loop_step_runs melody_seq corr_mat corr_dur Hw1 Hcells
                  min_rep_beats s seed) as [s' Hs'];
        [apply Hvalid, list_elem_of_In, Hin
        |eapply Forall2_length, Hs|].
      exists s'. split; [assumption|].
      eapply loop_step_keeps_entries; eassumption.
  - intros Hlt. unfold get_valid_loops. rewrite (Hneg Hlt). reflexivity.
Qed.

Lemma get_valid_loops_returns_witness :
  (exists loops loop_bp,
     get_valid_loops riff_three_times riff_correlation.1 riff_correlation.2
       4 16 32 4 = Ok (loops, loop_bp)) /\
  ((4 < 0)%Z ->
   get_valid_loops riff_three_times riff_correlation.1 riff_correlation.2
     4 16 32 4 = Ok ([], [])).
Proof.
  apply (get_valid_loops_returns [riff_three_times] 0%Z).
  - vm_compute; reflexivity.
  - lia.
Defined.

(** A loop in which one body always raises [e], and the others return or
    raise [e], raises [e]. *)
Lemma foldM_raises {A St : Type} (body : St -> A -> result St) (e : exn)
    (l : list A) (a0 : A) :
  (forall s a, (exists s', body s a = Ok s') \/ body s a = Raise e) ->
  In a0 l ->
  (forall s, body s a0 = Raise e) ->
  forall s, foldM body l s = Raise e.
Proof.
  intros Hbody Hin Hraise. induction l as [|a l IH]; [destruct Hin|].
  intros s. simpl. destruct Hin as [->|Hin].
  - now rewrite Hraise.
  - destruct (Hbody s a) as [[s' ->]| ->]; [|reflexivity].
    cbn [bind]. now apply IH.
Qed.

Lemma py_index_outcome {A : Type} (l : list A) (i : nat) :
  (exists a, py_index l i = Ok a) \/ py_index l i = Raise IndexError.
Proof. unfold py_index. destruct (l !! i); eauto. Qed.

Lemma py_get_outcome {A : Type} (l : list A) (i : Z) :
  (exists a, py_get l i = Ok a) \/ py_get l i = Raise IndexError.
Proof.
  unfold py_get. destruct (0 <=? i)%Z; [apply py_index_outcome|].
  destruct (0 <=? i + Z.of_nat (length l))%Z; [apply py_index_outcome|].
  now right.
Qed.

Lemma seed_step_outcome (melody_seq : list MelodyNote) (corr_mat : matrix Z)
    (min_beats max_beats : Q) (valid : list (nat * nat)) (seed : nat * nat) :
  (exists valid',
     seed_step melody_seq corr_mat min_beats max_beats valid seed
     = Ok valid') \/
  seed_step melody_seq corr_mat min_beats max_beats valid seed
  = Raise IndexError.
Proof.
  unfold seed_step, mat_get. destruct seed as [x y].
  destruct (py_index_outcome corr_mat x) as [[row ->]| ->]; [|now right].
  cbn [bind].
  destruct (py_index_outcome row y) as [[k ->]| ->]; [|now right].
  cbn [bind].
  destruct (py_get_outcome melody_seq (Z.of_nat x - k + 1))
    as [[first ->]| ->]; [|now right].
  cbn [bind].
  destruct (py_get_outcome melody_seq (Z.of_nat y - k + 1))
    as [[second ->]| ->]; [|now right].
  cbn [bind]. destruct (_ && _); eauto.
Qed.

(** X10. With a minimum run length of 0 the cells on and below the diagonal are
    seeds too, and the seed in the last row leads one position past the
    end of the melody: on the matrices of a non-empty melody
    [get_valid_loops] raises an index error. *)
Theorem get_valid_loops_min_len_zero (track_list : list (list MelodyNote))
    (instrument : Z) (corr_mat : matrix Z) (corr_dur : matrix Q)
    (melody_seq : list MelodyNote) (min_beats max_beats min_rep_beats : Q) :
  calc_correlation track_list instrument
  = Ok (corr_mat, corr_dur, melody_seq) ->
  melody_seq <> [] ->
  get_valid_loops melody_seq corr_mat corr_dur 0 min_beats max_beats
    min_rep_beats = Raise IndexError.
Proof.
  intros Hcorr Hne.
  destruct (calc_correlation_cells _ _ _ _ _ Hcorr) as (Hw1 & _ & Hcells).
  assert (Hlen : 0 < length melody_seq)
    by (destruct melody_seq; [congruence|simpl; lia]).
  set (x := length melody_seq - 1).
  destruct (Hcells x 0) as [Hget _]; [subst x; lia..|].
  replace (x <? 0) with false in Hget by (symmetry; apply Nat.ltb_ge; lia).
  unfold get_valid_loops.
  rewrite (foldM_raises _ IndexError _ (x, 0)); [reflexivity| | |].
  - intros s a. apply seed_step_outcome.
  - now apply np_where_eq_cell.
  - intros s. unfold seed_step. rewrite Hget. cbn [bind].
    replace (Z.of_nat x - 0 + 1)%Z with (Z.of_nat (length melody_seq))
      by (subst x; lia).
    unfold py_get, py_index.
    replace (0 <=? Z.of_nat (length melody_seq))%Z with true
      by (symmetry; apply Z.leb_le; lia).
    rewrite Nat2Z.id, lookup_ge_None_2 by lia. reflexivity.
Qed.

Lemma get_valid_loops_min_len_zero_witness :
  get_valid_loops riff_three_times riff_correlation.1 riff_correlation.2
    0 16 32 4 = Raise IndexError.
Proof.
  apply (get_valid_loops_min_len_zero [riff_three_times] 0%Z).
  - vm_compute; reflexivity.
  - discriminate.
Defined.

(** ** More on filter_loops_density *)

Section DensityFilterMore.
Variable token_list : list string.
Variable density : Q.

Local Abbreviation body :=
  (fun (final_endpoints : list (Z * Z)) (pts : Z * Z) =>
     let* keep := window_kept token_list density pts in
     Ok (if keep then final_endpoints ++ [pts] else final_endpoints)).

Lemma filter_fold_exact (loop_bp : list (Z * Z)) :
  forall acc r,
    foldM body loop_bp acc = Ok r <->
    Forall (fun pts => exists b, window_kept token_list density pts = Ok b)
           loop_bp /\
    r = acc ++ List.filter (window_passes token_list density) loop_bp.
Proof.
  induction loop_bp as [|pts l IH]; intros acc r.
  - simpl. rewrite app_nil_r. split.
    + intros H. inversion H. split; [constructor|reflexivity].
    + intros [_ ->]. reflexivity.
  - cbn [foldM List.filter].
    destruct (window_kept token_list density pts) as [b|e] eqn:Hk;
      cbn [bind].
    + assert (Hp : window_passes token_list density pts = b)
        by (unfold window_passes; rewrite Hk; now destruct b).
      rewrite Hp, IH. split.
      * intros [Hall ->]. split; [constructor; eauto|].
        destruct b; [now rewrite <- app_assoc|reflexivity].
      * intros [Hall ->]. apply Forall_cons in Hall as [_ Hall].
        split; [assumption|].
        destruct b; [now rewrite <- app_assoc|reflexivity].
    + split; [discriminate|]. intros [Hall _].
      apply Forall_cons in Hall as [[b Hb] _]. congruence.
Qed.
End DensityFilterMore.

(** The early return for an empty list agrees with the loop. *)
Lemma filter_loops_density_as_fold (token_list : list string)
    (loop_bp : list (Z * Z)) (density : Q) :
  filter_loops_density token_list loop_bp density
  = foldM (fun final_endpoints pts =>
             let* keep := window_kept token_list density pts in
             Ok (if keep then final_endpoints ++ [pts] else final_endpoints))
          loop_bp [].
Proof. unfold filter_loops_density. now destruct loop_bp. Qed.

(** X11. [filter_loops_density] returns exactly when no window's test raises,
    and then it returns, in their order, the windows whose test passes. *)
Theorem filter_loops_density_keeps_passing_windows
    (token_list : list string) (loop_bp kept : list (Z * Z)) (density : Q) :
  filter_loops_density token_list loop_bp density = Ok kept <->
  Forall (fun pts => exists b, window_kept token_list density pts = Ok b)
         loop_bp /\
  kept = List.filter (window_passes token_list density) loop_bp.
Proof.
  rewrite filter_loops_density_as_fold.
  apply (filter_fold_exact token_list density loop_bp [] kept).
Qed.

Lemma density_scan_measures (pts : Z * Z) (token_list : list string) :
  forall st r,
    density_scan pts token_list st = Ok r ->
    (0 <= num_meas st)%Z -> (0 <= num_meas r)%Z.
Proof.
  induction token_list as [|t l IH]; intros st r Hrun Hst; simpl in Hrun.
  - now inversion Hrun; subst.
  - apply bind_Ok in Hrun as (ts & _ & Hrun).
    assert (Hm : (0 <= (if in_window pts (timestamp st)
                        then if String.eqb t "new_measure"
                             then num_meas st + 1 else num_meas st
                        else num_meas st))%Z).
    { destruct (in_window _ _); [destruct (String.eqb _ _)|]; lia. }
    destruct (pts.2 <=? ts)%Z.
    + inversion Hrun; subst. exact Hm.
    + apply (IH _ _ Hrun). exact Hm.
Qed.

Lemma window_passes_lower_density (token_list : list string)
    (density density' : Q) (pts : Z * Z) :
  (density' <= density)%Q ->
  window_passes token_list density pts = true ->
  window_passes token_list density' pts = true.
Proof.
  intros Hle. unfold window_passes, window_kept.
  destruct (density_scan pts token_list (mkDensity 0 0 ∅)) as [st|e] eqn:Hscan;
    cbn [bind]; [|discriminate].
  destruct (note_density (num_notes st)) as [cd|e]; cbn [bind];
    [|discriminate].
  unfold density_passes.
  destruct (Qle_bool (density * inject_Z (num_meas st)) cd) eqn:Hpass;
    [|discriminate].
  intros _. apply Qle_bool_iff in Hpass.
  assert (Hm : (0 <= num_meas st)%Z)
    by (apply (density_scan_measures _ _ _ _ Hscan); simpl; lia).
  assert (Hpass' : Qle_bool (density' * inject_Z (num_meas st)) cd = true).
  { apply Qle_bool_iff. eapply Qle_trans; [|exact Hpass].
    apply Qmult_le_compat_r; [assumption|].
    change 0%Q with (inject_Z 0). now rewrite <- Zle_Qle. }
  now rewrite Hpass'.
Qed.

(** X12. Filtering with a lower threshold first loses nothing: when the filter
    returns at threshold [density], it also returns at any lower threshold
    [density'], and filtering that result at [density] gives the same
    windows as filtering the original list at [density]. *)
Theorem filter_loops_density_lower_threshold_first
    (token_list : list string) (loop_bp kept : list (Z * Z))
    (density density' : Q) :
  filter_loops_density token_list loop_bp density = Ok kept ->
  (density' <= density)%Q ->
  exists kept',
    filter_loops_density token_list loop_bp density' = Ok kept' /\
    filter_loops_density token_list kept' density = Ok kept.
Proof.
  intros Hrun Hle. rewrite filter_loops_density_as_fold in Hrun.
  apply filter_fold_exact in Hrun as [Hall ->]. cbn [app].
  exists (List.filter (window_passes token_list density') loop_bp).
  assert (Hraise : forall d d' pts,
            (exists b, window_kept token_list d pts = Ok b) ->
            exists b, window_kept token_list d' pts = Ok b).
  { intros d d' pts [b Hb]. unfold window_kept in *.
    destruct (density_scan _ _ _); [|discriminate]. cbn [bind] in *.
    destruct (note_density _); [|discriminate]. cbn [bind]. eauto. }
  split; rewrite filter_loops_density_as_fold; apply filter_fold_exact.
  - split; [|reflexivity].
    eapply Forall_impl; [exact Hall|]. intros pts. apply Hraise.
  - split.
    + apply Forall_forall. intros pts Hin.
      apply list_elem_of_In, filter_In in Hin as [Hin _].
      rewrite Forall_forall in Hall. apply Hall, list_elem_of_In, Hin.
    + cbn [app]. symmetry. apply filter_filter_implied. intros pts _.
      now apply window_passes_lower_density.
Qed.

Lemma filter_loops_density_lower_threshold_first_witness :
  exists kept',
    filter_loops_density stream_three_measures
      [(0, 960)%Z; (960, 1920)%Z; (1920, 2880)%Z] 3%Q = Ok kept' /\
    filter_loops_density stream_three_measures kept' 4%Q
    = Ok [(960, 1920)%Z; (1920, 2880)%Z].
Proof.
  apply (filter_loops_density_lower_threshold_first stream_three_measures
           [(0, 960)%Z; (960, 1920)%Z; (1920, 2880)%Z]
           [(960, 1920)%Z; (1920, 2880)%Z] 4%Q 3%Q).
  - vm_compute; reflexivity.
  - vm_compute. discriminate.
Defined.

(** The scan of a window stops at the token on which the clock reaches the
    end tick: what follows in the stream is not read. *)
Lemma density_scan_stops (pts : Z * Z) (l1 l2 : list string) :
  forall st r,
    l1 <> [] ->
    density_scan pts l1 st = Ok r ->
    (pts.2 <= timestamp r)%Z ->
    density_scan pts (l1 ++ l2) st = Ok r.
Proof.
  induction l1 as [|t l IH]; intros st r Hne Hrun Hend; [congruence|].
  cbn [app density_scan] in *.
  apply bind_Ok in Hrun as (ts & Hts & Hrun). rewrite Hts. cbn [bind].
  destruct (pts.2 <=? ts)%Z eqn:Hbreak; [exact Hrun|].
  destruct l as [|t' l'].
  - cbn [density_scan] in Hrun. inversion Hrun; subst r.
    cbn [timestamp] in Hend. apply Z.leb_gt in Hbreak. lia.
  - apply IH; [discriminate|assumption|assumption].
Qed.

(** X13. The decision on a window does not depend on the tokens that follow the
    one on which the clock reaches the window's end, so a malformed
    [wait:] token after that point cannot make the test raise. *)
Theorem window_ignores_tokens_after_its_end (pts : Z * Z)
    (l1 l2 : list string) (density : Q) (r : density_state) :
  l1 <> [] ->
  density_scan pts l1 (mkDensity 0%Z 0%Z ∅) = Ok r ->
  (pts.2 <= timestamp r)%Z ->
  window_kept (l1 ++ l2) density pts = window_kept l1 density pts.
Proof.
  intros Hne Hrun Hend. unfold window_kept.
  now rewrite (density_scan_stops pts l1 l2 _ r Hne Hrun Hend), Hrun.
Qed.

Lemma window_ignores_tokens_after_its_end_witness :
  window_kept (stream_of_rests ++ ["wait:soon"]) 3%Q (0, 960)%Z
  = window_kept stream_of_rests 3%Q (0, 960)%Z.
Proof.
  apply (window_ignores_tokens_after_its_end (0, 960)%Z stream_of_rests
           ["wait:soon"] 3%Q (mkDensity 1%Z 960%Z ∅)).
  - discriminate.
  - vm_compute; reflexivity.
  - simpl. lia.
Defined.

(** ** More on unify_loops *)

Lemma unify_density_scan_whole_stream (pts : Z * Z)
    (token_list : list string) :
  (0 < pts.2)%Z ->
  forall st,
    timestamp st = 0%Z ->
    unify_density_scan pts token_list st
    = mkDensity (num_meas st + if (pts.1 <=? 0)%Z
                               then count_measures token_list else 0)%Z
                0%Z (count_all_notes token_list (num_notes st)).
Proof.
  intros Hend. unfold count_measures.
  induction token_list as [|t l IH]; intros st Hts;
    cbn [unify_density_scan count_all_notes fold_left List.filter].
  - destruct st as [m ts n]. cbn in *. subst ts. f_equal.
    destruct (pts.1 <=? 0)%Z; simpl; lia.
  - rewrite Hts.
    replace (pts.2 <=? 0)%Z with false by (symmetry; apply Z.leb_gt; lia).
    rewrite IH by reflexivity. cbn [num_meas num_notes].
    unfold in_window.
    replace (0 <? pts.2)%Z with true by (symmetry; apply Z.ltb_lt; lia).
    rewrite andb_true_r. f_equal.
    destruct (pts.1 <=? 0)%Z; [|lia].
    destruct (String.eqb t "new_measure"); cbn [length]; lia.
Qed.

(** X14. The density test of [unify_loops] never advances its clock.  For a
    window with a positive end tick it therefore reads the whole stream:
    it counts the notes of every token, and the measures of the whole
    stream when the start tick is not positive, none otherwise. *)
Theorem unify_density_is_of_the_whole_stream (pts : Z * Z)
    (token_list : list string) :
  (0 < pts.2)%Z ->
  unify_density_scan pts token_list (mkDensity 0%Z 0%Z ∅)
  = mkDensity (if (pts.1 <=? 0)%Z then count_measures token_list else 0%Z)
              0%Z (count_all_notes token_list ∅).
Proof.
  intros Hend.
  now rewrite unify_density_scan_whole_stream by (assumption || reflexivity).
Qed.

Lemma unify_density_is_of_the_whole_stream_witness :
  unify_density_scan (960, 1920)%Z stream_three_measures
    (mkDensity 0%Z 0%Z ∅)
  = mkDensity (if (960 <=? 0)%Z then count_measures stream_three_measures
               else 0%Z)
              0%Z (count_all_notes stream_three_measures ∅).
Proof.
  apply (unify_density_is_of_the_whole_stream (960, 1920)%Z
           stream_three_measures).
  simpl. lia.
Defined.

Lemma count_note_positive (instrument : string) (d : gmap string Z) :
  map_Forall (fun _ c => (1 <= c)%Z) d ->
  map_Forall (fun _ c => (1 <= c)%Z) (count_note instrument d).
Proof.
  intros Hd. unfold count_note.
  destruct (d !! instrument) as [c|] eqn:Hc.
  - apply map_Forall_insert_2; [|assumption].
    specialize (Hd _ _ Hc). simpl in Hd. lia.
  - apply map_Forall_insert_2; [lia|assumption].
Qed.

Lemma total_notes_nonneg (d : gmap string Z) :
  map_Forall (fun _ c => (1 <= c)%Z) d -> (0 <= total_notes d)%Z.
Proof.
  unfold total_notes.
  apply (map_fold_weak_ind
           (fun r m => map_Forall (fun _ c => (1 <= c)%Z) m -> (0 <= r)%Z)).
  - intros _. lia.
  - intros i x m r Hnone IH Hall.
    apply map_Forall_insert in Hall as [Hx Hm]; [|assumption].
    specialize (IH Hm). lia.
Qed.

Lemma note_density_nonneg (d : gmap string Z) (q : Q) :
  map_Forall (fun _ c => (1 <= c)%Z) d ->
  note_density d = Ok q -> (0 <= q)%Q.
Proof.
  intros Hd. unfold note_density.
  destruct (size d =? 0) eqn:Hsize; [discriminate|].
  apply Nat.eqb_neq in Hsize. intros Hq. inversion Hq; subst q.
  pose proof (total_notes_nonneg d Hd) as Htot.
  apply Qle_shift_div_l.
  - change 0%Q with (inject_Z 0). rewrite <- Zlt_Qlt. lia.
  - rewrite Qmult_0_l. change 0%Q with (inject_Z 0). now rewrite <- Zle_Qle.
Qed.

Lemma unify_density_scan_counts (pts : Z * Z) (token_list : list string) :
  forall st,
    map_Forall (fun _ c => (1 <= c)%Z) (num_notes st) ->
    map_Forall (fun _ c => (1 <= c)%Z)
               (num_notes (unify_density_scan pts token_list st)).
Proof.
  induction token_list as [|t l IH]; intros st Hst;
    cbn [unify_density_scan]; [assumption|].
  assert (Hn : map_Forall (fun _ c => (1 <= c)%Z)
                 (if contains "note" t
                  then count_note (split_head t) (num_notes st)
                  else num_notes st)).
  { destruct (contains "note" t); [now apply count_note_positive|assumption]. }
  destruct (pts.2 <=? timestamp st)%Z; [exact Hn|]. apply IH. exact Hn.
Qed.

Lemma unify_density_scan_no_measure (pts : Z * Z) (token_list : list string) :
  (0 < pts.1)%Z ->
  forall st,
    timestamp st = 0%Z ->
    num_meas (unify_density_scan pts token_list st) = num_meas st.
Proof.
  intros Hstart.
  induction token_list as [|t l IH]; intros st Hts;
    cbn [unify_density_scan]; [reflexivity|].
  rewrite Hts. unfold in_window.
  replace (pts.1 <=? 0)%Z with false by (symmetry; apply Z.leb_gt; lia).
  cbn [andb]. destruct (pts.2 <=? 0)%Z; [reflexivity|].
  now rewrite IH.
Qed.

(** X15. Because its clock stays at 0, the density test of [unify_loops] counts
    no measure for a window that starts at a positive tick, and such a
    window is never skipped, whatever the threshold. *)
Theorem unify_loops_keeps_windows_starting_later (token_list : list string)
    (density : Q) (pts : Z * Z) :
  (0 < pts.1)%Z ->
  num_meas (unify_density_scan pts token_list (mkDensity 0%Z 0%Z ∅)) = 0%Z /\
  unify_rejects token_list density pts = false.
Proof.
  intros Hstart.
  assert (Hm : num_meas (unify_density_scan pts token_list
                           (mkDensity 0%Z 0%Z ∅)) = 0%Z)
    by now rewrite unify_density_scan_no_measure.
  split; [exact Hm|]. unfold unify_rejects. rewrite Hm.
  destruct (note_density _) as [q|e] eqn:Hq; [|reflexivity].
  apply note_density_nonneg in Hq;
    [|apply unify_density_scan_counts, map_Forall_empty].
  unfold Qlt_bool. apply negb_false_iff, Qle_bool_iff.
  now rewrite Qmult_0_r.
Qed.

Lemma unify_loops_keeps_windows_starting_later_witness :
  num_meas (unify_density_scan (960, 1920)%Z stream_three_measures
              (mkDensity 0%Z 0%Z ∅)) = 0%Z /\
  unify_rejects stream_three_measures 1000%Q (960, 1920)%Z = false.
Proof.
  apply (unify_loops_keeps_windows_starting_later stream_three_measures
           1000%Q (960, 1920)%Z).
  simpl. lia.
Defined.

Lemma unify_copy_scan_appends (token_list : list string) (pts : Z * Z)
    (meas : Z) (tokens : list string) :
  (forall t, In t tokens -> In t (drop 4 token_list)) ->
  forall st c,
    unify_copy_scan pts meas tokens st = Ok c ->
    exists more,
      final_list c = final_list st ++ more /\
      Forall (unified_token token_list) more.
Proof.
  induction tokens as [|t l IH]; intros Hsrc st c Hrun;
    cbn [unify_copy_scan] in Hrun.
  - inversion Hrun; subst. exists []. now rewrite app_nil_r.
  - set (st1 := if in_window pts (copy_timestamp st)
                   && negb (contains "repeat" t) then _ else st) in Hrun.
    assert (Hst1 : exists more,
               final_list st1 = final_list st ++ more /\
               Forall (unified_token token_list) more).
    { subst st1.
      destruct (in_window pts (copy_timestamp st)
                && negb (contains "repeat" t)) eqn:Hcopy.
      2:{ exists []. now rewrite app_nil_r. }
      apply andb_prop in Hcopy as [_ Hrep]. apply negb_true_iff in Hrep.
      assert (Ht : unified_token token_list t).
      { right. right. split; [apply Hsrc; now left|assumption]. }
      destruct (String.eqb t "new_measure"); cbn [final_list].
      - destruct (measure_idx st =? 0)%Z, (measure_idx st =? meas - 1)%Z;
          rewrite <- ?app_assoc; eexists; (split; [reflexivity|]);
          repeat (match goal with |- Forall _ _ => constructor end);
          first [exact Ht | unfold unified_token; auto].
      - exists [t]. split; [reflexivity|]. now constructor. }
    clearbody st1. destruct Hst1 as (more1 & Hmore1 & Hall1).
    apply bind_Ok in Hrun as (ts & _ & Hrun).
    destruct (pts.2 <=? ts)%Z.
    + inversion Hrun; subst c. cbn [final_list]. eauto.
    + apply IH in Hrun as (more2 & Hmore2 & Hall2);
        [|intros t' Ht'; apply Hsrc; now right].
      cbn [final_list] in Hmore2. exists (more1 ++ more2).
      rewrite Hmore2, Hmore1, <- app_assoc. split; [reflexivity|].
      now apply Forall_app.
Qed.

Lemma unify_window_appends (token_list : list string) (density : Q)
    (out out' : list string) (pts : Z * Z) :
  unify_window token_list density out pts = Ok out' ->
  exists more, out' = out ++ more /\ Forall (unified_token token_list) more.
Proof.
  unfold unify_window. intros Hrun.
  apply bind_Ok in Hrun as (cd & _ & Hrun).
  destruct (Qlt_bool _ _).
  - inversion Hrun; subst. exists []. now rewrite app_nil_r.
  - apply bind_Ok in Hrun as (c & Hcopy & Hret). inversion Hret; subst out'.
    apply (unify_copy_scan_appends token_list) in Hcopy; auto.
Qed.

Lemma unify_fold_appends (token_list : list string) (density : Q)
    (loop_bp : list (Z * Z)) :
  forall out out',
    foldM (unify_window token_list density) loop_bp out = Ok out' ->
    exists more, out' = out ++ more /\ Forall (unified_token token_list) more.
Proof.
  induction loop_bp as [|pts l IH]; intros out out' Hrun; simpl in Hrun.
  - inversion Hrun; subst. exists []. now rewrite app_nil_r.
  - apply bind_Ok in Hrun as (out1 & Hwin & Hrest).
    apply unify_window_appends in Hwin as (m1 & -> & H1).
    apply IH in Hrest as (m2 & -> & H2).
    exists (m1 ++ m2). rewrite <- app_assoc. split; [reflexivity|].
    now apply Forall_app.
Qed.

(** X16. Whatever [unify_loops] returns starts with the first four tokens of
    the stream.  Every token after them is one of the two markers the
    function writes or a token of the stream after the header that does
    not contain ["repeat"]: no repeat marker of the input is copied.  For
    an empty window list nothing follows the header; otherwise the output
    ends with ["measure:repeat_close:1"]. *)
Theorem unify_loops_output_shape (token_list : list string)
    (loop_bp : list (Z * Z)) (density : Q) (out : list string) :
  unify_loops token_list loop_bp density = Ok out ->
  exists more,
    out = take 4 token_list ++ more /\
    Forall (unified_token token_list) more /\
    (loop_bp = [] -> more = []) /\
    (loop_bp <> [] -> last out = Some "measure:repeat_close:1").
Proof.
  unfold unify_loops. intros Hrun.
  destruct loop_bp as [|pts l]; cbn [length Nat.eqb] in Hrun.
  - inversion Hrun; subst. exists []. rewrite app_nil_r.
    repeat split; auto. congruence.
  - apply bind_Ok in Hrun as (out1 & Hfold & Hret).
    inversion Hret; subst out.
    apply unify_fold_appends in Hfold as (more & -> & Hall).
    exists (more ++ ["measure:repeat_close:1"]).
    rewrite <- app_assoc. repeat split.
    + apply Forall_app. split; [assumption|].
      constructor; [|constructor]. unfold unified_token. auto.
    + discriminate.
    + intros _. rewrite app_assoc. apply last_snoc.
Qed.

Lemma unify_loops_output_shape_witness :
  exists more,
    header ++ ["new_measure"; "measure:repeat_open"; "clean0:note:s3:f5";
               "wait:960"; "measure:repeat_close:1"]
    = take 4 stream_three_measures ++ more /\
    Forall (unified_token stream_three_measures) more /\
    ([(960, 1920)%Z] = [] -> more = []) /\
    ([(960, 1920)%Z] <> [] ->
     last (header ++ ["new_measure"; "measure:repeat_open";
                      "clean0:note:s3:f5"; "wait:960";
                      "measure:repeat_close:1"])
     = Some "measure:repeat_close:1").
Proof.
  apply (unify_loops_output_shape stream_three_measures [(960, 1920)%Z] 3%Q).
  vm_compute; reflexivity.
Defined.

(** ** More on the repeat-bracket scan *)

Lemma region_tokens_of_stream (list_words : list string) (entry : nat * Z)
    (t : string) :
  In t (region_tokens list_words entry) -> In t list_words.
Proof.
  unfold region_tokens. intros Hin.
  apply list_elem_of_In in Hin. apply list_elem_of_In.
  apply (subseteq_drop entry.1), (subseteq_take _ _ _ Hin).
Qed.

(** X17. [get_repeats] and [get_num_repeats] return on every stream and for
    every setting of the filter: no index is out of range and no length is
    looked up that was not recorded.  The count is not negative, and
    every token [get_repeats] returns is a token of the stream. *)
Theorem get_repeats_never_raises (list_words : list string)
    (min_meas max_meas : Z) (density : Q) :
  exists out n,
    get_repeats list_words min_meas max_meas density = Ok out /\
    get_num_repeats list_words min_meas max_meas density = Ok n /\
    (0 <= n)%Z /\
    forall t, In t out -> In t list_words.
Proof.
  destruct (get_repeats_scan_total list_words) as [st Hscan].
  rewrite (get_repeats_spec _ _ _ _ st), (get_num_repeats_spec _ _ _ _ st)
    by exact Hscan.
  eexists _, _. repeat split; [lia|].
  intros t Hin. apply in_flat_map in Hin as (entry & _ & Hin).
  now apply region_tokens_of_stream in Hin.
Qed.

Lemma dict_set_elem_inv {V : Type} (k k' : nat) (v v' : V)
    (d : list (nat * V)) :
  (k', v') ∈ dict_set k v d -> (k', v') = (k, v) \/ (k', v') ∈ d.
Proof.
  induction d as [|[k0 v0] d IH]; simpl; [set_solver|].
  destruct (k =? k0); set_solver.
Qed.

Lemma get_repeats_step_no_close (list_words : list string) (i : nat)
    (st st' : scan_state) :
  Forall (fun t => contains "measure:repeat_close" t = false) list_words ->
  (forall k e, (k, e) ∈ endpoint_dict st -> e = (-1)%Z) ->
  get_repeats_step list_words st i = Ok st' ->
  forall k e, (k, e) ∈ endpoint_dict st' -> e = (-1)%Z.
Proof.
  intros Hno Hinv Hstep. unfold get_repeats_step in Hstep.
  rewrite Forall_forall in Hno.
  apply bind_Ok in Hstep as (t & _ & Hstep).
  destruct (String.eqb t "new_measure"); [|now inversion Hstep; subst].
  apply bind_Ok in Hstep as (t1 & Ht1 & Hstep).
  apply py_index_Ok, list_elem_of_lookup_2 in Ht1.
  rewrite (Hno t1 Ht1) in Hstep.
  apply bind_Ok in Hstep as (closing & Hclosing & Hstep).
  apply bind_Ok in Hclosing as (t2 & Ht2 & Hclosing).
  apply py_index_Ok, list_elem_of_lookup_2 in Ht2.
  rewrite (Hno t2 Ht2) in Hclosing. inversion Hclosing; subst closing.
  inversion Hstep; subst st'.
  destruct (String.eqb t1 "measure:repeat_open"); cbn [endpoint_dict];
    [|assumption].
  intros k e Hin. apply dict_set_elem_inv in Hin as [Heq|Hin];
    [congruence|eauto].
Qed.

(** X18. On a stream in which no token contains ["measure:repeat_close"], no
    region is ever closed: [get_repeats] returns the empty list and
    [get_num_repeats] returns 0, whatever the filter. *)
Theorem no_close_marker_no_repeats (list_words : list string)
    (min_meas max_meas : Z) (density : Q) :
  Forall (fun t => contains "measure:repeat_close" t = false) list_words ->
  get_repeats list_words min_meas max_meas density = Ok [] /\
  get_num_repeats list_words min_meas max_meas density = Ok 0%Z.
Proof.
  intros Hno.
  destruct (get_repeats_scan_total list_words) as [st Hscan].
  assert (Hopen : forall k e, (k, e) ∈ endpoint_dict st -> e = (-1)%Z).
  { apply (foldM_seq_inv
             (fun _ s => forall k e, (k, e) ∈ endpoint_dict s -> e = (-1)%Z)
             (get_repeats_step list_words) (length list_words - 2) 0
             scan_init st); [| |exact Hscan].
    - intros i s s' _. now apply get_repeats_step_no_close.
    - simpl. intros k e Hin. set_solver. }
  assert (Hnone : List.filter
                    (region_kept min_meas max_meas density (length_dict st))
                    (endpoint_dict st) = []).
  { induction (endpoint_dict st) as [|[k e] l IH]; [reflexivity|].
    simpl. unfold region_kept at 1. cbn [fst snd].
    rewrite (Hopen k e) by set_solver. simpl.
    apply IH. intros k' e' Hin. apply (Hopen k'). set_solver. }
  rewrite (get_repeats_spec _ _ _ _ st), (get_num_repeats_spec _ _ _ _ st)
    by exact Hscan.
  now rewrite Hnone.
Qed.

Lemma no_close_marker_no_repeats_witness :
  get_repeats stream_three_measures 1 4 0 = Ok [] /\
  get_num_repeats stream_three_measures 1 4 0 = Ok 0%Z.
Proof.
  apply (no_close_marker_no_repeats stream_three_measures 1 4 0).
  repeat constructor.
Defined.

Lemma get_repeats_step_lengths (list_words : list string) (i : nat)
    (st st' : scan_state) :
  lengths_positive st ->
  get_repeats_step list_words st i = Ok st' ->
  lengths_positive st'.
Proof.
  intros [Hcur Hrec] Hstep. unfold get_repeats_step in Hstep.
  apply bind_Ok in Hstep as (t & _ & Hstep).
  destruct (String.eqb t "new_measure");
    [|inversion Hstep; subst; now split].
  apply bind_Ok in Hstep as (t1 & _ & Hstep).
  set (opened := if String.eqb t1 "measure:repeat_open" then _ else _)
    in Hstep.
  assert (Hopened : (1 <= curr_length opened)%Z /\
                    length_dict opened = length_dict st).
  { subst opened. destruct (String.eqb t1 "measure:repeat_open");
      cbn [curr_length length_dict]; split; auto; lia. }
  clearbody opened. destruct Hopened as [Hone Hsame].
  assert (Hkeep : lengths_positive opened).
  { split; [lia|]. rewrite Hsame. exact Hrec. }
  assert (Hins : forall idx nd,
             lengths_positive
               (mkScan (dict_set idx (Z.of_nat i) (endpoint_dict opened))
                       (<[idx := (curr_length opened, nd)]>
                          (length_dict opened))
                       (removelast (open_reps opened))
                       (curr_length opened) (curr_notes opened)) /\
             lengths_positive
               (mkScan (dict_set idx (Z.of_nat i) (endpoint_dict opened))
                       (<[idx := (curr_length opened, nd)]>
                          (length_dict opened))
                       (open_reps opened)
                       (curr_length opened) (curr_notes opened))).
  { intros idx nd.
    assert (Hrec' : forall k len nd',
               <[idx := (curr_length opened, nd)]> (length_dict opened) !! k
               = Some (len, nd') -> (1 <= len)%Z).
    { intros k len nd' Hk.
      apply lookup_insert_Some in Hk as [[_ Heq]|[_ Hk]].
      - now inversion Heq; subst.
      - rewrite Hsame in Hk. eauto. }
    split; (split; [cbn [curr_length]; lia|exact Hrec']). }
  apply bind_Ok in Hstep as (closing & _ & Hstep).
  destruct closing; [|now inversion Hstep; subst].
  destruct (0 <? length (open_reps opened)).
  - destruct (last (open_reps opened)) as [idx|]; [|discriminate].
    inversion Hstep; subst st'. apply Hins.
  - destruct (length (endpoint_dict opened) =? 0);
      inversion Hstep; subst st'; [apply Hins|assumption].
Qed.

Lemma get_repeats_scan_lengths (list_words : list string) (st : scan_state) :
  get_repeats_scan list_words = Ok st -> lengths_positive st.
Proof.
  intros Hscan.
  apply (foldM_seq_inv (fun _ s => lengths_positive s)
           (get_repeats_step list_words) (length list_words - 2) 0
           scan_init st); [| |exact Hscan].
  - intros i s s' _. apply get_repeats_step_lengths.
  - split; [simpl; lia|]. intros k len nd Hk. simpl in Hk.
    now rewrite lookup_empty in Hk.
Qed.

Lemma passes_filter_loosen (min_meas max_meas min_meas' max_meas' : Z)
    (density density' : Q) (len : Z) (nd : Q) :
  (min_meas' <= min_meas)%Z -> (max_meas <= max_meas')%Z ->
  (density' <= density)%Q -> (1 <= len)%Z ->
  passes_filter min_meas max_meas density len nd = true ->
  passes_filter min_meas' max_meas' density' len nd = true.
Proof.
  unfold passes_filter. intros Hmin Hmax Hd Hlen Hpass.
  apply andb_prop in Hpass as [Hpass Hq].
  apply andb_prop in Hpass as [H1 H2].
  apply Z.leb_le in H1, H2. apply Qle_bool_iff in Hq.
  apply andb_true_intro. split; [apply andb_true_intro; split|].
  - apply Z.leb_le. lia.
  - apply Z.leb_le. lia.
  - apply Qle_bool_iff. eapply Qle_trans; [|exact Hq].
    apply Qmult_le_compat_r; [exact Hd|].
    unfold Qle. simpl. lia.
Qed.

Lemma filter_length_implied {A : Type} (f g : A -> bool) (l : list A) :
  (forall x, In x l -> f x = true -> g x = true) ->
  length (List.filter f l) <= length (List.filter g l).
Proof.
  induction l as [|a l IH]; intros Himp; simpl; [lia|].
  assert (IH' : length (List.filter f l) <= length (List.filter g l)).
  { apply IH. intros x Hx. apply Himp. now right. }
  destruct (f a) eqn:Hf.
  - rewrite (Himp a) by (auto; now left). simpl. lia.
  - destruct (g a); simpl; lia.
Qed.

(** X19. Loosening the filter never loses a region: with a lower minimum, a
    higher maximum and a lower density threshold, [get_num_repeats] counts
    at least as many regions.  (Every recorded length is at least one
    measure, so a lower threshold per measure is a lower threshold.) *)
Theorem get_num_repeats_monotone (list_words : list string)
    (min_meas max_meas min_meas' max_meas' : Z) (density density' : Q)
    (n n' : Z) :
  (min_meas' <= min_meas)%Z -> (max_meas <= max_meas')%Z ->
  (density' <= density)%Q ->
  get_num_repeats list_words min_meas max_meas density = Ok n ->
  get_num_repeats list_words min_meas' max_meas' density' = Ok n' ->
  (n <= n')%Z.
Proof.
  intros Hmin Hmax Hd Hn Hn'.
  destruct (get_repeats_scan_total list_words) as [st Hscan].
  rewrite (get_num_repeats_spec _ _ _ _ st) in Hn by exact Hscan.
  rewrite (get_num_repeats_spec _ _ _ _ st) in Hn' by exact Hscan.
  inversion Hn; inversion Hn'; subst n n'.
  apply inj_le, filter_length_implied.
  intros [k e] _. unfold region_kept. cbn [fst snd].
  destruct (0 <? e)%Z; [|discriminate]. simpl.
  destruct (length_dict st !! k) as [[len nd]|] eqn:Hk; [|discriminate].
  apply passes_filter_loosen; auto.
  apply get_repeats_scan_lengths in Hscan as [_ Hrec]. eauto.
Qed.

Lemma get_num_repeats_monotone_witness :
  get_num_repeats stream_with_unclosed_region 1 4 1 = Ok 0%Z /\
  get_num_repeats stream_with_unclosed_region 1 4 (1 # 2) = Ok 1%Z /\
  (0 <= 1)%Z.
Proof.
  assert (Htight : get_num_repeats stream_with_unclosed_region 1 4 1
                   = Ok 0%Z) by (vm_compute; reflexivity).
  assert (Hloose : get_num_repeats stream_with_unclosed_region 1 4 (1 # 2)
                   = Ok 1%Z) by (vm_compute; reflexivity).
  split; [exact Htight|split; [exact Hloose|]].
  apply (get_num_repeats_monotone stream_with_unclosed_region
           1 4 1 4 1 (1 # 2) 0 1)%Z.
  - lia.
  - lia.
  - vm_compute. discriminate.
  - exact Htight.
  - exact Hloose.
Defined.

(** ** The order of the regions *)

Lemma dict_set_fresh {V : Type} (k : nat) (v : V) (d : list (nat * V)) :
  (forall k', k' ∈ d.*1 -> k' < k) -> dict_set k v d = d ++ [(k, v)].
Proof.
  induction d as [|[k0 v0] d IH]; intros Hlt; simpl; [reflexivity|].
  assert (k0 < k) by (apply Hlt; simpl; set_solver).
  replace (k =? k0) with false by (symmetry; apply Nat.eqb_neq; lia).
  f_equal. apply IH. intros k' Hk'. apply Hlt. simpl. set_solver.
Qed.

Lemma dict_set_present {V : Type} (k : nat) (v : V) (d : list (nat * V)) :
  k ∈ d.*1 -> (dict_set k v d).*1 = d.*1.
Proof.
  induction d as [|[k0 v0] d IH]; intros Hin; simpl; [set_solver|].
  destruct (k =? k0) eqn:E.
  - apply Nat.eqb_eq in E. now subst.
  - apply Nat.eqb_neq in E. simpl. f_equal. apply IH.
    simpl in Hin. set_solver.
Qed.

Lemma increasing_snoc (l : list nat) (k : nat) :
  increasing l -> (forall a, a ∈ l -> a < k) -> increasing (l ++ [k]).
Proof.
  induction l as [|a l IH]; intros Hinc Hlt; simpl.
  - split; [constructor|exact I].
  - destruct Hinc as [Ha Hinc]. split.
    + apply Forall_app. split; [exact Ha|].
      constructor; [apply Hlt; set_solver|constructor].
    + apply IH; [exact Hinc|]. intros b Hb. apply Hlt. set_solver.
Qed.

Lemma increasing_filter (f : nat * Z -> bool) (d : list (nat * Z)) :
  increasing d.*1 -> increasing (List.filter f d).*1.
Proof.
  induction d as [|[k e] d IH]; intros Hinc; simpl; [exact I|].
  destruct Hinc as [Hk Hinc]. specialize (IH Hinc).
  destruct (f (k, e)); [|exact IH]. simpl. split; [|exact IH].
  clear IH Hinc. induction d as [|[k' e'] d IHd]; simpl; [constructor|].
  apply Forall_cons in Hk as [Hk' Hk].
  destruct (f (k', e')); simpl; [constructor|]; auto.
Qed.

Lemma keys_inv_mono (b b' : nat) (st : scan_state) :
  b <= b' -> keys_inv b st -> keys_inv b' st.
Proof.
  intros Hb [H1 H2 H3]. split; auto.
  intros k Hk. specialize (H2 k Hk). lia.
Qed.

Lemma get_repeats_step_keys (list_words : list string) (i : nat)
    (st st' : scan_state) :
  keys_inv i st ->
  get_repeats_step list_words st i = Ok st' ->
  keys_inv (i + 1) st'.
Proof.
  intros Hinv Hstep. unfold get_repeats_step in Hstep.
  apply bind_Ok in Hstep as (t & _ & Hstep).
  destruct (String.eqb t "new_measure").
  2:{ inversion Hstep; subst. apply (keys_inv_mono i); [lia|].
      destruct Hinv. now split. }
  apply bind_Ok in Hstep as (t1 & _ & Hstep).
  set (opened := if String.eqb t1 "measure:repeat_open" then _ else _)
    in Hstep.
  assert (Hopened : keys_inv (i + 1) opened).
  { subst opened. destruct (String.eqb t1 "measure:repeat_open").
    - destruct Hinv as [H1 H2 H3].
      split; cbn [endpoint_dict open_reps];
        rewrite (dict_set_fresh i) by exact H2; rewrite fmap_app; simpl.
      + now apply increasing_snoc.
      + intros k Hk. apply elem_of_app in Hk as [Hk|Hk].
        * specialize (H2 k Hk). lia.
        * apply list_elem_of_singleton in Hk. lia.
      + intros s Hs. apply elem_of_app in Hs as [Hs|Hs]; set_solver.
    - apply (keys_inv_mono i); [lia|]. destruct Hinv. now split. }
  clearbody opened.
  apply bind_Ok in Hstep as (closing & _ & Hstep).
  destruct closing; [|now inversion Hstep; subst].
  destruct (0 <? length (open_reps opened)) eqn:Hlen.
  - destruct (last (open_reps opened)) as [idx|] eqn:Hlast; [|discriminate].
    inversion Hstep; subst st'.
    apply last_Some in Hlast as [stack Hstack].
    destruct Hopened as [H1 H2 H3].
    assert (Hidx : idx ∈ (endpoint_dict opened).*1).
    { apply H3. rewrite Hstack. set_solver. }
    split; cbn [endpoint_dict open_reps];
      rewrite (dict_set_present idx) by exact Hidx; auto.
    rewrite Hstack, removelast_last. intros s Hs. apply H3.
    rewrite Hstack. set_solver.
  - destruct (length (endpoint_dict opened) =? 0) eqn:Hed;
      inversion Hstep; subst st'; [|assumption].
    apply Nat.eqb_eq in Hed. apply Nat.ltb_ge in Hlen.
    destruct (endpoint_dict opened) as [|? ?] eqn:Hd; [|discriminate].
    destruct (open_reps opened) as [|? ?] eqn:Ho; [|simpl in Hlen; lia].
    split; cbn [endpoint_dict open_reps]; rewrite ?Hd, ?Ho; simpl.
    + split; [constructor|exact I].
    + intros k Hk. apply list_elem_of_singleton in Hk. lia.
    + intros s Hs. set_solver.
Qed.

Lemma get_repeats_scan_keys (list_words : list string) (st : scan_state) :
  get_repeats_scan list_words = Ok st ->
  increasing (endpoint_dict st).*1.
Proof.
  intros Hscan.
  apply (keys_increasing (0 + (length list_words - 2))).
  apply (foldM_seq_inv keys_inv (get_repeats_step list_words)
           (length list_words - 2) 0 scan_init st); [| |exact Hscan].
  - intros i s s' _. apply get_repeats_step_keys.
  - split; simpl; [exact I|set_solver|set_solver].
Qed.

(** X20. The regions [get_repeats] returns are those entries of the
    [endpoint_dict] of the scan that pass the filter, and they come in the
    order of their start positions: the keys of [endpoint_dict] are
    strictly increasing, whatever the order in which the regions were
    closed, and [get_repeats] returns the concatenation of the token
    ranges of the entries that pass, in that order.  Each of them was
    closed at a positive position of the stream that is not before its
    start; [get_num_repeats] returns their number. *)
Theorem get_repeats_regions_in_stream_order (list_words : list string)
    (min_meas max_meas : Z) (density : Q) (st : scan_state) :
  get_repeats_scan list_words = Ok st ->
  increasing (endpoint_dict st).*1 /\
  get_repeats list_words min_meas max_meas density
  = Ok (flat_map (region_tokens list_words)
          (List.filter
             (region_kept min_meas max_meas density (length_dict st))
             (endpoint_dict st))) /\
  get_num_repeats list_words min_meas max_meas density
  = Ok (Z.of_nat
          (length
             (List.filter
                (region_kept min_meas max_meas density (length_dict st))
                (endpoint_dict st)))) /\
  increasing
    (List.filter (region_kept min_meas max_meas density (length_dict st))
                 (endpoint_dict st)).*1 /\
  Forall (closed_region list_words)
    (List.filter (region_kept min_meas max_meas density (length_dict st))
                 (endpoint_dict st)).
Proof.
  intros Hscan.
  pose proof (get_repeats_scan_keys list_words st Hscan) as Hkeys.
  split; [exact Hkeys|].
  split; [exact (get_repeats_spec list_words _ _ _ st Hscan)|].
  split; [exact (get_num_repeats_spec list_words _ _ _ st Hscan)|].
  split; [now apply increasing_filter|].
  apply List.Forall_forall. intros [k e] Hin.
  apply filter_In in Hin as [Hin Hkept].
  pose proof (scan_entries_ok list_words st Hscan) as Hok.
  rewrite List.Forall_forall in Hok. specialize (Hok (k, e) Hin).
  unfold region_kept in Hkept. cbn [fst snd] in Hkept.
  apply andb_prop in Hkept as [Hpos _]. apply Z.ltb_lt in Hpos.
  unfold closed_region. cbn [fst snd]. split; [exact Hpos|].
  destruct Hok as [Hopen|[Hrange _]]; cbn [fst snd] in *; lia.
Qed.

Lemma get_repeats_regions_in_stream_order_witness :
  increasing (endpoint_dict scan_nested_repeat).*1 /\
  get_repeats stream_nested_repeat 1 3 0
  = Ok (flat_map (region_tokens stream_nested_repeat)
          (List.filter
             (region_kept 1 3 0 (length_dict scan_nested_repeat))
             (endpoint_dict scan_nested_repeat))) /\
  get_num_repeats stream_nested_repeat 1 3 0
  = Ok (Z.of_nat
          (length
             (List.filter
                (region_kept 1 3 0 (length_dict scan_nested_repeat))
                (endpoint_dict scan_nested_repeat)))) /\
  increasing
    (List.filter (region_kept 1 3 0 (length_dict scan_nested_repeat))
                 (endpoint_dict scan_nested_repeat)).*1 /\
  Forall (closed_region stream_nested_repeat)
    (List.filter (region_kept 1 3 0 (length_dict scan_nested_repeat))
                 (endpoint_dict scan_nested_repeat)).
Proof.
  apply (get_repeats_regions_in_stream_order stream_nested_repeat
           1 3 0 scan_nested_repeat).
  vm_compute; reflexivity.
Defined.

(** ** The dominant time signature *)

Lemma dom_fold_stays (l : signature_dict) (m : Z) (s : option (Z * Z)) :
  Forall (fun kv => (kv.2 <= m)%Z) l -> fold_left dom_step l (m, s) = (m, s).
Proof.
  induction l as [|kv l IH]; intros Hall; simpl; [reflexivity|].
  apply Forall_cons in Hall as [Hkv Hall].
  unfold dom_step at 2. cbn [fst snd].
  replace (m <? kv.2)%Z with false by (symmetry; apply Z.ltb_ge; lia).
  now apply IH.
Qed.

Lemma dom_fold_below (l : signature_dict) (v : Z) :
  forall m s,
    (m < v)%Z -> Forall (fun kv => (kv.2 < v)%Z) l ->
    ((fold_left dom_step l (m, s)).1 < v)%Z.
Proof.
  induction l as [|kv l IH]; intros m s Hm Hall; simpl; [exact Hm|].
  apply Forall_cons in Hall as [Hkv Hall].
  unfold dom_step at 2. cbn [fst snd].
  destruct (m <? kv.2)%Z; now apply IH.
Qed.

(** X21. [get_dom_beats_per_bar] returns [num * 4 / dem] for the first
    signature [(num, dem)] whose count is positive and the largest; a later
    signature with the same count does not replace it.  When no count is
    positive, as for the empty dict, no signature is chosen and unpacking
    it raises a type error; a chosen signature whose denominator is 0
    raises a division error. *)
Theorem dominant_signature_is_first_maximum (time_signatures : signature_dict) :
  (Forall (fun kv => (kv.2 <= 0)%Z) time_signatures ->
   get_dom_beats_per_bar time_signatures = BeatsTypeError) /\
  (forall l1 l2 num dem v,
     time_signatures = l1 ++ ((num, dem), v) :: l2 ->
     (0 < v)%Z ->
     Forall (fun kv => (kv.2 < v)%Z) l1 ->
     Forall (fun kv => (kv.2 <= v)%Z) l2 ->
     get_dom_beats_per_bar time_signatures
     = if (dem =? 0)%Z then BeatsZeroDivisionError
       else Beats (inject_Z num * (4 / inject_Z dem))%Q).
Proof.
  unfold get_dom_beats_per_bar. split.
  - intros Hall. now rewrite dom_fold_stays.
  - intros l1 l2 num dem v -> Hv H1 H2.
    rewrite fold_left_app. cbn [fold_left].
    pose proof (dom_fold_below l1 v 0 None Hv H1) as Hlt.
    destruct (fold_left dom_step l1 (0%Z, None)) as [m s].
    cbn [fst] in Hlt. unfold dom_step at 2. cbn [fst snd].
    replace (m <? v)%Z with true by (symmetry; apply Z.ltb_lt; lia).
    now rewrite dom_fold_stays.
Qed.

(** ** Melody lists of a song *)

Lemma beat_fold_renders (measure : Measure) (beats : list Beat) :
  forall ml ml',
    foldM (beat_step measure) beats ml = Ok ml' ->
    exists new,
      ml' = ml ++ new /\ Forall2 renders (map (pair measure) beats) new.
Proof.
  induction beats as [|beat beats IH]; intros ml ml' Hrun; simpl in Hrun.
  - inversion Hrun; subst. exists []. rewrite app_nil_r. now split.
  - apply bind_Ok in Hrun as (ml1 & Hstep & Hrun). unfold beat_step in Hstep.
    apply bind_Ok in Hstep as (note & Hnote & Hret).
    inversion Hret; subst ml1.
    apply IH in Hrun as (new & -> & Hall).
    exists (note :: new). rewrite <- app_assoc. split; [reflexivity|].
    simpl. constructor; [exact Hnote|exact Hall].
Qed.

Lemma measure_fold_renders (i : nat) (measures : list Measure) :
  forall ml ts ml' ts',
    foldM (measure_step i) measures (ml, ts) = Ok (ml', ts') ->
    exists new,
      ml' = ml ++ new /\ Forall2 renders (track_beats (mkTrack measures)) new.
Proof.
  unfold track_beats. cbn [track_measures].
  induction measures as [|measure measures IH]; intros ml ts ml' ts' Hrun;
    simpl in Hrun.
  - inversion Hrun; subst. exists []. rewrite app_nil_r. now split.
  - apply bind_Ok in Hrun as ([ml1 ts1] & Hstep & Hrun).
    unfold measure_step in Hstep. cbn [fst snd] in Hstep.
    apply bind_Ok in Hstep as (voice & Hvoice & Hstep).
    apply bind_Ok in Hstep as (ml2 & Hbeats & Hret).
    assert (ml1 = ml2) by (destruct (i =? 0); now inversion Hret).
    subst ml2.
    apply py_index_Ok in Hvoice.
    destruct (measure_voices measure) as [|voice' voices] eqn:Hv;
      [discriminate|].
    inversion Hvoice; subst voice'.
    apply beat_fold_renders in Hbeats as (new1 & -> & H1).
    apply IH in Hrun as (new2 & -> & H2).
    exists (new1 ++ new2). rewrite <- app_assoc. split; [reflexivity|].
    simpl. rewrite Hv. now apply Forall2_app.
Qed.

Lemma track_fold_renders (tracks : list Track) :
  forall i lists ts lists' ts',
    foldM track_step (enumerate_from i tracks) (lists, ts)
    = Ok (lists', ts') ->
    exists new,
      lists' = lists ++ new /\
      Forall2 (fun track ml => Forall2 renders (track_beats track) ml)
              tracks new.
Proof.
  induction tracks as [|track tracks IH]; intros i lists ts lists' ts' Hrun;
    simpl in Hrun.
  - inversion Hrun; subst. exists []. rewrite app_nil_r. now split.
  - apply bind_Ok in Hrun as ([lists1 ts1] & Hstep & Hrun).
    unfold track_step in Hstep. cbn [fst snd] in Hstep.
    apply bind_Ok in Hstep as ([ml ts2] & Hmeasures & Hret).
    inversion Hret; subst lists1 ts1.
    apply measure_fold_renders in Hmeasures as (new1 & -> & H1).
    apply IH in Hrun as (new2 & -> & H2).
    exists (new1 :: new2). rewrite <- app_assoc. split; [reflexivity|].
    constructor; [|exact H2]. destruct track. exact H1.
Qed.

Lemma renders_times (mb : Measure * Beat) (note : MelodyNote) :
  renders mb note ->
  duration note = beat_value mb.2 /\
  start_time note = (beat_start mb.2 - 960)%Z /\
  (on_bar note = true <-> beat_start mb.2 = measure_start mb.1).
Proof.
  unfold renders, MelodyNote_init. intros Hinit.
  destruct (beat_value mb.2 =? 0)%Z; [discriminate|].
  assert (Hbar : ((beat_start mb.2 - 960 =? measure_start mb.1 - 960)%Z = true
                  <-> beat_start mb.2 = measure_start mb.1)).
  { rewrite Z.eqb_eq. lia. }
  destruct (0 <? length (beat_notes mb.2)); inversion Hinit; subst note;
    cbn [duration start_time on_bar]; auto.
Qed.

(** X22. When [create_track_list] returns, it returns one melody list per track
    of the song, in order, and the melody list of a track has one note per
    beat of the first voice of its measures, in order.  The note is the
    [MelodyNote] of the beat: it has the beat's duration value, it starts
    960 ticks before the beat's own start, and it is on the bar exactly
    when the beat starts where its measure starts. *)
Theorem create_track_list_renders_every_beat (song : Song)
    (melody_track_lists : list (list MelodyNote))
    (time_signatures : signature_dict) :
  create_track_list song = Ok (melody_track_lists, time_signatures) ->
  length melody_track_lists = length (song_tracks song) /\
  Forall2
    (fun track melody_list =>
       Forall2
         (fun mb note =>
            renders mb note /\
            duration note = beat_value mb.2 /\
            start_time note = (beat_start mb.2 - 960)%Z /\
            (on_bar note = true <-> beat_start mb.2 = measure_start mb.1))
         (track_beats track) melody_list)
    (song_tracks song) melody_track_lists.
Proof.
  unfold create_track_list. intros Hrun.
  apply track_fold_renders in Hrun as (new & -> & Hall). simpl.
  split; [symmetry; eapply Forall2_length, Hall|].
  eapply Forall2_impl; [exact Hall|]. intros track ml Hml. simpl in Hml.
  eapply Forall2_impl; [exact Hml|]. intros mb note Hr.
  split; [exact Hr|now apply renders_times].
Qed.

Lemma create_track_list_renders_every_beat_witness :
  length tracks_of_three_measures.1
  = length (song_tracks song_of_three_measures) /\
  Forall2
    (fun track melody_list =>
       Forall2
         (fun mb note =>
            renders mb note /\
            duration note = beat_value mb.2 /\
            start_time note = (beat_start mb.2 - 960)%Z /\
            (on_bar note = true <-> beat_start mb.2 = measure_start mb.1))
         (track_beats track) melody_list)
    (song_tracks song_of_three_measures) tracks_of_three_measures.1.
Proof.
  apply (create_track_list_renders_every_beat song_of_three_measures
           tracks_of_three_measures.1 tracks_of_three_measures.2).
  vm_compute; reflexivity.
Defined.

(** ** Time signatures of a song *)

Lemma count_signature_count (s signature : Z * Z) (d : signature_dict) :
  signature_count s (count_signature signature d)
  = (signature_count s d + if bool_decide (signature = s) then 1 else 0)%Z.
Proof.
  induction d as [|[k v] d IH]; simpl.
  - destruct (decide (signature = s)) as [->|Hne].
    + now rewrite !bool_decide_eq_true_2.
    + rewrite !bool_decide_eq_false_2 by congruence. reflexivity.
  - destruct (decide (signature = k)) as [->|Hne].
    + rewrite (bool_decide_eq_true_2 (k = k)) by reflexivity. simpl.
      destruct (decide (s = k)) as [->|Hsk].
      * now rewrite !bool_decide_eq_true_2.
      * rewrite !bool_decide_eq_false_2 by congruence. lia.
    + rewrite (bool_decide_eq_false_2 (signature = k)) by assumption. simpl.
      destruct (decide (s = k)) as [->|Hsk].
      * rewrite (bool_decide_eq_true_2 (k = k)) by reflexivity.
        rewrite bool_decide_eq_false_2 by assumption. lia.
      * rewrite (bool_decide_eq_false_2 (s = k)) by assumption. exact IH.
Qed.

Lemma count_signature_positive (signature : Z * Z) (d : signature_dict) :
  Forall (fun kv => (1 <= kv.2)%Z) d ->
  Forall (fun kv => (1 <= kv.2)%Z) (count_signature signature d).
Proof.
  induction d as [|[k v] d IH]; intros Hall; simpl.
  - constructor; [simpl; lia|constructor].
  - apply Forall_cons in Hall as [Hv Hall].
    destruct (bool_decide (signature = k)); constructor; auto.
    simpl in *. lia.
Qed.

Lemma count_signature_keys (signature : Z * Z) (d : signature_dict) :
  NoDup d.*1 ->
  NoDup (count_signature signature d).*1 /\
  forall k, k ∈ (count_signature signature d).*1 <->
            k = signature \/ k ∈ d.*1.
Proof.
  induction d as [|[k v] d IH]; intros Hnd; simpl.
  - split; [apply NoDup_singleton|set_solver].
  - apply NoDup_cons in Hnd as [Hk Hnd]. destruct (IH Hnd) as [IH1 IH2].
    destruct (decide (signature = k)) as [->|Hne].
    + rewrite bool_decide_eq_true_2 by reflexivity. simpl.
      split; [now apply NoDup_cons|set_solver].
    + rewrite bool_decide_eq_false_2 by assumption. simpl. split.
      * apply NoDup_cons. split; [|exact IH1].
        rewrite IH2. intros [Heq|Hin]; [congruence|exact (Hk Hin)].
      * intros k'. rewrite !elem_of_cons, IH2. tauto.
Qed.

(** The dict after the measures of a track: counted for the first track
    only. *)
Lemma measure_fold_signatures (i : nat) (measures : list Measure) :
  forall ml ts ml' ts',
    foldM (measure_step i) measures (ml, ts) = Ok (ml', ts') ->
    ts' = if i =? 0
          then fold_left (fun d m => count_signature (measure_signature m) d)
                         measures ts
          else ts.
Proof.
  induction measures as [|measure measures IH]; intros ml ts ml' ts' Hrun;
    simpl in Hrun.
  - inversion Hrun; subst. now destruct (i =? 0).
  - apply bind_Ok in Hrun as ([ml1 ts1] & Hstep & Hrun).
    unfold measure_step in Hstep. cbn [fst snd] in Hstep.
    apply bind_Ok in Hstep as (voice & _ & Hstep).
    apply bind_Ok in Hstep as (ml2 & _ & Hret).
    apply IH in Hrun. subst ts'.
    destruct (i =? 0); inversion Hret; subst; reflexivity.
Qed.

Lemma track_fold_signatures (tracks : list Track) :
  forall i lists ts lists' ts',
    0 < i ->
    foldM track_step (enumerate_from i tracks) (lists, ts)
    = Ok (lists', ts') ->
    ts' = ts.
Proof.
  induction tracks as [|track tracks IH]; intros i lists ts lists' ts' Hi Hrun;
    simpl in Hrun.
  - now inversion Hrun.
  - apply bind_Ok in Hrun as ([lists1 ts1] & Hstep & Hrun).
    unfold track_step in Hstep. cbn [fst snd] in Hstep.
    apply bind_Ok in Hstep as ([ml ts2] & Hmeasures & Hret).
    inversion Hret; subst lists1 ts1.
    apply measure_fold_signatures in Hmeasures.
    replace (i =? 0) with false in Hmeasures
      by (symmetry; apply Nat.eqb_neq; lia).
    subst ts2. apply IH in Hrun; [exact Hrun|lia].
Qed.

Lemma create_track_list_signatures (song : Song)
    (lists : list (list MelodyNote)) (ts : signature_dict) :
  create_track_list song = Ok (lists, ts) ->
  ts = fold_left (fun d m => count_signature (measure_signature m) d)
                 (first_track_measures song) [].
Proof.
  unfold create_track_list, first_track_measures. intros Hrun.
  destruct (song_tracks song) as [|track tracks]; simpl in Hrun.
  - now inversion Hrun.
  - apply bind_Ok in Hrun as ([lists1 ts1] & Hstep & Hrun).
    unfold track_step in Hstep. cbn [fst snd] in Hstep.
    apply bind_Ok in Hstep as ([ml ts2] & Hmeasures & Hret).
    inversion Hret; subst lists1 ts1.
    apply measure_fold_signatures in Hmeasures. simpl in Hmeasures.
    apply track_fold_signatures in Hrun; [|lia]. congruence.
Qed.

Lemma signature_fold_spec (measures : list Measure) :
  forall d,
    NoDup d.*1 -> Forall (fun kv => (1 <= kv.2)%Z) d ->
    let d' := fold_left (fun d m => count_signature (measure_signature m) d)
                        measures d in
    NoDup d'.*1 /\ Forall (fun kv => (1 <= kv.2)%Z) d' /\
    forall s,
      signature_count s d'
      = (signature_count s d
         + Z.of_nat (length (List.filter
                               (fun m => bool_decide (measure_signature m = s))
                               measures)))%Z.
Proof.
  induction measures as [|m measures IH]; intros d Hnd Hpos; simpl.
  - repeat split; auto. intros s. lia.
  - destruct (IH (count_signature (measure_signature m) d)) as (H1 & H2 & H3).
    + now apply count_signature_keys.
    + now apply count_signature_positive.
    + repeat split; auto. intros s. rewrite H3, count_signature_count.
      destruct (bool_decide (measure_signature m = s)); simpl; lia.
Qed.

(** X23. When [create_track_list] returns, the count it gives a time signature
    is the number of measures of the first track with that signature (0
    for a signature that is not a key); the other tracks are not counted.
    Every count in the dict is at least 1. *)
Theorem create_track_list_counts_first_track (song : Song)
    (melody_track_lists : list (list MelodyNote))
    (time_signatures : signature_dict) :
  create_track_list song = Ok (melody_track_lists, time_signatures) ->
  (forall signature,
     signature_count signature time_signatures
     = signature_occurrences song signature) /\
  Forall (fun kv => (1 <= kv.2)%Z) time_signatures.
Proof.
  intros Hrun. apply create_track_list_signatures in Hrun. subst.
  destruct (signature_fold_spec (first_track_measures song) [])
    as (_ & Hpos & Hcount); [constructor|constructor|].
  split; [|exact Hpos]. intros s. rewrite Hcount. reflexivity.
Qed.

Lemma create_track_list_counts_first_track_witness :
  (forall signature,
     signature_count signature tracks_of_three_measures.2
     = signature_occurrences song_of_three_measures signature) /\
  Forall (fun kv => (1 <= kv.2)%Z) tracks_of_three_measures.2.
Proof.
  apply (create_track_list_counts_first_track song_of_three_measures
           tracks_of_three_measures.1).
  vm_compute; reflexivity.
Defined.

(** ** Beats per bar of a song *)

Lemma dom_fold_spec (l : signature_dict) :
  forall m s m' s',
    fold_left dom_step l (m, s) = (m', s') ->
    Forall (fun kv => (kv.2 <= m')%Z) l /\
    ((m' = m /\ s' = s) \/
     ((m < m')%Z /\ exists k, s' = Some k /\ (k, m') ∈ l)).
Proof.
  induction l as [|[k v] l IH]; intros m s m' s' Hrun; simpl in Hrun.
  - inversion Hrun; subst. split; [constructor|now left].
  - unfold dom_step at 2 in Hrun. cbn [fst snd] in Hrun.
    destruct (m <? v)%Z eqn:Hlt.
    + apply Z.ltb_lt in Hlt. apply IH in Hrun as [Hall Hcase].
      assert (v <= m')%Z by (destruct Hcase as [[-> _]|[? _]]; lia).
      split; [constructor; [simpl; lia|exact Hall]|]. right.
      destruct Hcase as [[-> ->]|(Hm & k' & -> & Hin)].
      * split; [lia|]. exists k. split; [reflexivity|set_solver].
      * split; [lia|]. exists k'. split; [reflexivity|set_solver].
    + apply Z.ltb_ge in Hlt. apply IH in Hrun as [Hall Hcase].
      assert (m <= m')%Z by (destruct Hcase as [[-> _]|[? _]]; lia).
      split; [constructor; [simpl; lia|exact Hall]|].
      destruct Hcase as [Hsame|(Hm & k' & -> & Hin)]; [now left|].
      right. split; [lia|]. exists k'. split; [reflexivity|set_solver].
Qed.

Lemma nodup_signature_count (k : Z * Z) (v : Z) (d : signature_dict) :
  NoDup d.*1 -> (k, v) ∈ d -> signature_count k d = v.
Proof.
  induction d as [|[k0 v0] d IH]; intros Hnd Hin; simpl; [set_solver|].
  apply NoDup_cons in Hnd as [Hk0 Hnd].
  apply elem_of_cons in Hin as [Heq|Hin].
  - inversion Heq; subst. now rewrite bool_decide_eq_true_2.
  - rewrite bool_decide_eq_false_2; [now apply IH|].
    intros ->. apply Hk0. apply list_elem_of_fmap. now exists (k0, v).
Qed.

Lemma signature_count_le (s : Z * Z) (v : Z) (d : signature_dict) :
  (0 <= v)%Z -> Forall (fun kv => (kv.2 <= v)%Z) d ->
  (signature_count s d <= v)%Z.
Proof.
  intros Hv. induction d as [|[k0 v0] d IH]; intros Hall; simpl; [exact Hv|].
  apply Forall_cons in Hall as [H0 Hall].
  destruct (bool_decide (s = k0)); [exact H0|now apply IH].
Qed.

(** X24. The two functions composed: on the dict that [create_track_list]
    returns, [get_dom_beats_per_bar] raises a type error when the first
    track has no measure (or the song no track).  Otherwise it takes the
    time signature of a measure of the first track that no other
    signature of that track outnumbers, and returns [num * 4 / dem] for
    it, or raises a division error when its denominator is 0. *)
Theorem beats_per_bar_of_most_frequent_signature (song : Song)
    (melody_track_lists : list (list MelodyNote))
    (time_signatures : signature_dict) :
  create_track_list song = Ok (melody_track_lists, time_signatures) ->
  (first_track_measures song = [] ->
   get_dom_beats_per_bar time_signatures = BeatsTypeError) /\
  (first_track_measures song <> [] ->
   exists measure,
     In measure (first_track_measures song) /\
     get_dom_beats_per_bar time_signatures
     = (if (signature_denominator measure =? 0)%Z
        then BeatsZeroDivisionError
        else Beats (inject_Z (signature_numerator measure)
                    * (4 / inject_Z (signature_denominator measure)))%Q) /\
     forall signature,
       (signature_occurrences song signature
        <= signature_occurrences song (measure_signature measure))%Z).
Proof.
  intros Hrun. apply create_track_list_signatures in Hrun.
  destruct (signature_fold_spec (first_track_measures song) [])
    as (Hnd & Hpos & Hcount); [constructor|constructor|].
  cbv zeta in Hnd, Hpos, Hcount. rewrite <- Hrun in Hnd, Hpos, Hcount.
  clear Hrun. split.
  - intros Hnil. rewrite Hnil in Hcount. simpl in Hcount.
    destruct time_signatures as [|[k v] d]; [reflexivity|exfalso].
    specialize (Hcount k). simpl in Hcount.
    rewrite bool_decide_eq_true_2 in Hcount by reflexivity.
    apply Forall_cons in Hpos as [Hv _]. simpl in Hv. lia.
  - intros Hne. unfold get_dom_beats_per_bar.
    destruct (fold_left dom_step time_signatures (0%Z, None)) as [m' s']
      eqn:Hfold.
    apply dom_fold_spec in Hfold
      as [Hall [[-> ->]|(Hm & [num dem] & -> & Hin)]].
    + exfalso. destruct (first_track_measures song) as [|m0 l] eqn:Hm0;
        [congruence|].
      pose proof (signature_count_le (measure_signature m0) 0
                    time_signatures (Z.le_refl 0) Hall) as Hle.
      rewrite Hcount in Hle. simpl in Hle.
      rewrite bool_decide_eq_true_2 in Hle by reflexivity.
      simpl in Hle. lia.
    + assert (Hocc : forall s, signature_count s time_signatures
                               = signature_occurrences song s).
      { intros s. rewrite Hcount. reflexivity. }
      pose proof (nodup_signature_count _ _ _ Hnd Hin) as Hk.
      rewrite Hocc in Hk.
      assert (Hex : exists measure,
                 In measure (first_track_measures song) /\
                 measure_signature measure = (num, dem)).
      { unfold signature_occurrences in Hk.
        destruct (List.filter
                    (fun m => bool_decide (measure_signature m = (num, dem)))
                    (first_track_measures song)) as [|m0 l] eqn:Hf;
          [simpl in Hk; lia|].
        assert (Hin0 : In m0 (List.filter
                    (fun m => bool_decide (measure_signature m = (num, dem)))
                    (first_track_measures song))) by (rewrite Hf; now left).
        apply filter_In in Hin0 as [Hin0 Hsig].
        apply bool_decide_eq_true in Hsig. eauto. }
      destruct Hex as (measure & Hmeasure & Hsig).
      exists measure. split; [exact Hmeasure|].
      unfold measure_signature in Hsig. inversion Hsig; subst num dem.
      split; [reflexivity|].
      intros s. unfold measure_signature. rewrite Hk, <- Hocc.
      apply signature_count_le; [lia|exact Hall].
Qed.

Lemma beats_per_bar_of_most_frequent_signature_witness :
  (first_track_measures song_of_three_measures = [] ->
   get_dom_beats_per_bar tracks_of_three_measures.2 = BeatsTypeError) /\
  (first_track_measures song_of_three_measures <> [] ->
   exists measure,
     In measure (first_track_measures song_of_three_measures) /\
     get_dom_beats_per_bar tracks_of_three_measures.2
     = (if (signature_denominator measure =? 0)%Z
        then BeatsZeroDivisionError
        else Beats (inject_Z (signature_numerator measure)
                    * (4 / inject_Z (signature_denominator measure)))%Q) /\
     forall signature,
       (signature_occurrences song_of_three_measures signature
        <= signature_occurrences song_of_three_measures
             (measure_signature measure))%Z).
Proof.
  apply (beats_per_bar_of_most_frequent_signature song_of_three_measures
           tracks_of_three_measures.1).
  vm_compute; reflexivity.
Defined.

(** ** When create_track_list returns *)

Lemma MelodyNote_init_returns (value : Z) (isDotted : bool)
    (start bar_start : Z) (note_list : list (Z * Z * NoteType.t)) :
  (exists note,
     MelodyNote_init value isDotted start bar_start note_list = Ok note)
  <-> value <> 0%Z.
Proof.
  unfold MelodyNote_init. destruct (value =? 0)%Z eqn:Hv.
  - apply Z.eqb_eq in Hv. split; [intros [note H]; discriminate|congruence].
  - apply Z.eqb_neq in Hv. split; [auto|intros _].
    destruct (0 <? length note_list); eauto.
Qed.

Lemma beat_fold_returns (measure : Measure) (beats : list Beat) :
  forall ml,
    (exists ml', foldM (beat_step measure) beats ml = Ok ml')
    <-> Forall (fun beat => beat_value beat <> 0%Z) beats.
Proof.
  induction beats as [|beat beats IH]; intros ml; simpl.
  - split; [constructor|eauto].
  - unfold beat_step at 1. split.
    + intros [ml' Hrun].
      apply bind_Ok in Hrun as (ml1 & Hstep & Hrun).
      apply bind_Ok in Hstep as (note & Hnote & _).
      constructor.
      * apply (MelodyNote_init_returns _ (beat_isDotted beat)
                 (beat_start beat - 960)%Z (measure_start measure - 960)%Z
                 (beat_notes beat)). eauto.
      * apply (IH ml1). eauto.
    + intros Hall. apply Forall_cons in Hall as [Hv Hall].
      apply (MelodyNote_init_returns _ (beat_isDotted beat)
               (beat_start beat - 960)%Z (measure_start measure - 960)%Z
               (beat_notes beat)) in Hv as [note ->].
      cbn [bind]. now apply IH.
Qed.

Lemma measure_step_returns (i : nat) (measure : Measure)
    (st : list MelodyNote * signature_dict) :
  (exists st', measure_step i st measure = Ok st') <-> measure_ok measure.
Proof.
  unfold measure_step, measure_ok, py_index.
  destruct (measure_voices measure) as [|voice voices]; simpl.
  - split; [intros [st' H]; discriminate|tauto].
  - rewrite <- (beat_fold_returns measure (voice_beats voice) st.1). split.
    + intros [st' Hrun]. apply bind_Ok in Hrun as (ml & Hml & _). eauto.
    + intros [ml ->]. cbn [bind]. destruct (i =? 0); eauto.
Qed.

Lemma measure_fold_returns (i : nat) (measures : list Measure) :
  forall st,
    (exists st', foldM (measure_step i) measures st = Ok st')
    <-> Forall measure_ok measures.
Proof.
  induction measures as [|measure measures IH]; intros st; simpl.
  - split; [constructor|eauto].
  - split.
    + intros [st' Hrun]. apply bind_Ok in Hrun as (st1 & Hstep & Hrun).
      constructor.
      * apply (measure_step_returns i measure st). eauto.
      * apply (IH st1). eauto.
    + intros Hall. apply Forall_cons in Hall as [Hm Hall].
      apply (measure_step_returns i measure st) in Hm as [st1 ->].
      cbn [bind]. now apply IH.
Qed.

Lemma track_fold_returns (tracks : list Track) :
  forall i st,
    (exists st', foldM track_step (enumerate_from i tracks) st = Ok st')
    <-> Forall (fun track => Forall measure_ok (track_measures track)) tracks.
Proof.
  induction tracks as [|track tracks IH]; intros i st; simpl.
  - split; [constructor|eauto].
  - unfold track_step at 1. cbn [fst snd]. split.
    + intros [st' Hrun]. apply bind_Ok in Hrun as (st1 & Hstep & Hrun).
      apply bind_Ok in Hstep as (r & Hr & _).
      constructor.
      * apply (measure_fold_returns i _ ([], st.2)). eauto.
      * apply (IH (S i) st1). eauto.
    + intros Hall. apply Forall_cons in Hall as [Hm Hall].
      apply (measure_fold_returns i _ ([], st.2)) in Hm as [r ->].
      cbn [bind]. now apply IH.
Qed.

(** X25. [create_track_list] returns exactly for the songs in which every
    measure of every track has a first voice and no beat of a first voice
    has the duration value 0.  On the others it raises: reading
    [measure.voices[0]] or dividing by the duration fails. *)
Theorem create_track_list_returns_iff_song_ok (song : Song) :
  (exists melody_track_lists time_signatures,
     create_track_list song = Ok (melody_track_lists, time_signatures))
  <-> song_ok song.
Proof.
  unfold song_ok, create_track_list.
  rewrite <- (track_fold_returns (song_tracks song) 0 ([], [])). split.
  - intros (lists & ts & H). eauto.
  - intros [[lists ts] H]. eauto.
Qed.
